(** * smart-helpdesk: the triage pipeline and its helpers

    A shallow embedding of
      - backend/agent/llmProvider.js   (classify, on the strings of the
        pipeline and on any argument; draft),
      - backend/services/kbSearch.js   (searchTop),
      - the triage service             (log, getFlag, triageTicket),
      - AgentService                   (stubClassify, makeDecision,
                                        calculateRelevance, generateSnippet),
      - the models: AgentSuggestion (the validators of its schema), Config
        (validateValue, the save hook, getByKey, setValue, getAllAsObject),
        Article (excerpt, slug), Ticket (slaStatus, isSLABreached,
        findSLABreached, findNeedingAttention), User (hasPermission),
      - the middleware: rateLimit, requireRole, requireTicketAccess,
      - the routes: GET /api/kb, GET /api/tickets/:id, POST /api/tickets,
        POST /api/config/bulk-update,
    followed by the properties of the specification that concern them, and
    by further properties of the code.

    Conventions of the model.
      - JavaScript strings are modelled by [string] (sequences of 8-bit
        characters); [toLowerCase] and [trim] act on the ASCII range.
      - JavaScript numbers are modelled by exact rationals [Q]; a decimal
        literal denotes its decimal value.
      - Collections of the document store are finite maps and lists; what
        the store answers to a write is a parameter of the run ([Env]).
      - What the code leaves to a library is a parameter too: the regular
        expression of a config validation, the order of a store-side sort.
      - An object literal is the finite map of its own properties; a read
        of it ([JsObject.get]) falls back on [Object.prototype]. *)

From Stdlib Require Import QArith Qround Qminmax Lqa.
From Stdlib Require Import Ascii String.
From stdpp Require Import base option list sorting gmap strings.

Local Open Scope string_scope.
Local Open Scope list_scope.
Local Open Scope nat_scope.

(** ** JavaScript primitives used by the sources *)

Module Js.

(** [String.prototype.toLowerCase], on the ASCII range. *)
Definition lower_ascii (c : ascii) : ascii :=
  let n := nat_of_ascii c in
  if (65 <=? n) && (n <=? 90) then ascii_of_nat (n + 32) else c.

Fixpoint toLowerCase (s : string) : string :=
  match s with
  | EmptyString => EmptyString
  | String c s' => String (lower_ascii c) (toLowerCase s')
  end.

(** [t.includes(w)]: [w] occurs in [t] as a substring. *)
Fixpoint includes (t w : string) : bool :=
  String.prefix w t ||
  match t with
  | EmptyString => false
  | String _ t' => includes t' w
  end.

(** White space removed by [String.prototype.trim] (ASCII part). *)
Definition is_ws (c : ascii) : bool :=
  let n := nat_of_ascii c in
  (n =? 9) || (n =? 10) || (n =? 11) || (n =? 12) || (n =? 13) || (n =? 32).

Fixpoint trimStart (s : string) : string :=
  match s with
  | EmptyString => EmptyString
  | String c s' => if is_ws c then trimStart s' else s
  end.

Fixpoint trimEnd (s : string) : string :=
  match s with
  | EmptyString => EmptyString
  | String c s' =>
      match trimEnd s' with
      | EmptyString => if is_ws c then EmptyString else String c EmptyString
      | r => String c r
      end
  end.

Definition trim (s : string) : string := trimEnd (trimStart s).

Fixpoint whitespace_only (s : string) : bool :=
  match s with
  | EmptyString => true
  | String c s' => is_ws c && whitespace_only s'
  end.

(** Truthiness of a string: only the empty string is falsy. *)
Definition truthy_string (s : string) : bool :=
  match s with EmptyString => false | _ => true end.

(** [lines.join(sep)]. *)
Fixpoint join (sep : string) (l : list string) : string :=
  match l with
  | [] => EmptyString
  | [x] => x
  | x :: rest => x ++ sep ++ join sep rest
  end.

(** Decimal rendering of a non-negative integer, as a template literal
    prints it. *)
Definition digit (n : nat) : ascii := ascii_of_nat (48 + n mod 10).

Fixpoint showNat_fuel (fuel n : nat) (acc : string) : string :=
  match fuel with
  | O => acc
  | S fuel' =>
      let acc' := String (digit n) acc in
      if n <? 10 then acc' else showNat_fuel fuel' (n / 10) acc'
  end.

Definition showNat (n : nat) : string := showNat_fuel (S n) n EmptyString.

(** Values a config entry holds for the two flags of the pipeline: the
    schema field is [Mixed]; booleans and numbers are modelled. *)
Inductive value : Type :=
| JBool (b : bool)
| JNum (q : Q).

Definition truthy (v : value) : bool :=
  match v with
  | JBool b => b
  | JNum q => negb (Qeq_bool q 0)
  end.

Definition toNumber (v : value) : Q :=
  match v with
  | JBool true => 1%Q
  | JBool false => 0%Q
  | JNum q => q
  end.

(** [c >= v] with [c] a number. *)
Definition ge (c : Q) (v : value) : bool := Qle_bool (toNumber v) c.

(** [x || d] on numbers: [0] is falsy. *)
Definition or_num (x d : Q) : Q := if Qeq_bool x 0 then d else x.

(** [Number(x.toFixed(2))]: the nearest multiple of 1/100, halves up. *)
Definition toFixed2 (x : Q) : Q := Qred (Qfloor (x * 100 + (1 # 2)) # 100).

(** [arr.slice(0, end)] for an integer [end]; a negative [end] counts
    from the end of the array. *)
Definition slice0 {A : Type} (l : list A) (e : Z) : list A :=
  let len := Z.of_nat (length l) in
  let k := if (e <? 0)%Z then Z.max (len + e) 0 else Z.min e len in
  take (Z.to_nat k) l.

(** [arr.sort(cmp)]: the sort is stable (ECMAScript 2019); [x] is placed
    before [y] when [cmp x y < 0], and elements that compare equal keep
    their order.  Insertion, from the right. *)
Section Sort.
Context {A : Type} (cmp : A -> A -> Q).

Definition negative (q : Q) : bool :=
  match Qcompare q 0 with Lt => true | _ => false end.

Fixpoint insert_sorted (x : A) (l : list A) : list A :=
  match l with
  | [] => [x]
  | y :: l' =>
      if negative (cmp y x) then y :: insert_sorted x l' else x :: y :: l'
  end.

Fixpoint sort (l : list A) : list A :=
  match l with
  | [] => []
  | x :: l' => insert_sorted x (sort l')
  end.
End Sort.

(** Comparators of the form [(a, b) => key(b) - key(a)], the order they
    induce, and the elements with a given key. *)
Section Keys.
Context {A : Type} (key : A -> Q).

Definition desc (a b : A) : Q := (key b - key a)%Q.

Definition descending : A -> A -> Prop := fun a b => (key b <= key a)%Q.

Definition has_key (s : Q) (a : A) : bool := Qeq_bool (key a) s.
End Keys.

End Js.

(** ** The data model (backend/models) *)

Definition ObjectId : Type := nat.

Inductive Category : Type := billing | tech | shipping | other.

Module Article.
Inductive Status : Type := draft | published | archived.

(** A lean article document; [body] and [tags] may be missing, which the
    ranker guards with [a.body || ''] and [a.tags || []]. *)
Record t : Type :=
  { _id : ObjectId;
    title : string;
    body : option string;
    tags : option (list string);
    status : Status;
    category : Category }.
End Article.

Module Ticket.
Inductive Status : Type := open | triaged | waiting_human | resolved | closed.

(** A ticket document.  [agentSuggestionId] is the property that the
    triage service sets on the document; [ticketSchema] has no path of
    that name. *)
Record t : Type :=
  { _id : ObjectId;
    title : string;
    description : string;
    category : Category;
    status : Status;
    agentSuggestionId : option ObjectId }.
End Ticket.

(** ** backend/agent/llmProvider.js *)

Module LlmProvider.
Import Js.

Record heuristic : Type := { cat : Category; words : list string }.

Definition heuristics : list heuristic :=
  [ {| cat := billing;
       words := ["refund"; "invoice"; "charge"; "payment"; "card"; "billing"] |};
    {| cat := tech;
       words := ["error"; "bug"; "stack"; "500"; "crash"; "login"; "auth"; "timeout"] |};
    {| cat := shipping;
       words := ["delivery"; "shipment"; "tracking"; "package"; "courier"; "delayed"] |} ].

(** The argument of [classify] as the pipeline types it: a string, or
    [null] / [undefined].  The values of other types a caller can pass are
    those of [arg] below. *)
Inductive text_arg : Type :=
| Undefined
| Null
| Str (s : string).

(** [text || ''] *)
Definition or_empty (text : text_arg) : string :=
  match text with
  | Str s => if truthy_string s then s else ""
  | _ => ""
  end.

Record best_t : Type := { b_cat : Category; b_score : nat }.

(** [h.words.reduce((a,w) => a + (t.includes(w) ? 1 : 0), 0)] *)
Definition hits (t : string) (h : heuristic) : nat :=
  fold_left (fun a w => a + (if includes t w then 1 else 0)) (words h) 0.

(** One turn of the loop over [heuristics]. *)
Definition step (t : string) (best : best_t) (h : heuristic) : best_t :=
  let n := hits t h in
  if b_score best <? n then {| b_cat := cat h; b_score := n |} else best.

Definition best_of (hs : list heuristic) (t : string) : best_t :=
  fold_left (step t) hs {| b_cat := other; b_score := 0 |}.

Record classification : Type :=
  { predictedCategory : Category; confidence : Q }.

Definition classify (text : text_arg) : classification :=
  let t := toLowerCase (or_empty text) in
  let best := best_of heuristics t in
  let confidence :=
    Qmin 1 (or_num (inject_Z (Z.of_nat (b_score best)) / 3) 0.4) in
  {| predictedCategory := b_cat best; confidence := toFixed2 confidence |}.






(** The hit count of a category: that of its entry in [heuristics], and
    [0] for a category without entry ([other]). *)
Definition same_cat (c : Category) (h : heuristic) : bool :=
  match c, cat h with
  | billing, billing | tech, tech | shipping, shipping | other, other => true
  | _, _ => false
  end.

Definition category_hits (t : string) (c : Category) : nat :=
  match List.find (same_cat c) heuristics with
  | Some h => hits t h
  | None => 0
  end.

(** Policy (a) of the specification, in its words: [min(1, hits/3)], with
    floor [0.4] when [hits] is [0], rounded to two decimals. *)
Definition policy_a (n : nat) : Q :=
  toFixed2 (if n =? 0 then 0.4 else Qmin 1 (inject_Z (Z.of_nat n) / 3)).

Record drafted : Type :=
  { draftReply : string; citations : list ObjectId }.

Definition nl : string := String (ascii_of_nat 10) EmptyString.

(** [draft(_text, articles)]; the first parameter is not read. *)
Definition draft (_text : string) (articles : list Article.t) : drafted :=
  let lines :=
    ["Thanks for reaching out. Here's what might help:"]
    ++ imap (fun i a => (showNat (i + 1) ++ ". " ++ Article.title a)%string) articles
    ++ [(nl ++ "If this doesn’t resolve it, reply and a human agent will assist.")%string] in
  let citations := map Article._id articles in
  {| draftReply := join nl lines; citations := citations |}.

End LlmProvider.

(** ** backend/services/kbSearch.js *)

Module KbSearch.
Import Js.

(** [regs.test(s)] where [regs] is the query with every regular
    expression metacharacter escaped, flag [i]: a case-insensitive
    search of the literal query. *)
Definition regs_test (q s : string) : bool :=
  includes (toLowerCase s) (toLowerCase q).

Definition is_published (a : Article.t) : bool :=
  match Article.status a with Article.published => true | _ => false end.

Definition tag_match (q : string) (tags : list string) : bool :=
  existsb (regs_test q) tags.

(** The filter of [Article.find]: published, and the title, the body or
    one of the tags matches. *)
Definition find_filter (q : string) (a : Article.t) : bool :=
  is_published a &&
  (regs_test q (Article.title a)
   || match Article.body a with Some b => regs_test q b | None => false end
   || match Article.tags a with Some ts => tag_match q ts | None => false end).

Record scored : Type := { article : Article.t; score : Q }.

Definition score_of (q : string) (a : Article.t) : scored :=
  let titleHit : Q := if regs_test q (Article.title a) then 2%Q else 0%Q in
  let tagHit : Q := if tag_match q (default [] (Article.tags a)) then 1%Q else 0%Q in
  let bodyHit : Q := if regs_test q (default "" (Article.body a)) then (1 # 2)%Q else 0%Q in
  {| article := a; score := (titleHit + tagHit + bodyHit)%Q |}.

(** The score [searchTop] computes for an article. *)
Definition article_score (q : string) (a : Article.t) : Q := score (score_of q a).

(** The comparator [(a,b) => b.score - a.score]. *)
Definition by_score_desc (a b : scored) : Q := (score b - score a)%Q.

(** [Article.find({status: 'published', $or: [...]}).lean()] over the
    article collection [coll], listed in the order the store returns its
    documents: the candidates of the ranking. *)
Definition results (coll : list Article.t) (q : string) : list Article.t :=
  List.filter (find_filter q) coll.

(** [searchTop(query, limit)] *)
Definition searchTop (coll : list Article.t) (query : string) (limit : Z)
  : list Article.t :=
  if negb (truthy_string query) || negb (truthy_string (trim query)) then []
  else
    let q := trim query in
    let scored := sort by_score_desc (map (score_of q) (results coll q)) in
    map article (slice0 scored limit).

End KbSearch.

(** ** The documents the pipeline writes *)

Inductive Decision : Type := auto_close | human.

Module AgentSuggestion.
Record ModelInfo : Type :=
  { provider : string;
    model : string;
    promptVersion : string;
    latencyMs : Z;
    stub : bool }.

(** The object handed to [AgentSuggestion.create]. *)
Record fields : Type :=
  { ticketId : ObjectId;
    predictedCategory : Category;
    articleIds : list ObjectId;
    draftReply : string;
    citations : list ObjectId;
    confidence : Q;
    autoClosed : bool;
    modelInfo : ModelInfo }.

(** The stored document: the fields and the identifier the store gave. *)
Record t : Type := { _id : ObjectId; doc : fields }.
End AgentSuggestion.

Module AuditLog.
(** The [meta] payloads the pipeline logs, one shape per action. *)
Inductive Meta : Type :=
| MetaPlan (steps : list string)
| MetaClassified (cls : LlmProvider.classification)
| MetaRetrieved (articleIds : list ObjectId)
| MetaDrafted (citations : list ObjectId) (latencyMs : Z)
| MetaDecision (autoClose threshold : Js.value) (confidence : Q)
               (decision : Decision)
| MetaSuggestion (suggestionId : ObjectId).

(** The object handed to [AuditLog.create] by [log]; [resourceType] is a
    field of the schema that [log] never sets. *)
Record t : Type :=
  { ticketId : ObjectId;
    traceId : string;
    actor : string;
    action : string;
    meta : Meta;
    timestamp : Z;
    resourceType : option string }.

(** The [enum] of [action] in backend/models/AuditLog.js. *)
Definition schema_actions : list string :=
  [ "TICKET_CREATED"; "TICKET_UPDATED"; "TICKET_STATUS_CHANGED";
    "TICKET_ASSIGNED"; "TICKET_REPLIED"; "TICKET_CLOSED"; "TICKET_REOPENED";
    "AGENT_TRIAGE_STARTED"; "AGENT_CLASSIFIED"; "KB_RETRIEVED";
    "DRAFT_GENERATED"; "AUTO_CLOSED"; "ASSIGNED_TO_HUMAN";
    "AGENT_WORKFLOW_COMPLETED"; "AGENT_WORKFLOW_FAILED";
    "KB_ARTICLE_CREATED"; "KB_ARTICLE_UPDATED"; "KB_ARTICLE_DELETED";
    "KB_ARTICLE_PUBLISHED"; "KB_ARTICLE_ARCHIVED";
    "USER_REGISTERED"; "USER_LOGGED_IN"; "USER_LOGGED_OUT";
    "USER_PROFILE_UPDATED"; "USER_ROLE_CHANGED";
    "SYSTEM_CONFIG_UPDATED"; "SYSTEM_BACKUP_CREATED"; "SYSTEM_MAINTENANCE";
    "SLA_BREACHED"; "SLA_WARNING" ].

Definition schema_actors : list string := ["system"; "agent"; "user"; "admin"].

Definition schema_resourceTypes : list string :=
  ["ticket"; "article"; "user"; "system"; "agent"].

(** The validators of [auditLogSchema]: [traceId], [actor], [action] and
    [resourceType] are required, the last three within their [enum]. *)
Definition schema_valid (e : t) : bool :=
  Js.truthy_string (traceId e)
  && bool_decide (actor e ∈ schema_actors)
  && bool_decide (action e ∈ schema_actions)
  && match resourceType e with
     | Some r => bool_decide (r ∈ schema_resourceTypes)
     | None => false
     end.
End AuditLog.

(** ** The triage service (exports.triageTicket) *)

Module TriageService.
Import Js.

(** What one run cannot decide by itself: the identifier that the call
    [uuid()] of line 39 returns in that run, the clock, the environment
    flag, and the answers of the store.  An [Env] describes a single run:
    [uuid()] gives a fresh identifier at every call, so two runs have two
    environments. *)
Record Env : Type :=
  { uuid : string;
    dateNow : nat -> Z;
    STUB : bool;
    newObjectId : nat -> ObjectId;
    configRejects : string -> bool;
    auditAccepts : AuditLog.t -> bool;
    suggestionAccepts : AgentSuggestion.fields -> bool;
    ticketAccepts : Ticket.t -> bool }.

(** The collections, and the number of clock readings so far. *)
Record World : Type :=
  { tickets : gmap ObjectId Ticket.t;
    articles : list Article.t;
    configs : gmap string Js.value;
    suggestions : list AgentSuggestion.t;
    auditLogs : list AuditLog.t;
    clockReads : nat }.

Inductive exn : Type :=
| Error (message : string)
| Rejected (collection : string).

Inductive outcome (A : Type) : Type :=
| Returned (a : A)
| Thrown (e : exn).
Arguments Returned {A} a.
Arguments Thrown {A} e.

(** An [async] computation: it returns or throws, and leaves a world. *)
Definition M (A : Type) : Type := World -> outcome A * World.

Definition ret {A : Type} (a : A) : M A := fun w => (Returned a, w).

Definition throw {A : Type} (e : exn) : M A := fun w => (Thrown e, w).

Definition bind {A B : Type} (m : M A) (k : A -> M B) : M B :=
  fun w =>
    match m w with
    | (Returned a, w') => k a w'
    | (Thrown e, w') => (Thrown e, w')
    end.

Notation "x <- m ;; k" := (bind m (fun x => k))
  (at level 100, m at next level, right associativity).
Notation "m ;;; k" := (bind m (fun _ => k))
  (at level 100, right associativity).

(** [p.catch(() => null)] *)
Definition catch_null {A : Type} (m : M (option A)) : M (option A) :=
  fun w =>
    match m w with
    | (Thrown _, w') => (Returned None, w')
    | r => r
    end.

Record Options : Type := { opt_traceId : option string }.

Record Result : Type :=
  { traceId : string; suggestionId : ObjectId; decision : Decision }.

(** The test of line 60:
    [(autoClose && cls.confidence >= threshold) ? 'auto_close' : 'human'] *)
Definition decide (autoClose threshold : Js.value) (confidence : Q) : Decision :=
  if truthy autoClose && ge confidence threshold then auto_close else human.

Definition is_auto_close (d : Decision) : bool :=
  match d with auto_close => true | human => false end.

(** The trace identifier of a run: [options.traceId || uuid()]. *)
Definition trace_of (uuid : string) (options : Options) : string :=
  match opt_traceId options with
  | Some s => if truthy_string s then s else uuid
  | None => uuid
  end.

(** The text [triageTicket] classifies:
    [`${ticket.title}\n\n${ticket.description}`]. *)
Definition classified_text (ticket : Ticket.t) : LlmProvider.text_arg :=
  LlmProvider.Str (Ticket.title ticket ++ LlmProvider.nl
                   ++ LlmProvider.nl ++ Ticket.description ticket).

Section Run.
Variable env : Env.

(** [Date.now()] and [new Date()] *)
Definition Date_now : M Z :=
  fun w =>
    (Returned (dateNow env (clockReads w)),
     {| tickets := tickets w; articles := articles w; configs := configs w;
        suggestions := suggestions w; auditLogs := auditLogs w;
        clockReads := S (clockReads w) |}).

Definition AuditLog_create (e : AuditLog.t) : M unit :=
  fun w =>
    if auditAccepts env e then
      (Returned tt,
       {| tickets := tickets w; articles := articles w; configs := configs w;
          suggestions := suggestions w; auditLogs := auditLogs w ++ [e];
          clockReads := clockReads w |})
    else (Thrown (Rejected "AuditLog"), w).

Definition AgentSuggestion_create (f : AgentSuggestion.fields)
  : M AgentSuggestion.t :=
  fun w =>
    if suggestionAccepts env f then
      let s := {| AgentSuggestion._id := newObjectId env (length (suggestions w));
                  AgentSuggestion.doc := f |} in
      (Returned s,
       {| tickets := tickets w; articles := articles w; configs := configs w;
          suggestions := suggestions w ++ [s]; auditLogs := auditLogs w;
          clockReads := clockReads w |})
    else (Thrown (Rejected "AgentSuggestion"), w).

Definition Ticket_findById (id : ObjectId) : M (option Ticket.t) :=
  fun w => (Returned (tickets w !! id), w).

(** [ticket.save()]: the paths of [ticketSchema] are written.  The schema
    declares no path [agentSuggestionId] (its reference to a suggestion is
    [agentSuggestion]), so the property that line 76 sets on the document
    is not among them: the stored ticket keeps what the store had. *)
Definition Ticket_save (t : Ticket.t) : M unit :=
  fun w =>
    if ticketAccepts env t then
      (Returned tt,
       {| tickets :=
            <[Ticket._id t :=
                {| Ticket._id := Ticket._id t;
                   Ticket.title := Ticket.title t;
                   Ticket.description := Ticket.description t;
                   Ticket.category := Ticket.category t;
                   Ticket.status := Ticket.status t;
                   Ticket.agentSuggestionId :=
                     tickets w !! Ticket._id t ≫= Ticket.agentSuggestionId |}]>
              (tickets w);
          articles := articles w;
          configs := configs w; suggestions := suggestions w;
          auditLogs := auditLogs w; clockReads := clockReads w |})
    else (Thrown (Rejected "Ticket"), w).

(** [Config.getByKey(key)]: the value of the entry, if there is one. *)
Definition Config_getByKey (key : string) : M (option Js.value) :=
  fun w =>
    if configRejects env key then (Thrown (Rejected "Config"), w)
    else (Returned (configs w !! key), w).

Definition kbSearch_searchTop (query : string) (limit : Z) : M (list Article.t) :=
  fun w => (Returned (KbSearch.searchTop (articles w) query limit), w).

Definition log (ticketId : ObjectId) (traceId : string) (action : string)
           (meta : AuditLog.Meta) : M unit :=
  now <- Date_now ;;
  AuditLog_create
    {| AuditLog.ticketId := ticketId; AuditLog.traceId := traceId;
       AuditLog.actor := "system"; AuditLog.action := action;
       AuditLog.meta := meta; AuditLog.timestamp := now;
       AuditLog.resourceType := None |}.

Definition getFlag (key : string) (fallback : Js.value) : M Js.value :=
  cfg <- catch_null (Config_getByKey key) ;;
  ret (match cfg with Some value => value | None => fallback end).

Definition triageTicket (ticketId : ObjectId) (options : Options) : M Result :=
  let traceId := trace_of (uuid env) options in
  found <- Ticket_findById ticketId ;;
  match found with
  | None => throw (Error "Ticket not found")
  | Some ticket =>
      let id := Ticket._id ticket in
      log id traceId "AGENT_PLAN"
          (AuditLog.MetaPlan ["classify"; "retrieve"; "draft"; "decision"]) ;;;
      let cls := LlmProvider.classify (classified_text ticket) in
      log id traceId "AGENT_CLASSIFIED" (AuditLog.MetaClassified cls) ;;;
      let query :=
        if truthy_string (Ticket.description ticket)
        then Ticket.description ticket else Ticket.title ticket in
      articles <- kbSearch_searchTop query 3 ;;
      log id traceId "KB_RETRIEVED"
          (AuditLog.MetaRetrieved (map Article._id articles)) ;;;
      t1 <- Date_now ;;
      let drafted := LlmProvider.draft query articles in
      t2 <- Date_now ;;
      let latencyMs := (t2 - t1)%Z in
      log id traceId "DRAFT_GENERATED"
          (AuditLog.MetaDrafted (LlmProvider.citations drafted) latencyMs) ;;;
      autoClose <- getFlag "autoCloseEnabled" (JBool true) ;;
      threshold <- getFlag "confidenceThreshold" (JNum 0.78) ;;
      let decision := decide autoClose threshold (LlmProvider.confidence cls) in
      log id traceId "DECISION_MADE"
          (AuditLog.MetaDecision autoClose threshold
                                 (LlmProvider.confidence cls) decision) ;;;
      suggestion <-
        AgentSuggestion_create
          {| AgentSuggestion.ticketId := id;
             AgentSuggestion.predictedCategory := LlmProvider.predictedCategory cls;
             AgentSuggestion.articleIds := map Article._id articles;
             AgentSuggestion.draftReply := LlmProvider.draftReply drafted;
             AgentSuggestion.citations := LlmProvider.citations drafted;
             AgentSuggestion.confidence := LlmProvider.confidence cls;
             AgentSuggestion.autoClosed := is_auto_close decision;
             AgentSuggestion.modelInfo :=
               {| AgentSuggestion.provider := "stub";
                  AgentSuggestion.model := "heuristic-1";
                  AgentSuggestion.promptVersion := "v1";
                  AgentSuggestion.latencyMs := latencyMs;
                  AgentSuggestion.stub := STUB env |} |} ;;
      Ticket_save
        {| Ticket._id := id;
           Ticket.title := Ticket.title ticket;
           Ticket.description := Ticket.description ticket;
           Ticket.category := LlmProvider.predictedCategory cls;
           Ticket.status :=
             if is_auto_close decision then Ticket.resolved
             else Ticket.waiting_human;
           Ticket.agentSuggestionId := Some (AgentSuggestion._id suggestion) |} ;;;
      log id traceId
          (if is_auto_close decision then "AUTO_CLOSED" else "ASSIGNED_TO_HUMAN")
          (AuditLog.MetaSuggestion (AgentSuggestion._id suggestion)) ;;;
      ret {| traceId := traceId;
             suggestionId := AgentSuggestion._id suggestion;
             decision := decision |}
  end.
End Run.

(** The value [getFlag] resolves for [key] against the entries [c]: the
    fallback when the lookup rejects or finds no entry. *)
Definition resolve (env : Env) (c : gmap string Js.value)
           (key : string) (fallback : Js.value) : Js.value :=
  if configRejects env key then fallback else default fallback (c !! key).

(** The world with the config collection replaced by [c]. *)
Definition with_configs (c : gmap string Js.value) (w : World) : World :=
  {| tickets := tickets w; articles := articles w; configs := c;
     suggestions := suggestions w; auditLogs := auditLogs w;
     clockReads := clockReads w |}.

End TriageService.

(** ** AgentService (the class-based service): stubClassify, makeDecision *)

Module AgentService.
Import Js.

(** [stubClassify]: the keyword patterns, in the order [Object.entries]
    lists them. *)
Definition patterns : list (Category * list string) :=
  [ (billing, ["refund"; "invoice"; "charge"; "payment"; "billing"; "cost";
               "price"; "fee"; "subscription"; "plan"]);
    (tech, ["error"; "bug"; "crash"; "stack"; "exception"; "code";
            "programming"; "software"; "app"; "website"; "login"; "api"]);
    (shipping, ["delivery"; "shipment"; "package"; "tracking"; "shipping";
                "order"; "arrival"; "postal"; "courier"; "logistics"]) ].

(** [score / keywords.length] *)
Definition normalizedScore (text : string) (keywords : list string) : Q :=
  inject_Z (Z.of_nat (length (List.filter (includes text) keywords)))
  / inject_Z (Z.of_nat (length keywords)).

Definition gt (x y : Q) : bool :=
  match Qcompare x y with Gt => true | _ => false end.

Definition stub_step (text : string) (best : Category * Q)
           (p : Category * list string) : Category * Q :=
  let n := normalizedScore text (snd p) in
  if gt n (snd best) then (fst p, n) else best.

(** [stubClassify(ticketData)]: the category and the confidence
    [Math.max(0.6, Math.min(0.95, bestScore + 0.6))]. *)
Definition stubClassify (title description : string) : Category * Q :=
  let text := toLowerCase (title ++ " " ++ description) in
  let best := fold_left (stub_step text) patterns (other, 0%Q) in
  (fst best, Qmax 0.6 (Qmin 0.95 (snd best + 0.6))).

(** [config.autoCloseEnabled || false] *)
Definition autoCloseEnabled_of (config : gmap string Js.value) : Js.value :=
  match config !! "autoCloseEnabled" with
  | Some v => if truthy v then v else JBool false
  | None => JBool false
  end.

(** [config.confidenceThreshold || 0.78] *)
Definition confidenceThreshold_of (config : gmap string Js.value) : Js.value :=
  match config !! "confidenceThreshold" with
  | Some v => if truthy v then v else JNum 0.78
  | None => JNum 0.78
  end.

(** The test of lines 473-474:
    [autoCloseEnabled && agentSuggestion.confidence >= confidenceThreshold] *)
Definition shouldAutoClose (autoCloseEnabled confidenceThreshold : Js.value)
           (confidence : Q) : bool :=
  truthy autoCloseEnabled && ge confidence confidenceThreshold.

(** [makeDecision]: the [autoClosed] field of its result, for the object
    [config] that [Config.getAllAsObject()] returned and the confidence
    of the suggestion (the [reason] text and the logger calls are left
    out). *)
Definition makeDecision (config : gmap string Js.value) (confidence : Q) : bool :=
  let autoCloseEnabled := autoCloseEnabled_of config in
  let confidenceThreshold := confidenceThreshold_of config in
  shouldAutoClose autoCloseEnabled confidenceThreshold confidence.

(** The object [Config.getAllAsObject()] returns when the collection
    holds the two flags. *)
Definition config_of (enabled : bool) (t : Q) : gmap string Js.value :=
  <["autoCloseEnabled" := JBool enabled]> {["confidenceThreshold" := JNum t]}.

End AgentService.

(** ** A concrete scenario: one ticket, four articles, and two stores.
    [env] answers as a store without validators does, it accepts every
    write; [strict_env] has the audit store of the sources, which applies
    the validators of backend/models/AuditLog.js *)

Module Scenario.
Import Js TriageService.

Definition env : Env :=
  {| uuid := "3f0c6f5e-trace";
     dateNow := fun n => (1700000000000 + Z.of_nat n)%Z;
     STUB := true;
     newObjectId := fun n => 100 + n;
     configRejects := fun _ => false;
     auditAccepts := fun _ => true;
     suggestionAccepts := fun _ => true;
     ticketAccepts := fun _ => true |}.

Definition ticket : Ticket.t :=
  {| Ticket._id := 7;
     Ticket.title := "Refund needed";
     Ticket.description := "I was charged twice, please refund";
     Ticket.category := other;
     Ticket.status := Ticket.open;
     Ticket.agentSuggestionId := None |}.

Definition article (id : ObjectId) (title body : string) (tags : list string)
  : Article.t :=
  {| Article._id := id; Article.title := title; Article.body := Some body;
     Article.tags := Some tags; Article.status := Article.published;
     Article.category := billing |}.

Definition kb : list Article.t :=
  [ article 1 "Payment methods" "How to ask for a refund" ["billing"];
    article 2 "Refund policy" "Refunds take five days" ["refund"];
    article 3 "Refund of a double charge" "I was charged twice, please refund" [];
    article 4 "Getting a refund" "Ask support for a refund" ["refund"] ].

Definition world : World :=
  {| tickets := {[ 7 := ticket ]};
     articles := kb;
     configs := {[ "confidenceThreshold" := JNum 0.5 ]};
     suggestions := [];
     auditLogs := [];
     clockReads := 0 |}.

Definition options : Options := {| opt_traceId := None |}.

(** The environment of the sources: the audit store applies the
    validators of backend/models/AuditLog.js. *)
Definition strict_env : Env :=
  {| uuid := uuid env; dateNow := dateNow env; STUB := STUB env;
     newObjectId := newObjectId env; configRejects := configRejects env;
     auditAccepts := AuditLog.schema_valid;
     suggestionAccepts := suggestionAccepts env;
     ticketAccepts := ticketAccepts env |}.
End Scenario.

(** ** The schema of AgentSuggestion (src/backend/models/AuditLog.js,
    second part): its validators *)

Module AgentSuggestionSchema.
Import AgentSuggestion.

(** [agentSuggestionSchema]: [draftReply] is a required string (the empty
    string does not pass [required]), [confidence] a required number with
    [min: 0] and [max: 1]; [ticketId] and [predictedCategory] are required
    too, and every value of their types passes. *)
Definition schema_valid (f : fields) : bool :=
  Js.truthy_string (draftReply f)
  && Qle_bool 0 (confidence f) && Qle_bool (confidence f) 1.

End AgentSuggestionSchema.

(** ** The rate limiter [rateLimit] (src/unnamed/part_004) *)

Module RateLimit.
Import Js.

(** The options [{ windowMs = 60000, max = 120 } = {}]. *)
Record Options : Type := { opt_windowMs : option Z; opt_max : option Z }.

Definition windowMs (o : Options) : Z := default 60000%Z (opt_windowMs o).
Definition max (o : Options) : Z := default 120%Z (opt_max o).

(** What the handler does with the request. *)
Inductive Outcome : Type :=
| next               (* next() *)
| too_many.          (* res.status(429).json({ error: 'Too many requests' }) *)

(** [req.ip || 'global'] *)
Definition key_of (ip : option string) : string :=
  match ip with
  | Some s => if truthy_string s then s else "global"
  | None => "global"
  end.

(** The handler [rateLimit(options)], for a request from [ip] at the time
    [now] ([Date.now()]), on the module-level map [BUCKET]. *)
Definition rateLimit (o : Options) (now : Z) (ip : option string)
           (BUCKET : gmap string (list Z)) : Outcome * gmap string (list Z) :=
  let key := key_of ip in
  let hits :=
    List.filter (fun t => (now - t <? windowMs o)%Z) (default [] (BUCKET !! key)) in
  let hits := hits ++ [now] in
  let BUCKET := <[key := hits]> BUCKET in
  if (max o <? Z.of_nat (length hits))%Z then (too_many, BUCKET)
  else (next, BUCKET).

(** The handler on the requests [(now, ip)] of a list, one after the
    other. *)
Fixpoint serve (o : Options) (requests : list (Z * option string))
         (BUCKET : gmap string (list Z)) : list Outcome * gmap string (list Z) :=
  match requests with
  | [] => ([], BUCKET)
  | (now, ip) :: rest =>
      let '(r, BUCKET) := rateLimit o now ip BUCKET in
      let '(rs, BUCKET) := serve o rest BUCKET in
      (r :: rs, BUCKET)
  end.

End RateLimit.

(** ** backend/models/User.js (hasPermission), the authentication
    middleware (requireRole, requireTicketAccess; src/unnamed/part_004)
    and the access test of [GET /api/tickets/:id] in
    backend/routes/tickets.js *)

(** Reads of a plain object ([{...}]): its own properties, then those of
    [Object.prototype]. *)
Module JsObject.

(** The properties of [Object.prototype] (ECMAScript, Annex B included):
    the accessor [__proto__] and eleven functions. *)
Definition prototype_keys : list string :=
  [ "constructor"; "hasOwnProperty"; "isPrototypeOf"; "propertyIsEnumerable";
    "toLocaleString"; "toString"; "valueOf";
    "__defineGetter__"; "__defineSetter__";
    "__lookupGetter__"; "__lookupSetter__"; "__proto__" ].

(** What the read [obj[k]] gives. *)
Inductive Read (V : Type) : Type :=
| Own (v : V)             (* the value of the object's own property *)
| Inherited (k : string)  (* the member [k] of Object.prototype *)
| Undefined.
Arguments Own {V} v.
Arguments Inherited {V} k.
Arguments Undefined {V}.

(** [obj[k]] for the object with the own properties [own]. *)
Definition get {V : Type} (own : gmap string V) (k : string) : Read V :=
  match own !! k with
  | Some v => Own v
  | None => if bool_decide (k ∈ prototype_keys) then Inherited k else Undefined
  end.

(** The string a member of [Object.prototype] is converted to when it is
    compared: [Object.prototype] itself for [__proto__], and the source
    text of a built-in function, as Node prints it, for the others
    ([constructor] is the function [Object]). *)
Definition primitive (k : string) : string :=
  if String.eqb k "__proto__" then "[object Object]"
  else "function " ++ (if String.eqb k "constructor" then "Object" else k)
       ++ "() { [native code] }".

(** [a >= b] for two reads of an object whose own values are numbers.
    Two numbers compare as numbers; two members of [Object.prototype]
    compare as their strings do, by code units; in every other case one
    side converts to [NaN] ([undefined], or a string that is no numeral
    against a number) and the comparison is [false]. *)
Definition ge (a b : Read nat) : bool :=
  match a, b with
  | Own x, Own y => y <=? x
  | Inherited j, Inherited k => negb (String.ltb (primitive j) (primitive k))
  | _, _ => false
  end.

End JsObject.

Module User.

Record t : Type := { _id : ObjectId; role : string; isActive : bool }.

(** The object literal [roleHierarchy]. *)
Definition roleHierarchy : gmap string nat :=
  {[ "user" := 1; "agent" := 2; "admin" := 3 ]}.

(** [roleHierarchy[this.role] >= roleHierarchy[requiredRole]] *)
Definition hasPermission (u : t) (requiredRole : string) : bool :=
  JsObject.ge (JsObject.get roleHierarchy (role u))
              (JsObject.get roleHierarchy requiredRole).

(** The roles the schema admits ([enum]). *)
Definition schema_roles : list string := ["admin"; "agent"; "user"].

End User.

Module Auth.

Inductive Response : Type :=
| next
| status (code : nat).

(** [requireRole(requiredRole)] *)
Definition requireRole (requiredRole : string) (req_user : option User.t) : Response :=
  match req_user with
  | None => status 401
  | Some user =>
      if negb (User.hasPermission user requiredRole) then status 403 else next
  end.

Definition requireAdmin := requireRole "admin".
Definition requireAgent := requireRole "agent".

(** What [Ticket.findById(ticketId)] answers: it throws (an identifier
    that cannot be cast), finds nothing, or finds a ticket, of which the
    tests read [createdBy]. *)
Inductive Lookup : Type :=
| Throws
| NotFound
| Found (createdBy : ObjectId).

(** [requireTicketAccess]; [param_id] and [param_ticketId] are
    [req.params.id] and [req.params.ticketId]. *)
Definition requireTicketAccess (req_user : option User.t)
           (param_id param_ticketId : option string)
           (findById : string -> Lookup) : Response :=
  match req_user with
  | None => status 401
  | Some user =>
      let ticketId :=
        match param_id with
        | Some s => if Js.truthy_string s then Some s else param_ticketId
        | None => param_ticketId
        end in
      match ticketId with
      | None => status 400
      | Some s =>
          if negb (Js.truthy_string s) then status 400
          else
            match findById s with
            | Throws => status 500
            | NotFound => status 404
            | Found createdBy =>
                if User.hasPermission user "agent" then next
                else if createdBy =? User._id user then next
                else status 403
            end
      end
  end.

(** The handler of [GET /api/tickets/:id] after [authenticateToken]:
    the status of its response ([None] when [findById] throws and the
    handler sends none). *)
Definition getTicketById (user : User.t) (id : string) (isValidObjectId : bool)
           (findById : string -> Lookup) : option nat :=
  if negb isValidObjectId then Some 400
  else
    match findById id with
    | Throws => None
    | NotFound => Some 404
    | Found createdBy =>
        if String.eqb (User.role user) "user" && negb (createdBy =? User._id user)
        then Some 403 else Some 200
    end.

End Auth.

(** ** The Config model (src/unnamed/part_003) and the bulk update of
    the config routes (src/backend/routes/tickets.js, second part) *)

Module Config.
Import Js.

(** The [validation] subdocument; [None] is [undefined]. *)
Record Validation : Type :=
  { v_min : option Q;
    v_max : option Q;
    v_pattern : option string;
    v_enum : list Js.value }.

Record Metadata : Type :=
  { lastModifiedBy : option ObjectId;
    changeReason : option string;
    version : option string }.

(** A config entry; the values modelled are those of [Js.value]. *)
Record t : Type :=
  { key : string;
    value : Js.value;
    type : string;
    validation : Validation;
    metadata : Metadata }.

(** [Array.isArray(v) ? 'array' : typeof v] *)
Definition actualType (v : Js.value) : string :=
  match v with
  | JBool _ => "boolean"
  | JNum _ => "number"
  end.

(** [v < m] and [v > m] for a number [m]: [v] is converted to a number. *)
Definition value_lt (v : Js.value) (m : Q) : bool := negb (Qle_bool m (toNumber v)).
Definition value_gt (v : Js.value) (m : Q) : bool := negb (Qle_bool (toNumber v) m).

(** [enum.includes(v)] compares with SameValueZero. *)
Definition same_value (a b : Js.value) : bool :=
  match a, b with
  | JBool x, JBool y => Bool.eqb x y
  | JNum x, JNum y => Qeq_bool x y
  | _, _ => false
  end.

Definition enum_includes (l : list Js.value) (v : Js.value) : bool :=
  existsb (fun x => same_value x v) l.

Inductive ValidationError : Type :=
| type_mismatch
| below_minimum
| above_maximum
| pattern_mismatch
| invalid_pattern
| not_in_enum.

Inductive exn : Type :=
| KeyNotFound            (* Error(`Config key '${key}' not found`) *)
| Invalid (e : ValidationError)
| SaveRejected.          (* the store rejects the write *)

Section Model.
(** [new RegExp(pattern).test(v)]; [None] when the pattern is not a
    regular expression and the constructor throws. *)
Variable RegExp_test : string -> Js.value -> option bool.
(** [Config.incrementVersion(version)] *)
Variable incrementVersion : option string -> option string.
(** What the store answers to the write of [config.save()]. *)
Variable storeAccepts : t -> bool.

(** [validation.min !== undefined && v < validation.min], and the like
    for [max]. *)
Definition below (v : Js.value) (min : option Q) : bool :=
  match min with Some m => value_lt v m | None => false end.

Definition above (v : Js.value) (max : option Q) : bool :=
  match max with Some m => value_gt v m | None => false end.

(** The test of the pattern, when there is one (a non-empty string). *)
Definition pattern_error (pattern : option string) (v : Js.value)
  : option ValidationError :=
  match pattern with
  | Some p =>
      if truthy_string p then
        match RegExp_test p v with
        | Some true => None
        | Some false => Some pattern_mismatch
        | None => Some invalid_pattern
        end
      else None
  | None => None
  end.

(** The checks shared by [validateValue] and the [pre('save')] hook, on
    the value [v] against the type and the validation of an entry, in
    the order of the source. *)
Definition check (type : string) (validation : Validation) (v : Js.value)
  : option ValidationError :=
  if negb (String.eqb (actualType v) type) then Some type_mismatch
  else if below v (v_min validation) then Some below_minimum
  else if above v (v_max validation) then Some above_maximum
  else
    match pattern_error (v_pattern validation) v with
    | Some e => Some e
    | None =>
        if negb (length (v_enum validation) =? 0)
           && negb (enum_includes (v_enum validation) v)
        then Some not_in_enum else None
    end.

(** [config.validateValue(newValue)]: [None] is [{ valid: true }]. *)
Definition validateValue (config : t) (newValue : Js.value)
  : option ValidationError :=
  check (type config) (validation config) newValue.

(** The [pre('save')] hook: [None] is [next()]. *)
Definition preSave (config : t) : option ValidationError :=
  check (type config) (validation config) (value config).

(** [Config.findOne({ key })]: the first entry with the key, and its
    place in the collection. *)
Fixpoint findOne_from (i : nat) (coll : list t) (k : string) : option (nat * t) :=
  match coll with
  | [] => None
  | c :: rest =>
      if String.eqb (key c) k then Some (i, c) else findOne_from (S i) rest k
  end.

Definition findOne (coll : list t) (k : string) : option (nat * t) :=
  findOne_from 0 coll k.

(** [Config.getByKey(key)] *)
Definition getByKey (coll : list t) (k : string) : option t :=
  snd <$> findOne coll k.

(** [Config.setValue(key, value, userId, reason)]: what it returns or
    throws, and the collection it leaves. *)
Definition setValue (coll : list t) (k : string) (v : Js.value)
           (userId : option ObjectId) (reason : option string)
  : (exn + (t * Js.value)) * list t :=
  match findOne coll k with
  | None => (inl KeyNotFound, coll)
  | Some (i, config) =>
      match validateValue config v with
      | Some e => (inl (Invalid e), coll)
      | None =>
          let oldValue := value config in
          let config' :=
            {| key := key config; value := v; type := type config;
               validation := validation config;
               metadata :=
                 {| lastModifiedBy := userId; changeReason := reason;
                    version := incrementVersion (version (metadata config)) |} |} in
          match preSave config' with
          | Some e => (inl (Invalid e), coll)
          | None =>
              if storeAccepts config'
              then (inr (config', oldValue), <[i := config']> coll)
              else (inl SaveRejected, coll)
          end
      end
  end.

(** [Config.getAllAsObject()]: the own properties of the object that
    [reduce] fills; an assignment to [acc['__proto__']] of a boolean or a
    number leaves the object as it is.  A read of the object is
    [JsObject.get]: a key without own property is looked up in
    [Object.prototype]. *)
Definition getAllAsObject (coll : list t) : gmap string Js.value :=
  fold_left (fun acc cfg =>
               if String.eqb (key cfg) "__proto__" then acc
               else <[key cfg := value cfg]> acc)
            coll ∅.

(** [POST /api/config/bulk-update]: the loop over [updates]. *)
Record Update : Type := { u_key : string; u_value : Js.value }.

Record Done : Type := { d_key : string; oldValue : Js.value; newValue : Js.value }.
Record Failed : Type := { f_key : string; error : exn }.

Definition bulk_step (userId : option ObjectId) (reason : option string)
           (st : list Done * list Failed * list t) (u : Update)
  : list Done * list Failed * list t :=
  let '(results, failed, coll) := st in
  match setValue coll (u_key u) (u_value u) userId
                 (Some (match reason with
                        | Some r => if truthy_string r then r else "Bulk update"
                        | None => "Bulk update"
                        end)) with
  | (inr (config, old), coll') =>
      (results ++ [{| d_key := u_key u; oldValue := old; newValue := value config |}],
       failed, coll')
  | (inl e, coll') =>
      (results, failed ++ [{| f_key := u_key u; error := e |}], coll')
  end.

Definition bulkUpdate (coll : list t) (updates : list Update)
           (userId : option ObjectId) (reason : option string)
  : list Done * list Failed * list t :=
  fold_left (bulk_step userId reason) updates ([], [], coll).

End Model.
End Config.

(** ** AgentService: the retrieval helpers (calculateRelevance,
    generateSnippet) and the excerpt of backend/models/Article.js *)

Module AgentRetrieval.
Import Js.

(** [s.split(/\s+/)]: the pieces between the runs of white space; a run
    at the start or at the end of [s] gives an empty piece there, and the
    empty string gives one empty piece. [cur] is the piece being read,
    [sep] tells that the last character was white space. *)
Fixpoint split_go (s cur : string) (sep : bool) : list string :=
  match s with
  | EmptyString => [cur]
  | String c s' =>
      if is_ws c then
        if sep then split_go s' EmptyString true
        else cur :: split_go s' EmptyString true
      else split_go s' (cur ++ String c EmptyString) false
  end.

Definition split_ws (s : string) : list string := split_go s EmptyString false.

(** The virtual [excerpt] of an article. *)
Definition excerpt (body : string) : string :=
  if String.length body <=? 150 then body
  else substring 0 150 body ++ "...".

(** The score of the window of [generateSnippet] that starts at [i]. *)
Definition window_score (searchWords : list string) (body : string) (i : nat) : nat :=
  let snippet := toLowerCase (substring i 150 body) in
  length (List.filter (fun word => includes snippet word) searchWords).

(** The values of [i] in [for (let i = 0; i < n; i += 10)]. *)
Definition starts (n : nat) : list nat :=
  map (fun k => 10 * k) (seq 0 ((n + 9) / 10)).

Definition snippet_step (searchWords : list string) (body : string)
           (best : nat * nat) (i : nat) : nat * nat :=
  let score := window_score searchWords body i in
  if snd best <? score then (i, score) else best.

(** [generateSnippet(body, searchText)]; [fst best] is [bestStart] and
    [snd best] is [bestScore]. *)
Definition generateSnippet (body searchText : string) : string :=
  let maxLength := 150 in
  if String.length body <=? maxLength then body
  else
    let searchWords :=
      List.filter (fun word => 3 <? String.length word)
                  (split_ws (toLowerCase searchText)) in
    let best :=
      fold_left (snippet_step searchWords body)
                (starts (String.length body - maxLength)) (0, 0) in
    substring (fst best) maxLength body ++ "...".

(** What one word of the search text adds to the score of
    [calculateRelevance]. *)
Definition word_score (articleText title : string) (tags : list string)
           (word : string) : Q :=
  if String.length word <? 3 then 0
  else
    (if includes articleText word then 1 else 0)
    + (if includes (toLowerCase title) word then 0.5 else 0)
    + (if existsb (fun tag => includes (toLowerCase tag) word) tags then 0.3 else 0).

(** [calculateRelevance(searchText, article)] for an article with the
    given title, body and tags. *)
Definition calculateRelevance (searchText : string)
           (title body : string) (tags : list string) : Q :=
  let searchWords := split_ws (toLowerCase searchText) in
  let articleText :=
    toLowerCase (title ++ " " ++ body ++ " " ++ join " " tags) in
  let totalWords := length searchWords in
  let score :=
    fold_left (fun score word =>
                 (score + word_score articleText title tags word)%Q)
              searchWords 0%Q in
  Qmin 1 (score / inject_Z (Z.of_nat totalWords)).

End AgentRetrieval.

(** ** backend/models/Article.js: the virtual [slug] *)

Module ArticleSlug.
Import Js.

(** The characters [/[^a-z0-9 -]/g] leaves. *)
Definition kept (c : ascii) : bool :=
  let n := nat_of_ascii c in
  ((97 <=? n) && (n <=? 122)) || ((48 <=? n) && (n <=? 57))
  || (n =? 32) || (n =? 45).

(** [s.replace(/[^a-z0-9 -]/g, '')] *)
Fixpoint remove_others (s : string) : string :=
  match s with
  | EmptyString => EmptyString
  | String c s' => if kept c then String c (remove_others s') else remove_others s'
  end.

Definition hyphen : ascii := ascii_of_nat 45.

Definition is_hyphen (c : ascii) : bool := nat_of_ascii c =? 45.

(** [s.replace(/X+/g, '-')] for a class [X] of characters: every
    maximal run of characters of the class becomes one hyphen; [run]
    tells that the last character read was of the class. *)
Fixpoint replace_runs (X : ascii -> bool) (s : string) (run : bool) : string :=
  match s with
  | EmptyString => EmptyString
  | String c s' =>
      if X c then
        if run then replace_runs X s' true
        else String hyphen (replace_runs X s' true)
      else String c (replace_runs X s' false)
  end.

(** The virtual [slug]. *)
Definition slug (title : string) : string :=
  trim (replace_runs is_hyphen
          (replace_runs is_ws (remove_others (toLowerCase title)) false) false).

(** Every character of [s] passes [P]. *)
Fixpoint every (P : ascii -> bool) (s : string) : bool :=
  match s with
  | EmptyString => true
  | String c s' => P c && every P s'
  end.

(** A lower-case letter, a digit or the hyphen. *)
Definition slug_char (c : ascii) : bool :=
  let n := nat_of_ascii c in
  ((97 <=? n) && (n <=? 122)) || ((48 <=? n) && (n <=? 57)) || (n =? 45).

(** No hyphen follows a hyphen in [s], nor starts [s] when [run] holds. *)
Fixpoint single_hyphens (s : string) (run : bool) : bool :=
  match s with
  | EmptyString => true
  | String c s' =>
      if is_hyphen c then negb run && single_hyphens s' true
      else single_hyphens s' false
  end.

End ArticleSlug.

(** ** The Ticket model (src/backend/routes/tickets.js, third part): the
    views of the SLA *)

Module TicketSla.

(** [sla.responseDeadline] and [sla.resolutionDeadline], in milliseconds;
    [None] is a deadline that is not set. *)
Record Sla : Type :=
  { responseDeadline : option Z;
    resolutionDeadline : option Z }.

Inductive SlaStatus : Type :=
| not_set
| resolution_breached
| response_breached
| within_sla.

(** The virtual [slaStatus], read at the time [now]. *)
Definition slaStatus (sla : Sla) (now : Z) : SlaStatus :=
  match responseDeadline sla, resolutionDeadline sla with
  | Some response, Some resolution =>
      if (resolution <? now)%Z then resolution_breached
      else if (response <? now)%Z then response_breached
      else within_sla
  | _, _ => not_set
  end.

(** [ticket.isSLABreached()] *)
Definition isSLABreached (sla : Sla) (now : Z) : bool :=
  match responseDeadline sla, resolutionDeadline sla with
  | Some response, Some resolution =>
      (response <? now)%Z || (resolution <? now)%Z
  | _, _ => false
  end.

(** The query condition [{ $lt: now }] on a deadline: a document without
    the field does not match. *)
Definition lt_now (deadline : option Z) (now : Z) : bool :=
  match deadline with
  | Some t => (t <? now)%Z
  | None => false
  end.

(** The filter of [Ticket.findSLABreached()]. *)
Definition findSLABreached (status : Ticket.Status) (sla : Sla) (now : Z) : bool :=
  (lt_now (responseDeadline sla) now || lt_now (resolutionDeadline sla) now)
  && negb match status with
          | Ticket.resolved | Ticket.closed => true
          | _ => false
          end.

(** The filter of [Ticket.findNeedingAttention()]. *)
Definition findNeedingAttention (status : Ticket.Status) (sla : Sla) (now : Z) : bool :=
  match status with
  | Ticket.open | Ticket.triaged => true
  | Ticket.waiting_human => lt_now (responseDeadline sla) now
  | _ => false
  end.

End TicketSla.

(** ** The knowledge-base route [GET /api/kb] (src/unnamed/part_000) *)

Module KbRoute.
Import Js KbSearch.

Section Route.
(** The order in which the store lists documents for
    [sort({ updatedAt: -1 })]. *)
Variable sortByUpdatedAt : list Article.t -> list Article.t.

(** The [items] of the response, for the parameter [req.query.query]
    ([None] when it is absent). *)
Definition items (coll : list Article.t) (query : option string) : list Article.t :=
  let q := trim (match query with
                 | Some s => if truthy_string s then s else ""
                 | None => ""
                 end) in
  if negb (truthy_string q)
  then take 20 (sortByUpdatedAt (List.filter is_published coll))
  else take 20 (List.filter (find_filter q) coll).
End Route.

End KbRoute.

(** ** backend/routes/tickets.js: [POST /api/tickets] against the
    schema of the Ticket model *)

Module TicketCreate.
Import Js.

(** The fields of [req.body] the handler reads; [None] is a field that
    is absent. *)
Record Body : Type :=
  { title : option string;
    description : option string;
    category : option string }.

Definition categories : list string := ["billing"; "tech"; "shipping"; "other"].

(** The sanitizer [trim()] of the validation chain: an absent field is
    taken as the empty string. *)
Definition sanitized (field : option string) : string := trim (default "" field).

(** [validationResult(req).isEmpty()] for the chains
    [body('title').trim().isLength({ min: 3 })],
    [body('description').trim().isLength({ min: 5 })] and
    [body('category').optional().isIn([...])]. *)
Definition validation_passes (b : Body) : bool :=
  (3 <=? String.length (sanitized (title b)))
  && (5 <=? String.length (sanitized (description b)))
  && match category b with
     | Some c => bool_decide (c ∈ categories)
     | None => true
     end.

(** The validators of [ticketSchema] on the document of [Ticket.create]:
    [title] (trimmed by the schema) and [description] are required and
    bounded in length, [category] is one of the [enum];
    [attachments_valid] tells whether every attachment passes its
    validator. *)
Definition schema_accepts (title description category : string)
           (attachments_valid : bool) : bool :=
  (5 <=? String.length (trim title)) && (String.length (trim title) <=? 200)
  && (10 <=? String.length description) && (String.length description <=? 5000)
  && bool_decide (category ∈ categories)
  && attachments_valid.

Inductive Outcome : Type :=
| bad_request                       (* res.status(400) *)
| create_rejects                    (* Ticket.create rejects *)
| created (title description category : string).

(** The handler up to [Ticket.create]. *)
Definition create (b : Body) (attachments_valid : bool) : Outcome :=
  if negb (validation_passes b) then bad_request
  else
    let title := sanitized (title b) in
    let description := sanitized (description b) in
    let category :=
      match category b with
      | Some c => if truthy_string c then c else "other"
      | None => "other"
      end in
    if schema_accepts title description category attachments_valid
    then created (trim title) description category
    else create_rejects.

End TicketCreate.

(** ** Sample data for the models above *)

Module Samples.
Import Js.

(** A config collection with the two flags of the decision, the
    threshold with the validation of [initializeDefaults]. *)
Definition no_validation : Config.Validation :=
  {| Config.v_min := None; Config.v_max := None;
     Config.v_pattern := None; Config.v_enum := [] |}.

Definition first_version : Config.Metadata :=
  {| Config.lastModifiedBy := None; Config.changeReason := None;
     Config.version := Some "1.0.0" |}.

Definition configs : list Config.t :=
  [ {| Config.key := "autoCloseEnabled"; Config.value := JBool true;
       Config.type := "boolean"; Config.validation := no_validation;
       Config.metadata := first_version |};
    {| Config.key := "confidenceThreshold"; Config.value := JNum 0.78;
       Config.type := "number";
       Config.validation :=
         {| Config.v_min := Some 0%Q; Config.v_max := Some 1%Q;
            Config.v_pattern := None; Config.v_enum := [] |};
       Config.metadata := first_version |} ].

(** No entry of [configs] has a pattern: the regular expressions are not
    called. *)
Definition RegExp_test (pattern : string) (v : Js.value) : option bool := None.

Definition incrementVersion (version : option string) : option string :=
  Some "1.0.1".

Definition storeAccepts (c : Config.t) : bool := true.

Definition customer : User.t :=
  {| User._id := 41; User.role := "user"; User.isActive := true |}.

(** The ticket ["t1"] belongs to the user 40. *)
Definition findById (id : string) : Auth.Lookup :=
  if String.eqb id "t1" then Auth.Found 40 else Auth.NotFound.

End Samples.

(** * Properties *)

(** ** The keyword classifier *)

Section Classifier.
Import Js LlmProvider.

Lemma hits_from a t ws :
  fold_left (fun a w => a + (if includes t w then 1 else 0)) ws a
  = a + length (List.filter (includes t) ws).
Proof.
  revert a. induction ws as [|w ws IH]; intros a; simpl.
  - lia.
  - rewrite IH. destruct (includes t w); simpl; lia.
Qed.

(** A keyword adds one to the count when it occurs, however often. *)
Lemma hits_filter t h : hits t h = length (List.filter (includes t) (words h)).
Proof. unfold hits. now rewrite hits_from. Qed.

Lemma hits_le_words t h : hits t h <= length (words h).
Proof.
  rewrite hits_filter. induction (words h) as [|w ws IH]; simpl; [lia|].
  destruct (includes t w); simpl; lia.
Qed.

(** The loop keeps the first entry with the largest count above the
    initial score. *)
Lemma fold_step_spec t hs best0 :
  (fold_left (step t) hs best0 = best0
   /\ forall h, h ∈ hs -> hits t h <= b_score best0)
  \/ (exists i h,
        hs !! i = Some h
        /\ fold_left (step t) hs best0 = {| b_cat := cat h; b_score := hits t h |}
        /\ b_score best0 < hits t h
        /\ (forall h', h' ∈ hs -> hits t h' <= hits t h)
        /\ (forall j h', j < i -> hs !! j = Some h' -> hits t h' < hits t h)).
Proof.
  revert best0. induction hs as [|h0 hs IH]; intros best0; simpl.
  - left. split; [reflexivity|]. intros h Hh. inversion Hh.
  - destruct (Nat.ltb_spec (b_score best0) (hits t h0)) as [Hlt|Hge].
    + assert (Hs : step t best0 h0 = {| b_cat := cat h0; b_score := hits t h0 |}).
      { unfold step. apply Nat.ltb_lt in Hlt. now rewrite Hlt. }
      rewrite Hs. right.
      destruct (IH {| b_cat := cat h0; b_score := hits t h0 |})
        as [[Heq Hall]|(i & h & Hi & Heq & Hgt & Hmax & Hfirst)]; simpl in *.
      * exists 0, h0. split_and!.
        -- reflexivity.
        -- exact Heq.
        -- exact Hlt.
        -- intros h' Hh'. apply elem_of_cons in Hh' as [->|Hh']; auto.
        -- intros j h' Hj. lia.
      * exists (S i), h. split_and!.
        -- exact Hi.
        -- exact Heq.
        -- lia.
        -- intros h' Hh'. apply elem_of_cons in Hh' as [->|Hh']; auto. lia.
        -- intros [|j] h' Hj Hl; simpl in Hl.
           ++ inversion Hl; subst. exact Hgt.
           ++ apply (Hfirst j); [lia|exact Hl].
    + assert (Hs : step t best0 h0 = best0).
      { unfold step. apply Nat.ltb_ge in Hge. now rewrite Hge. }
      rewrite Hs.
      destruct (IH best0)
        as [[Heq Hall]|(i & h & Hi & Heq & Hgt & Hmax & Hfirst)].
      * left. split; [exact Heq|].
        intros h' Hh'. apply elem_of_cons in Hh' as [->|Hh']; auto.
      * right. exists (S i), h. split_and!.
        -- exact Hi.
        -- exact Heq.
        -- exact Hgt.
        -- intros h' Hh'. apply elem_of_cons in Hh' as [->|Hh']; auto. lia.
        -- intros [|j] h' Hj Hl; simpl in Hl.
           ++ inversion Hl; subst. lia.
           ++ apply (Hfirst j); [lia|exact Hl].
Qed.

Lemma best_of_spec t :
  (best_of heuristics t = {| b_cat := other; b_score := 0 |}
   /\ forall h, h ∈ heuristics -> hits t h = 0)
  \/ (exists i h,
        heuristics !! i = Some h
        /\ best_of heuristics t = {| b_cat := cat h; b_score := hits t h |}
        /\ 0 < hits t h
        /\ (forall h', h' ∈ heuristics -> hits t h' <= hits t h)
        /\ (forall j h', j < i -> heuristics !! j = Some h' -> hits t h' < hits t h)).
Proof.
  unfold best_of.
  destruct (fold_step_spec t heuristics {| b_cat := other; b_score := 0 |})
    as [[Heq Hall]|H]; [left|right; exact H].
  split; [exact Heq|]. intros h Hh. specialize (Hall h Hh). simpl in Hall. lia.
Qed.

Lemma heuristics_cat_not_other i h : heuristics !! i = Some h -> cat h <> other.
Proof.
  destruct i as [|[|[|i]]]; simpl; intros H; inversion H; subst; discriminate.
Qed.

Lemma category_hits_entry t i h :
  heuristics !! i = Some h -> category_hits t (cat h) = hits t h.
Proof.
  destruct i as [|[|[|i]]]; simpl; intros H; inversion H; subst; reflexivity.
Qed.

Lemma category_hits_other t : category_hits t other = 0.
Proof. reflexivity. Qed.

(** The score the loop ends with is the hit count of the category it
    ends with. *)
Lemma best_of_score t :
  b_score (best_of heuristics t) = category_hits t (b_cat (best_of heuristics t)).
Proof.
  destruct (best_of_spec t) as [[Heq _]|(i & h & Hi & Heq & _)];
    rewrite Heq; simpl.
  - reflexivity.
  - symmetry. eapply category_hits_entry; eauto.
Qed.

(** [toFixed2] rounds to the nearest hundredth. *)
Lemma toFixed2_nearest (x : Q) :
  (exists n : Z, toFixed2 x == n # 100)%Q
  /\ (toFixed2 x - (1 # 200) <= x)%Q
  /\ (x < toFixed2 x + (1 # 200))%Q.
Proof.
  unfold toFixed2.
  set (n := Qfloor (x * 100 + (1 # 2))).
  assert (Hn : (n # 100 == inject_Z n * (1 # 100))%Q).
  { unfold Qeq, Qmult, inject_Z. simpl. lia. }
  pose proof (Qfloor_le (x * 100 + (1 # 2))) as Hle.
  pose proof (Qlt_floor (x * 100 + (1 # 2))) as Hlt.
  fold n in Hle, Hlt. rewrite inject_Z_plus in Hlt.
  change (inject_Z 1) with 1%Q in Hlt.
  split_and!.
  - exists n. apply Qred_correct.
  - rewrite Qred_correct, Hn. lra.
  - rewrite Qred_correct, Hn. lra.
Qed.

Lemma or_num_thirds (n : nat) :
  Qmin 1 (or_num (inject_Z (Z.of_nat n) / 3) 0.4)
  = if n =? 0 then 0.4%Q else Qmin 1 (inject_Z (Z.of_nat n) / 3).
Proof.
  destruct n as [|n]; [reflexivity|].
  replace (S n =? 0) with false by reflexivity.
  unfold or_num.
  replace (Qeq_bool (inject_Z (Z.of_nat (S n)) / 3) 0) with false; [reflexivity|].
  symmetry. apply not_true_is_false. intros H. apply Qeq_bool_eq in H.
  unfold Qeq in H. simpl in H. lia.
Qed.

Lemma classify_confidence text :
  confidence (classify text)
  = policy_a (b_score (best_of heuristics (toLowerCase (or_empty text)))).
Proof. unfold classify, policy_a. simpl. now rewrite or_num_thirds. Qed.

Lemma Qmin_one_thirds (n : nat) : 3 <= n -> Qmin 1 (inject_Z (Z.of_nat n) / 3) = 1%Q.
Proof.
  intros Hn. unfold Qmin, GenericMinMax.gmin.
  destruct (Qcompare 1 (inject_Z (Z.of_nat n) / 3)) eqn:Hc; try reflexivity.
  exfalso. rewrite <- Qgt_alt in Hc. unfold Qlt in Hc. simpl in Hc. lia.
Qed.

(** The four values [policy_a] takes ([2 # 5] is [0.4] in lowest terms). *)
Lemma policy_a_values (n : nat) :
  policy_a n = (if n =? 0 then 2 # 5 else if n =? 1 then 0.33
                else if n =? 2 then 0.67 else 1)%Q.
Proof.
  destruct n as [|[|[|m]]]; try reflexivity.
  unfold policy_a. change (S (S (S m)) =? 0) with false. cbv iota.
  rewrite (Qmin_one_thirds (S (S (S m)))) by lia. reflexivity.
Qed.

Lemma policy_a_range (n : nat) : (0 <= policy_a n)%Q /\ (policy_a n <= 1)%Q.
Proof.
  rewrite policy_a_values.
  destruct n as [|[|[|m]]]; simpl; split; unfold Qle; simpl; lia.
Qed.

Lemma classify_confidence_range text :
  (0 <= confidence (classify text))%Q /\ (confidence (classify text) <= 1)%Q.
Proof. rewrite classify_confidence. apply policy_a_range. Qed.

End Classifier.

Section ClassifierClaims.
Import Js LlmProvider.

(** C3. The classifier of the triage pipeline follows policy (a): the
    confidence is [min(1, hits/3)], with floor 0.4 when [hits] is 0,
    rounded to two decimals, where [hits] is the keyword hit count of the
    category it returns; and "I need a refund for my payment" is
    classified [billing] with a confidence above 0.5 (it is 0.67). *)
Theorem classify_confidence_is_policy_a (text : text_arg) :
  let t := toLowerCase (or_empty text) in
  let r := classify text in
  confidence r = policy_a (category_hits t (predictedCategory r))
  /\ classify (Str "I need a refund for my payment")
     = {| predictedCategory := billing; confidence := 0.67 |}
  /\ (0.5 < confidence (classify (Str "I need a refund for my payment")))%Q.
Proof.
  cbv zeta. split; [|split].
  - rewrite classify_confidence. unfold classify. simpl predictedCategory.
    now rewrite best_of_score.
  - vm_compute. reflexivity.
  - vm_compute. reflexivity.
Qed.

(** C4. [classify] returns the category with the highest keyword hit
    count, the count of a category being the number of its (distinct)
    keywords that occur in the text, however often each occurs; among
    categories with the same count the first declared wins (billing,
    then tech, then shipping); the result is [other] exactly when no
    category has a hit. *)
Theorem classify_selects_first_max (text : text_arg) :
  let t := toLowerCase (or_empty text) in
  let c := predictedCategory (classify text) in
  map cat heuristics = [billing; tech; shipping]
  /\ Forall (fun h => NoDup (words h)) heuristics
  /\ (forall h, hits t h = length (List.filter (includes t) (words h)))
  /\ (c = other <-> forall h, h ∈ heuristics -> hits t h = 0)
  /\ (c = other
      \/ exists i h,
           heuristics !! i = Some h /\ c = cat h /\ 0 < hits t h
           /\ (forall h', h' ∈ heuristics -> hits t h' <= hits t h)
           /\ (forall j h', j < i -> heuristics !! j = Some h' ->
                            hits t h' < hits t h)).
Proof.
  cbv zeta. split_and!.
  - reflexivity.
  - repeat (constructor; [apply (bool_decide_unpack _); vm_compute; exact I|]).
    constructor.
  - intros h. apply hits_filter.
  - unfold classify. simpl predictedCategory.
    destruct (best_of_spec (toLowerCase (or_empty text)))
      as [[Heq Hall]|(i & h & Hi & Heq & Hpos & Hmax & Hfirst)]; rewrite Heq; simpl.
    + split; auto.
    + split.
      * intros Hc. exfalso. eapply heuristics_cat_not_other; eauto.
      * intros Hall. assert (hits (toLowerCase (or_empty text)) h = 0); [|lia].
        apply Hall. eapply list_elem_of_lookup_2; eauto.
  - unfold classify. simpl predictedCategory.
    destruct (best_of_spec (toLowerCase (or_empty text)))
      as [[Heq Hall]|(i & h & Hi & Heq & Hpos & Hmax & Hfirst)]; rewrite Heq; simpl.
    + now left.
    + right. exists i, h. split_and!; auto.
Qed.



(** C10. [draft] does not read its query text: two query texts give the
    same reply and the same citations, and the citations are the
    identifiers of the articles in their order. *)
Theorem draft_ignores_query_text (q1 q2 : string) (articles : list Article.t) :
  draftReply (draft q1 articles) = draftReply (draft q2 articles)
  /\ citations (draft q1 articles) = citations (draft q2 articles)
  /\ citations (draft q1 articles) = map Article._id articles.
Proof. split_and!; reflexivity. Qed.

(** A repeated keyword counts once; billing wins a tie with tech. *)
Example classify_repetition_and_tie :
  hits "refund refund refund" {| cat := billing; words := ["refund"] |} = 1
  /\ classify (Str "Refund error")
     = {| predictedCategory := billing; confidence := 0.33 |}
  /\ classify (Str "error, then a crash, and no refund")
     = {| predictedCategory := tech; confidence := 0.67 |}.
Proof. split_and!; vm_compute; reflexivity. Qed.

End ClassifierClaims.

(** ** The decision *)

Section Decision.
Import Js TriageService.

Lemma decide_auto_close autoClose threshold c :
  decide autoClose threshold c = auto_close
  <-> truthy autoClose = true /\ (toNumber threshold <= c)%Q.
Proof.
  unfold decide, ge. rewrite <- Qle_bool_iff.
  destruct (truthy autoClose), (Qle_bool (toNumber threshold) c); simpl;
    split; try tauto; try discriminate; intros [? ?]; discriminate.
Qed.

Lemma decide_human autoClose threshold c :
  decide autoClose threshold c = human
  <-> decide autoClose threshold c <> auto_close.
Proof. destruct (decide autoClose threshold c); split; congruence. Qed.

(** The decision of the pipeline (X1). With the flag
    [enabled] and the threshold [t], the decision is to close exactly when
    [enabled] holds and [t <= c]; the comparison is inclusive, a disabled
    flag never closes, and the decision is either [auto_close] or [human],
    never both.  The test of [AgentService.makeDecision] on the two flags
    it has resolved is the same. *)
Theorem decide_enabled_and_threshold (c t : Q) (enabled : bool) :
  let d := decide (JBool enabled) (JNum t) c in
  (d = auto_close <-> enabled = true /\ (t <= c)%Q)
  /\ is_auto_close d = enabled && Qle_bool t c
  /\ decide (JBool true) (JNum c) c = auto_close
  /\ decide (JBool false) (JNum t) c = human
  /\ (d = human <-> d <> auto_close)
  /\ AgentService.shouldAutoClose (JBool enabled) (JNum t) c = is_auto_close d.
Proof.
  cbv zeta. split_and!.
  - apply decide_auto_close.
  - unfold decide, ge. simpl. now destruct enabled, (Qle_bool t c).
  - apply decide_auto_close. split; [reflexivity|apply Qle_refl].
  - reflexivity.
  - apply decide_human.
  - unfold AgentService.shouldAutoClose, decide.
    now destruct (truthy (JBool enabled) && ge c (JNum t)).
Qed.



(** The confidences [makeDecision] receives from [stubClassify]: 0.6 for a
    text without keyword, 0.95 at most. *)
Example stubClassify_values :
  fst (AgentService.stubClassify "Hello" "I have a general question") = other
  /\ (snd (AgentService.stubClassify "Hello" "I have a general question") == 0.6)%Q
  /\ fst (AgentService.stubClassify "Refund" "charge, invoice and payment of my plan")
     = billing
  /\ (snd (AgentService.stubClassify "Refund" "charge, invoice and payment of my plan")
      == 0.95)%Q.
Proof. split_and!; vm_compute; reflexivity. Qed.

(** C1, where the code departs from it. [AgentService.makeDecision] reads
    the threshold as [config.confidenceThreshold || 0.78], which takes a
    stored threshold 0 for a missing one.  With the flag enabled, the
    threshold 0 and the confidence 0.6 (what [stubClassify] gives a text
    without keyword) the decision of the claim is to close ([0 <= 0.6]),
    and [decide] of the pipeline closes; [makeDecision] compares with 0.78
    and does not. *)
Lemma makeDecision_zero_threshold :
  AgentService.confidenceThreshold_of (AgentService.config_of true 0) = JNum 0.78
  /\ AgentService.makeDecision (AgentService.config_of true 0) 0.6 = false
  /\ AgentService.makeDecision
       (AgentService.config_of true 0)
       (snd (AgentService.stubClassify "Hello" "I have a general question"))
     = false
  /\ true && Qle_bool 0 0.6 = true
  /\ decide (JBool true) (JNum 0) 0.6 = auto_close.
Proof. split_and!; vm_compute; reflexivity. Qed.

(** C5, where the code departs from it. [AgentService.makeDecision] reads
    the flag as [config.autoCloseEnabled || false]: without an
    [autoCloseEnabled] entry it takes the flag for disabled and never
    closes, where the fallback of the claim, [true], closes at the
    confidence 0.95 against the threshold 0.78, as [getFlag] and [decide]
    of the pipeline do. *)
Lemma makeDecision_absent_flag :
  AgentService.autoCloseEnabled_of {["confidenceThreshold" := JNum 0.78]} = JBool false
  /\ AgentService.makeDecision {["confidenceThreshold" := JNum 0.78]} 0.95 = false
  /\ AgentService.makeDecision ∅ 0.95 = false
  /\ resolve Scenario.env {["confidenceThreshold" := JNum 0.78]}
             "autoCloseEnabled" (JBool true) = JBool true
  /\ decide (JBool true) (JNum 0.78) 0.95 = auto_close.
Proof. split_and!; vm_compute; reflexivity. Qed.

End Decision.

(** ** Sorting with a comparator that subtracts keys *)

Section SortFacts.
Import Js.
Context {A : Type} (key : A -> Q).

Lemma negative_lt q : negative q = true <-> (q < 0)%Q.
Proof.
  unfold negative. rewrite Qlt_alt.
  destruct (Qcompare q 0); split; congruence.
Qed.

Lemma negative_desc y x : negative (desc key y x) = true <-> (key x < key y)%Q.
Proof.
  rewrite negative_lt. unfold desc. split; intros H; lra.
Qed.

Lemma not_negative_desc y x : negative (desc key y x) = false <-> (key y <= key x)%Q.
Proof.
  split; intros H.
  - apply Qnot_lt_le. intros Hlt. apply negative_desc in Hlt. congruence.
  - apply not_true_is_false. intros Hn. apply negative_desc in Hn.
    now apply Qlt_not_le in Hn.
Qed.

Lemma insert_sorted_perm x l : insert_sorted (desc key) x l ≡ₚ x :: l.
Proof.
  induction l as [|y l IH]; simpl; [reflexivity|].
  destruct (negative (desc key y x)); [|reflexivity].
  rewrite IH. apply perm_swap.
Qed.

Lemma sort_perm l : sort (desc key) l ≡ₚ l.
Proof.
  induction l as [|x l IH]; simpl; [reflexivity|].
  rewrite insert_sorted_perm. now rewrite IH.
Qed.

Lemma insert_sorted_sorted x l :
  StronglySorted (descending key) l -> StronglySorted (descending key) (insert_sorted (desc key) x l).
Proof.
  induction 1 as [|y l Hs IH Hy]; simpl.
  - repeat constructor.
  - destruct (negative (desc key y x)) eqn:Hn.
    + constructor; [exact IH|].
      rewrite insert_sorted_perm. constructor; [|exact Hy].
      apply negative_desc in Hn. now apply Qlt_le_weak.
    + apply not_negative_desc in Hn.
      constructor; [now constructor|].
      constructor; [exact Hn|].
      eapply Forall_impl; [exact Hy|].
      intros z Hz. unfold descending in *. eapply Qle_trans; eauto.
Qed.

Lemma sort_sorted l : StronglySorted (descending key) (sort (desc key) l).
Proof.
  induction l as [|x l IH]; simpl; [constructor|].
  now apply insert_sorted_sorted.
Qed.

(** Stability: elements with one key keep their order. *)
Lemma insert_sorted_stable s x l :
  List.filter (has_key key s) (insert_sorted (desc key) x l) = List.filter (has_key key s) (x :: l).
Proof.
  induction l as [|y l IH]; [reflexivity|].
  simpl insert_sorted. destruct (negative (desc key y x)) eqn:Hn; [|reflexivity].
  simpl. simpl in IH. rewrite IH.
  destruct (has_key key s x) eqn:Hx, (has_key key s y) eqn:Hy; try reflexivity.
  exfalso. apply negative_desc in Hn.
  unfold has_key in *. apply Qeq_bool_eq in Hx, Hy.
  rewrite Hx, Hy in Hn. now apply Qlt_irrefl in Hn.
Qed.

Lemma sort_stable s l :
  List.filter (has_key key s) (sort (desc key) l) = List.filter (has_key key s) l.
Proof.
  induction l as [|x l IH]; [reflexivity|].
  simpl sort. rewrite insert_sorted_stable. simpl. now rewrite IH.
Qed.

Lemma filter_take_prefix (P : A -> bool) n l :
  List.filter P (take n l) `prefix_of` List.filter P l.
Proof.
  exists (List.filter P (drop n l)).
  now rewrite <- List.filter_app, take_drop.
Qed.

Lemma filter_cons_inv (P : A -> bool) l a v :
  List.filter P l = a :: v ->
  exists l1 l2,
    l = l1 ++ a :: l2 /\ List.filter P l1 = [] /\ P a = true /\ List.filter P l2 = v.
Proof.
  induction l as [|x l IH]; simpl; [discriminate|].
  destruct (P x) eqn:Hx.
  - intros H. inversion H; subst. now exists [], l.
  - intros H. destruct (IH H) as (l1 & l2 & -> & Hnil & Ha & Hv).
    exists (x :: l1), l2. simpl. now rewrite Hx.
Qed.

Lemma filter_app_inv (P : A -> bool) u : forall l v,
  List.filter P l = u ++ v ->
  exists l1 l2, l = l1 ++ l2 /\ List.filter P l1 = u /\ List.filter P l2 = v.
Proof.
  induction u as [|a u IH]; intros l v H.
  - now exists [], l.
  - destruct (filter_cons_inv P l a (u ++ v) H) as (l1 & l2 & -> & Hnil & Ha & H2).
    destruct (IH l2 v H2) as (l3 & l4 & -> & Hu & Hv).
    exists (l1 ++ a :: l3), l4. split_and!.
    + now rewrite <- (assoc_L (++)).
    + rewrite List.filter_app, Hnil. simpl. now rewrite Ha, Hu.
    + exact Hv.
Qed.

Lemma filter_app_two (P : A -> bool) l1 a l2 b l3 :
  P a = true -> P b = true ->
  List.filter P (l1 ++ a :: l2 ++ b :: l3)
  = List.filter P l1 ++ a :: List.filter P l2 ++ b :: List.filter P l3.
Proof.
  intros Ha Hb. rewrite List.filter_app. simpl. rewrite Ha.
  rewrite List.filter_app. simpl. now rewrite Hb.
Qed.

(** Elements that pass a filter in some order stand in that order in the
    list. *)
Lemma filter_order (P : A -> bool) l x1 a x2 b x3 :
  List.filter P l = x1 ++ a :: x2 ++ b :: x3 ->
  exists r1 r2 r3, l = r1 ++ a :: r2 ++ b :: r3.
Proof.
  intros H.
  destruct (filter_app_inv P x1 l _ H) as (l1 & l2 & -> & _ & H2).
  destruct (filter_cons_inv P l2 a _ H2) as (m1 & m2 & -> & _ & _ & H3).
  destruct (filter_app_inv P x2 m2 _ H3) as (n1 & n2 & -> & _ & H4).
  destruct (filter_cons_inv P n2 b _ H4) as (k1 & k2 & -> & _).
  exists (l1 ++ m1), (n1 ++ k1), k2.
  now rewrite <- !(assoc_L (++)).
Qed.

Lemma slice0_take (l : list A) e : exists k, slice0 l e = take k l.
Proof. unfold slice0. eauto. Qed.

Lemma slice0_length (l : list A) e :
  (0 <= e)%Z -> (Z.of_nat (length (slice0 l e)) <= e)%Z.
Proof.
  intros He. unfold slice0.
  destruct (Z.ltb_spec e 0) as [Hlt|_]; [lia|].
  rewrite length_take. lia.
Qed.
End SortFacts.

Section SortMap.
Import Js.
Context {A B : Type} (f : A -> B) (cmp : B -> B -> Q).

Lemma insert_sorted_map x l :
  insert_sorted cmp (f x) (map f l)
  = map f (insert_sorted (fun a b => cmp (f a) (f b)) x l).
Proof.
  induction l as [|y l IH]; simpl; [reflexivity|].
  destruct (negative (cmp (f y) (f x))); simpl; [now rewrite IH|reflexivity].
Qed.

Lemma sort_map l :
  sort cmp (map f l) = map f (sort (fun a b => cmp (f a) (f b)) l).
Proof.
  induction l as [|x l IH]; simpl; [reflexivity|].
  now rewrite IH, insert_sorted_map.
Qed.

Lemma slice0_map (l : list A) e : slice0 (map f l) e = map f (slice0 l e).
Proof. unfold slice0. rewrite length_map. apply firstn_map. Qed.
End SortMap.

(** ** The article ranker *)

Section Ranker.
Import Js KbSearch.

Lemma searchTop_unfold coll query limit :
  searchTop coll query limit
  = if negb (truthy_string query) || negb (truthy_string (trim query)) then []
    else slice0 (sort (desc (article_score (trim query)))
                      (results coll (trim query))) limit.
Proof.
  unfold searchTop.
  destruct (negb (truthy_string query) || negb (truthy_string (trim query)));
    [reflexivity|].
  cbv zeta. rewrite sort_map, slice0_map, map_map.
  change (fun x => article (score_of (trim query) x)) with (fun x : Article.t => x).
  now rewrite map_id.
Qed.

Lemma trimStart_whitespace_only s : whitespace_only s = true -> trimStart s = "".
Proof.
  induction s as [|c s IH]; simpl; [reflexivity|].
  intros H. apply andb_true_iff in H as [Hc Hs]. rewrite Hc. auto.
Qed.

Lemma trim_whitespace_only s : whitespace_only s = true -> trim s = "".
Proof. intros H. unfold trim. now rewrite trimStart_whitespace_only. Qed.

Lemma searchTop_blank coll query limit :
  whitespace_only query = true -> searchTop coll query limit = [].
Proof.
  intros H. unfold searchTop. rewrite (trim_whitespace_only _ H). simpl.
  now rewrite orb_true_r.
Qed.

Lemma searchTop_nonblank coll query limit :
  trim query <> "" ->
  searchTop coll query limit
  = slice0 (sort (desc (article_score (trim query)))
                 (results coll (trim query))) limit.
Proof.
  intros H. rewrite searchTop_unfold.
  destruct query as [|c s]; [now contradiction H|].
  destruct (trim (String c s)); [now contradiction H|reflexivity].
Qed.

Lemma searchTop_trim_empty coll query limit :
  trim query = "" -> searchTop coll query limit = [].
Proof.
  intros H. unfold searchTop. rewrite H. simpl. now rewrite orb_true_r.
Qed.

Lemma slice0_whole {A : Type} (l : list A) (e : Z) :
  (Z.of_nat (length l) <= e)%Z -> slice0 l e = l.
Proof.
  intros H. unfold slice0. destruct (Z.ltb_spec e 0); [lia|].
  apply take_ge. lia.
Qed.

(** C7. The ranker sorts the candidates by descending score, the score
    being 2 for a title match plus 1 for a tag match plus 0.5 for a body
    match, and the sort is stable.  For a query that is not blank the
    output is the ranking cut by the limit, where the ranking holds every
    candidate once (it is a permutation of the candidates), is in
    descending order of score, and has the candidates of each score in
    the order of the candidate list; with a limit at or above their number
    every candidate is returned.  So the output holds candidates only; for
    every score value the output's articles with that score are, in
    order, the first of the candidates with that score; and two articles
    of equal score that follow one another in the output follow one
    another in the same order among the candidates. *)
Theorem searchTop_sorted_stable
        (coll : list Article.t) (query : string) (limit : Z) :
  let q := trim query in
  let out := searchTop coll query limit in
  (q <> "" ->
   exists ranking,
     ranking ≡ₚ results coll q
     /\ StronglySorted (descending (article_score q)) ranking
     /\ (forall s,
            List.filter (has_key (article_score q) s) ranking
            = List.filter (has_key (article_score q) s) (results coll q))
     /\ out = slice0 ranking limit
     /\ ((Z.of_nat (length (results coll q)) <= limit)%Z -> out = ranking))
  /\ (q = "" -> out = [])
  /\ (forall a,
         article_score q a
         = ((if regs_test q (Article.title a) then 2 else 0)
            + (if tag_match q (default [] (Article.tags a)) then 1 else 0)
            + (if regs_test q (default "" (Article.body a)) then 1 # 2 else 0))%Q)
  /\ ((1 # 2) < 1)%Q /\ (1 < 2)%Q
  /\ StronglySorted (descending (article_score q)) out
  /\ (exists rest, out ++ rest ≡ₚ results coll q)
  /\ (forall s,
         List.filter (has_key (article_score q) s) out
         `prefix_of` List.filter (has_key (article_score q) s) (results coll q))
  /\ (forall l1 a l2 b l3,
         out = l1 ++ a :: l2 ++ b :: l3 ->
         (article_score q a == article_score q b)%Q ->
         exists r1 r2 r3, results coll q = r1 ++ a :: r2 ++ b :: r3).
Proof.
  cbv zeta.
  assert (Hstable : forall s,
             List.filter (has_key (article_score (trim query)) s)
                         (searchTop coll query limit)
             `prefix_of` List.filter (has_key (article_score (trim query)) s)
                                     (results coll (trim query))).
  { intros s. rewrite searchTop_unfold.
    destruct (negb (truthy_string query) || negb (truthy_string (trim query))).
    - apply prefix_nil.
    - destruct (slice0_take (sort (desc (article_score (trim query)))
                                  (results coll (trim query))) limit) as [k ->].
      rewrite <- (sort_stable (article_score (trim query)) s
                              (results coll (trim query))).
      apply filter_take_prefix. }
  split_and!; try reflexivity.
  - intros Hq.
    exists (sort (desc (article_score (trim query))) (results coll (trim query))).
    split_and!.
    + apply sort_perm.
    + apply sort_sorted.
    + intros s. apply sort_stable.
    + now apply searchTop_nonblank.
    + intros Hlen. rewrite (searchTop_nonblank _ _ _ Hq).
      apply slice0_whole.
      now rewrite (Permutation_length
                     (sort_perm (article_score (trim query))
                                (results coll (trim query)))).
  - apply searchTop_trim_empty.
  - rewrite searchTop_unfold.
    destruct (negb (truthy_string query) || negb (truthy_string (trim query)));
      [constructor|].
    destruct (slice0_take (sort (desc (article_score (trim query)))
                                (results coll (trim query))) limit) as [k ->].
    eapply StronglySorted_app_1_l. rewrite take_drop. apply sort_sorted.
  - rewrite searchTop_unfold.
    destruct (negb (truthy_string query) || negb (truthy_string (trim query))).
    + now exists (results coll (trim query)).
    + destruct (slice0_take (sort (desc (article_score (trim query)))
                                  (results coll (trim query))) limit) as [k ->].
      exists (drop k (sort (desc (article_score (trim query)))
                           (results coll (trim query)))).
      rewrite take_drop. apply sort_perm.
  - exact Hstable.
  - intros l1 a l2 b l3 Hout Heq.
    destruct (Hstable (article_score (trim query) a)) as [k Hk].
    rewrite Hout in Hk. rewrite filter_app_two in Hk.
    + rewrite <- !(assoc_L (++)) in Hk. simpl in Hk.
      rewrite <- !(assoc_L (++)) in Hk. simpl in Hk.
      eapply filter_order. exact Hk.
    + unfold has_key. apply Qeq_bool_iff. reflexivity.
    + unfold has_key. apply Qeq_bool_iff. now symmetry.
Qed.

(** C8. With a limit [n] (a count, [0 <= n]) the ranker returns at most
    [n] articles; whatever [n] is, it returns no article when the
    collection has no candidate, and none when the query is empty or
    holds white space only. *)
Theorem searchTop_at_most_limit
        (coll : list Article.t) (query : string) (n : Z) :
  ((0 <= n)%Z -> (Z.of_nat (length (searchTop coll query n)) <= n)%Z)
  /\ searchTop [] query n = []
  /\ (results coll (trim query) = [] -> searchTop coll query n = [])
  /\ searchTop coll "" n = []
  /\ (whitespace_only query = true -> searchTop coll query n = []).
Proof.
  assert (Hnone : forall c, results c (trim query) = [] -> searchTop c query n = []).
  { intros c Hc. rewrite searchTop_unfold, Hc.
    destruct (negb (truthy_string query) || negb (truthy_string (trim query)));
      [reflexivity|].
    simpl. unfold slice0. now rewrite take_nil. }
  split_and!.
  - intros Hn. rewrite searchTop_unfold.
    destruct (negb (truthy_string query) || negb (truthy_string (trim query)));
      [simpl; lia|].
    now apply slice0_length.
  - now apply Hnone.
  - apply Hnone.
  - reflexivity.
  - apply searchTop_blank.
Qed.

Lemma searchTop_at_most_limit_witness :
  (Z.of_nat (length (searchTop Scenario.kb "refund" 2)) <= 2)%Z
  /\ searchTop Scenario.kb "   " 2 = [].
Proof.
  split.
  - apply (proj1 (searchTop_at_most_limit Scenario.kb "refund" 2)). lia.
  - apply (proj2 (proj2 (proj2 (proj2
             (searchTop_at_most_limit Scenario.kb "   " 2))))).
    reflexivity.
Defined.

(** The ranking of the scenario: articles 2 and 4 both score 3.5 and keep
    their order. *)
Example searchTop_scenario :
  map Article._id (searchTop Scenario.kb "refund" 3) = [2; 4; 3]
  /\ map (article_score "refund") Scenario.kb = [1 # 2; 7 # 2; 5 # 2; 7 # 2]%Q.
Proof. split; vm_compute; reflexivity. Qed.

(** C8 as it is stated fails for a negative limit, which [slice] reads
    from the end of the ranking: with the limit [-1] the ranker returns
    three articles, all of the ranking but its last. *)
Example searchTop_negative_limit :
  map Article._id (searchTop Scenario.kb "refund" (-1)) = [2; 4; 3]
  /\ ~ (Z.of_nat (length (searchTop Scenario.kb "refund" (-1))) <= -1)%Z.
Proof. split; [vm_compute; reflexivity|]. vm_compute. intros H. now apply H. Qed.

End Ranker.

(** ** The triage pipeline *)

Section Pipeline.
Import Js TriageService.

(** Symbolic execution of a run: the monad and the store operations are
    unfolded, the answers of the store are split by cases. *)
Ltac run_in H :=
  cbv beta iota zeta delta
      [triageTicket bind ret throw log Date_now AuditLog_create
       AgentSuggestion_create Ticket_findById Ticket_save kbSearch_searchTop
       with_configs
       tickets articles configs suggestions auditLogs clockReads] in H.

Ltac run_goal :=
  cbv beta iota zeta delta
      [triageTicket bind ret throw log Date_now AuditLog_create
       AgentSuggestion_create Ticket_findById Ticket_save kbSearch_searchTop
       with_configs
       tickets articles configs suggestions auditLogs clockReads].

Lemma getFlag_resolve env key fallback w :
  getFlag env key fallback w = (Returned (resolve env (configs w) key fallback), w).
Proof.
  unfold getFlag, bind, catch_null, Config_getByKey, ret, resolve.
  destruct (configRejects env key); [reflexivity|].
  now destruct (configs w !! key).
Qed.

Ltac accepted_in H :=
  match type of H with
  | context [auditAccepts ?env ?e] =>
      destruct (auditAccepts env e) eqn:?; cbv beta iota in H; [|discriminate H]
  | context [suggestionAccepts ?env ?e] =>
      destruct (suggestionAccepts env e) eqn:?; cbv beta iota in H; [|discriminate H]
  | context [ticketAccepts ?env ?e] =>
      destruct (ticketAccepts env e) eqn:?; cbv beta iota in H; [|discriminate H]
  | context [getFlag _ _ _ _] =>
      rewrite getFlag_resolve in H; cbv beta iota delta [configs] in H
  end.

(** What a successful run leaves behind. *)
Lemma triage_returned env w id opts ticket r w' :
  tickets w !! id = Some ticket ->
  triageTicket env id opts w = (Returned r, w') ->
  let cls := LlmProvider.classify (classified_text ticket) in
  let d := decide (resolve env (configs w) "autoCloseEnabled" (JBool true))
                  (resolve env (configs w) "confidenceThreshold" (JNum 0.78))
                  (LlmProvider.confidence cls) in
  exists new s t',
    traceId r = trace_of (uuid env) opts
    /\ decision r = d
    /\ auditLogs w' = auditLogs w ++ new
    /\ map AuditLog.action new
       = [ "AGENT_PLAN"; "AGENT_CLASSIFIED"; "KB_RETRIEVED"; "DRAFT_GENERATED";
           "DECISION_MADE";
           if is_auto_close d then "AUTO_CLOSED" else "ASSIGNED_TO_HUMAN" ]
    /\ map AuditLog.traceId new = replicate 6 (traceId r)
    /\ suggestions w' = suggestions w ++ [s]
    /\ AgentSuggestion._id s = suggestionId r
    /\ AgentSuggestion.confidence (AgentSuggestion.doc s) = LlmProvider.confidence cls
    /\ AgentSuggestion.autoClosed (AgentSuggestion.doc s) = is_auto_close d
    /\ tickets w' = <[Ticket._id ticket := t']> (tickets w)
    /\ Ticket.status t'
       = (if is_auto_close d then Ticket.resolved else Ticket.waiting_human)
    /\ Ticket.category t' = LlmProvider.predictedCategory cls
    /\ configs w' = configs w /\ articles w' = articles w.
Proof.
  intros Ht Hrun. destruct w as [tk ar cf sg al ck]. simpl in Ht.
  run_in Hrun. rewrite Ht in Hrun. cbv beta iota in Hrun.
  repeat accepted_in Hrun.
  inversion Hrun; subst; clear Hrun. cbv zeta.
  eexists _, _, _. simpl.
  split_and!; try reflexivity.
  - rewrite <- !(assoc_L (++)). simpl. reflexivity.
  - reflexivity.
  - reflexivity.
Qed.

(** The stages of a run, for a store that accepts what the run writes.
    A run that returns on an existing ticket has appended exactly six
    audit entries, one per stage and in the order of the stages, all with
    the one trace identifier of the run; it has created exactly one
    suggestion, whose confidence lies in [0,1]; and the stored ticket is
    [resolved] when the run closed it and [waiting_human] otherwise.  The
    audit store of the sources accepts none of the entries [log] builds,
    so that no run on it returns (see the audit schema below). *)
Lemma triage_success_invariants env w id opts ticket r w' :
  tickets w !! id = Some ticket ->
  triageTicket env id opts w = (Returned r, w') ->
  exists new s t',
    auditLogs w' = auditLogs w ++ new
    /\ map AuditLog.action new
       = [ "AGENT_PLAN"; "AGENT_CLASSIFIED"; "KB_RETRIEVED"; "DRAFT_GENERATED";
           "DECISION_MADE";
           if is_auto_close (decision r) then "AUTO_CLOSED"
           else "ASSIGNED_TO_HUMAN" ]
    /\ length new = 6
    /\ Forall (fun e => AuditLog.traceId e = traceId r) new
    /\ traceId r = trace_of (uuid env) opts
    /\ (opt_traceId opts = None -> traceId r = uuid env)
    /\ suggestions w' = suggestions w ++ [s]
    /\ AgentSuggestion._id s = suggestionId r
    /\ (0 <= AgentSuggestion.confidence (AgentSuggestion.doc s))%Q
    /\ (AgentSuggestion.confidence (AgentSuggestion.doc s) <= 1)%Q
    /\ AgentSuggestion.autoClosed (AgentSuggestion.doc s) = is_auto_close (decision r)
    /\ tickets w' !! Ticket._id ticket = Some t'
    /\ Ticket.status t'
       = (if is_auto_close (decision r) then Ticket.resolved
          else Ticket.waiting_human).
Proof.
  intros Ht Hrun.
  destruct (triage_returned env w id opts ticket r w' Ht Hrun)
    as (new & s & t' & Htr & Hd & Hlog & Hact & Htrs & Hsug & Hid & Hconf
        & Hauto & Htk & Hst & _).
  exists new, s, t'. rewrite Hd. split_and!; auto.
  - apply (f_equal (@length _)) in Hact. now rewrite length_map in Hact.
  - apply Forall_forall. intros e He.
    assert (Hin : AuditLog.traceId e ∈ map AuditLog.traceId new).
    { apply list_elem_of_In. apply in_map. now apply list_elem_of_In. }
    rewrite Htrs in Hin. now apply elem_of_replicate in Hin as [-> _].
  - intros Hopt. rewrite Htr. unfold trace_of. now rewrite Hopt.
  - rewrite Hconf. apply classify_confidence_range.
  - rewrite Hconf. apply classify_confidence_range.
  - rewrite Htk. apply lookup_insert_eq.
Qed.

(** On the store without validators. *)
Lemma triage_success_invariants_witness :
  exists new s t',
    auditLogs (snd (triageTicket Scenario.env 7 Scenario.options Scenario.world))
    = auditLogs Scenario.world ++ new
    /\ map AuditLog.action new
       = [ "AGENT_PLAN"; "AGENT_CLASSIFIED"; "KB_RETRIEVED"; "DRAFT_GENERATED";
           "DECISION_MADE"; "AUTO_CLOSED" ]
    /\ length new = 6
    /\ Forall (fun e => AuditLog.traceId e = "3f0c6f5e-trace") new
    /\ "3f0c6f5e-trace" = trace_of (uuid Scenario.env) Scenario.options
    /\ (opt_traceId Scenario.options = None -> "3f0c6f5e-trace" = uuid Scenario.env)
    /\ suggestions (snd (triageTicket Scenario.env 7 Scenario.options Scenario.world))
       = suggestions Scenario.world ++ [s]
    /\ AgentSuggestion._id s = 100
    /\ (0 <= AgentSuggestion.confidence (AgentSuggestion.doc s))%Q
    /\ (AgentSuggestion.confidence (AgentSuggestion.doc s) <= 1)%Q
    /\ AgentSuggestion.autoClosed (AgentSuggestion.doc s) = true
    /\ tickets (snd (triageTicket Scenario.env 7 Scenario.options Scenario.world))
       !! 7 = Some t'
    /\ Ticket.status t' = Ticket.resolved.
Proof.
  apply (triage_success_invariants
           Scenario.env Scenario.world 7 Scenario.options Scenario.ticket
           {| traceId := "3f0c6f5e-trace"; suggestionId := 100;
              decision := auto_close |}
           (snd (triageTicket Scenario.env 7 Scenario.options Scenario.world))).
  - vm_compute. reflexivity.
  - vm_compute. reflexivity.
Defined.

(** A missing ticket (X4). For a ticket identifier that resolves to no
    ticket the run throws
    [Error('Ticket not found')] before any write: no suggestion is
    created, no ticket changes, and the audit log gets no entry; the world
    is left as it was. *)
Theorem triage_missing_ticket env w id opts :
  tickets w !! id = None ->
  triageTicket env id opts w = (Thrown (Error "Ticket not found"), w).
Proof.
  intros Hnone. unfold triageTicket, bind, Ticket_findById, throw.
  now rewrite Hnone.
Qed.

Lemma triage_missing_ticket_witness :
  triageTicket Scenario.env 8 Scenario.options Scenario.world
  = (Thrown (Error "Ticket not found"), Scenario.world).
Proof.
  apply (triage_missing_ticket Scenario.env Scenario.world 8 Scenario.options).
  vm_compute. reflexivity.
Defined.

(** C6, where the code departs from it. The ticket 8 does not exist and
    the audit store accepts every entry: the run throws
    [Error('Ticket not found')] and leaves the audit log without any
    entry, so without the failure entry of the claim ([triageTicket] has
    no handler; the one of [AgentService.triageTicket] writes
    AGENT_WORKFLOW_FAILED). *)
Lemma triage_missing_ticket_not_audited :
  let run := triageTicket Scenario.env 8 Scenario.options Scenario.world in
  tickets Scenario.world !! 8 = None
  /\ (forall e, auditAccepts Scenario.env e = true)
  /\ fst run = Thrown (Error "Ticket not found")
  /\ auditLogs (snd run) = []
  /\ ~ (exists e, e ∈ auditLogs (snd run)).
Proof.
  cbv zeta.
  assert (Hlog : auditLogs (snd (triageTicket Scenario.env 8 Scenario.options
                                   Scenario.world)) = []).
  { vm_compute. reflexivity. }
  split_and!.
  - vm_compute. reflexivity.
  - intros e. reflexivity.
  - vm_compute. reflexivity.
  - exact Hlog.
  - rewrite Hlog. intros [e He]. inversion He.
Qed.

(** ** Configuration flags *)

Lemma with_configs_id w : with_configs (configs w) w = w.
Proof. now destruct w. Qed.

Lemma resolve_absent env c key fallback :
  c !! key = None -> resolve env c key fallback = fallback.
Proof. intros H. unfold resolve. rewrite H. now destruct (configRejects env key). Qed.

Lemma resolve_insert_fallback env c key fallback :
  resolve env (<[key := fallback]> c) key fallback = fallback.
Proof.
  unfold resolve. rewrite lookup_insert_eq. now destruct (configRejects env key).
Qed.

Lemma resolve_insert_ne env c key key' v fallback :
  key <> key' -> resolve env (<[key := v]> c) key' fallback = resolve env c key' fallback.
Proof. intros H. unfold resolve. now rewrite lookup_insert_ne. Qed.

Ltac lockstep H H1 H2 :=
  match type of H with
  | context [auditAccepts ?env ?e] =>
      destruct (auditAccepts env e) eqn:?; cbv beta iota in H |- *;
      [|inversion H; subst; reflexivity]
  | context [suggestionAccepts ?env ?e] =>
      destruct (suggestionAccepts env e) eqn:?; cbv beta iota in H |- *;
      [|inversion H; subst; reflexivity]
  | context [ticketAccepts ?env ?e] =>
      destruct (ticketAccepts env e) eqn:?; cbv beta iota in H |- *;
      [|inversion H; subst; reflexivity]
  | context [getFlag _ _ _ _] =>
      rewrite getFlag_resolve in H; rewrite getFlag_resolve;
      cbv beta iota delta [configs] in H |- *;
      rewrite <- ?H1, <- ?H2
  end.

(** A run reads the config collection through the two flags only: two
    collections that resolve both flags alike give the same outcome and
    the same writes. *)
Lemma triage_config_through_flags env id opts w c1 c2 out w1 :
  resolve env c1 "autoCloseEnabled" (JBool true)
  = resolve env c2 "autoCloseEnabled" (JBool true) ->
  resolve env c1 "confidenceThreshold" (JNum 0.78)
  = resolve env c2 "confidenceThreshold" (JNum 0.78) ->
  triageTicket env id opts (with_configs c1 w) = (out, w1) ->
  triageTicket env id opts (with_configs c2 w) = (out, with_configs c2 w1).
Proof.
  intros H1 H2 Hrun. destruct w as [tk ar cf sg al ck].
  run_in Hrun. run_goal.
  destruct (tk !! id) as [ticket|]; cbv beta iota in Hrun |- *;
    [|inversion Hrun; subst; reflexivity].
  repeat lockstep Hrun H1 H2.
  inversion Hrun; subst; reflexivity.
Qed.

(** With a store that accepts every write, a run on an existing ticket
    returns, whatever the config collection holds or the lookup does. *)
Lemma triage_returns env w id opts ticket :
  tickets w !! id = Some ticket ->
  (forall e, auditAccepts env e = true) ->
  (forall f, suggestionAccepts env f = true) ->
  (forall t, ticketAccepts env t = true) ->
  exists r w', triageTicket env id opts w = (Returned r, w').
Proof.
  intros Ht Ha Hs Hk. destruct w as [tk ar cf sg al ck]. simpl in Ht.
  run_goal. rewrite Ht. cbv beta iota.
  repeat first
    [ rewrite Ha; cbv beta iota
    | rewrite Hs; cbv beta iota
    | rewrite Hk; cbv beta iota
    | rewrite getFlag_resolve; cbv beta iota delta [configs] ].
  eauto.
Qed.

(** The flags of the pipeline (X3). [getFlag] returns for every key and
    never throws; for a key that is absent (or
    whose lookup rejects) it returns the fallback, so that the decision of
    a run without the two keys is taken with [true] and [0.78]; a run with
    a key absent has the outcome, and leaves the writes, of the run with
    that key set to its fallback; and no state of the config collection
    makes a run fail that the rest of the store accepts. *)
Theorem config_fallback_defaults env w id opts :
  (forall key fallback, exists v, getFlag env key fallback w = (Returned v, w))
  /\ (forall key fallback,
         configs w !! key = None \/ configRejects env key = true ->
         getFlag env key fallback w = (Returned fallback, w))
  /\ (forall ticket r w',
         tickets w !! id = Some ticket ->
         configs w !! "autoCloseEnabled" = None ->
         configs w !! "confidenceThreshold" = None ->
         triageTicket env id opts w = (Returned r, w') ->
         decision r
         = decide (JBool true) (JNum 0.78)
                  (LlmProvider.confidence
                     (LlmProvider.classify (classified_text ticket))))
  /\ (forall key fallback out w',
         (key, fallback) ∈ [("autoCloseEnabled", JBool true);
                            ("confidenceThreshold", JNum 0.78)] ->
         configs w !! key = None ->
         triageTicket env id opts w = (out, w') ->
         triageTicket env id opts (with_configs (<[key := fallback]> (configs w)) w)
         = (out, with_configs (<[key := fallback]> (configs w)) w'))
  /\ (forall ticket,
         tickets w !! id = Some ticket ->
         (forall e, auditAccepts env e = true) ->
         (forall f, suggestionAccepts env f = true) ->
         (forall t, ticketAccepts env t = true) ->
         exists r w', triageTicket env id opts w = (Returned r, w')).
Proof.
  split_and!.
  - intros key fallback. rewrite getFlag_resolve. eauto.
  - intros key fallback H. rewrite getFlag_resolve. f_equal. f_equal.
    unfold resolve. destruct H as [-> | ->]; [|reflexivity].
    now destruct (configRejects env key).
  - intros ticket r w' Ht Ha Hc Hrun.
    destruct (triage_returned env w id opts ticket r w' Ht Hrun)
      as (new & s & t' & _ & Hd & _).
    rewrite Hd. now rewrite !resolve_absent.
  - intros key fallback out w' Hkey Hnone Hrun.
    apply triage_config_through_flags with (c1 := configs w).
    + apply elem_of_cons in Hkey as [Hk|Hkey].
      * inversion Hk; subst.
        now rewrite resolve_insert_fallback, resolve_absent.
      * apply list_elem_of_singleton in Hkey. inversion Hkey; subst.
        now rewrite resolve_insert_ne.
    + apply elem_of_cons in Hkey as [Hk|Hkey].
      * inversion Hk; subst. now rewrite resolve_insert_ne.
      * apply list_elem_of_singleton in Hkey. inversion Hkey; subst.
        now rewrite resolve_insert_fallback, resolve_absent.
    + now rewrite with_configs_id.
  - intros ticket. apply triage_returns.
Qed.

(** The scenario has no [autoCloseEnabled] entry: the flag is taken as
    [true], and the run is the one of the world where the entry is set. *)
Lemma config_fallback_defaults_witness :
  getFlag Scenario.env "autoCloseEnabled" (JBool true) Scenario.world
  = (Returned (JBool true), Scenario.world)
  /\ triageTicket Scenario.env 7 Scenario.options
       (with_configs (<["autoCloseEnabled" := JBool true]>
                        (configs Scenario.world)) Scenario.world)
     = (fst (triageTicket Scenario.env 7 Scenario.options Scenario.world),
        with_configs (<["autoCloseEnabled" := JBool true]>
                        (configs Scenario.world))
          (snd (triageTicket Scenario.env 7 Scenario.options Scenario.world))).
Proof.
  destruct (config_fallback_defaults
              Scenario.env Scenario.world 7 Scenario.options)
    as (_ & Habsent & _ & Hsame & _).
  split.
  - apply Habsent. left. vm_compute. reflexivity.
  - apply Hsame.
    + constructor.
    + vm_compute. reflexivity.
    + apply surjective_pairing.
Defined.

(** ** The audit schema of backend/models/AuditLog.js *)

(** [log] sets no [resourceType], which the schema requires (X6): an
    audit store that applies the schema's validators refuses the first
    entry, and the run on an existing ticket throws there, with nothing
    written. *)
Lemma triage_under_audit_schema env w id opts ticket :
  (forall e, auditAccepts env e = AuditLog.schema_valid e) ->
  tickets w !! id = Some ticket ->
  exists w',
    triageTicket env id opts w = (Thrown (Rejected "AuditLog"), w')
    /\ auditLogs w' = auditLogs w
    /\ suggestions w' = suggestions w
    /\ tickets w' = tickets w.
Proof.
  intros Hschema Ht. destruct w as [tk ar cf sg al ck]. simpl in Ht.
  run_goal. rewrite Ht. cbv beta iota. rewrite Hschema.
  unfold AuditLog.schema_valid. simpl AuditLog.resourceType.
  rewrite andb_false_r. eauto.
Qed.

Lemma triage_under_audit_schema_witness :
  exists w',
    triageTicket Scenario.strict_env 7 Scenario.options Scenario.world
    = (Thrown (Rejected "AuditLog"), w')
    /\ auditLogs w' = auditLogs Scenario.world
    /\ suggestions w' = suggestions Scenario.world
    /\ tickets w' = tickets Scenario.world.
Proof.
  apply (triage_under_audit_schema
           Scenario.strict_env Scenario.world 7 Scenario.options Scenario.ticket).
  - intros e. reflexivity.
  - vm_compute. reflexivity.
Defined.


(** Two of the seven actions of the pipeline are not in the schema's
    [enum] either. *)
Example audit_schema_actions :
  filter (fun a => a ∉ AuditLog.schema_actions)
         [ "AGENT_PLAN"; "AGENT_CLASSIFIED"; "KB_RETRIEVED"; "DRAFT_GENERATED";
           "DECISION_MADE"; "AUTO_CLOSED"; "ASSIGNED_TO_HUMAN" ]
  = ["AGENT_PLAN"; "DECISION_MADE"].
Proof. vm_compute. reflexivity. Qed.

End Pipeline.

(** ** The pipeline: what any run leaves, and the decision under the
    default flags *)

Section PipelineFrame.
Import Js TriageService.

Ltac run_h H :=
  cbv beta iota zeta delta
      [triageTicket bind ret throw log Date_now AuditLog_create
       AgentSuggestion_create Ticket_findById Ticket_save kbSearch_searchTop
       tickets articles configs suggestions auditLogs clockReads] in H.

Ltac run_g :=
  cbv beta iota zeta delta
      [triageTicket bind ret throw log Date_now AuditLog_create
       AgentSuggestion_create Ticket_findById Ticket_save kbSearch_searchTop
       tickets articles configs suggestions auditLogs clockReads].

Ltac extends :=
  eexists; split;
  [ rewrite <- ?(assoc_L (++)); simpl; first [reflexivity | symmetry; apply app_nil_r]
  | split; [simpl; lia | repeat constructor] ].

Ltac framed H :=
  inversion H; subst; clear H; simpl;
  split_and!;
  [ reflexivity | reflexivity | extends | extends
  | intros j Hj; first [reflexivity | now apply lookup_insert_ne] ].

Ltac branch H :=
  match type of H with
  | context [auditAccepts ?env ?e] =>
      destruct (auditAccepts env e) eqn:?; cbv beta iota in H; [|framed H]
  | context [suggestionAccepts ?env ?e] =>
      destruct (suggestionAccepts env e) eqn:?; cbv beta iota in H; [|framed H]
  | context [ticketAccepts ?env ?e] =>
      destruct (ticketAccepts env e) eqn:?; cbv beta iota in H; [|framed H]
  | context [getFlag _ _ _ _] =>
      rewrite getFlag_resolve in H; cbv beta iota delta [configs] in H
  end.

(** Whatever a run on an existing ticket ends with, it has left the
    articles and the config collection alone, has only appended to the
    audit log (at most six entries, each of the actor "system", with the
    trace identifier of the run and the identifier of the ticket) and to
    the suggestions (at most one), and has touched no other ticket (X7). *)
Theorem triage_frame env w id opts ticket out w' :
  tickets w !! id = Some ticket ->
  triageTicket env id opts w = (out, w') ->
  articles w' = articles w
  /\ configs w' = configs w
  /\ (exists new,
         auditLogs w' = auditLogs w ++ new
         /\ length new <= 6
         /\ Forall (fun e => AuditLog.traceId e = trace_of (uuid env) opts
                             /\ AuditLog.actor e = "system"
                             /\ AuditLog.ticketId e = Ticket._id ticket) new)
  /\ (exists created,
         suggestions w' = suggestions w ++ created
         /\ length created <= 1
         /\ Forall (fun s => AgentSuggestion.ticketId (AgentSuggestion.doc s)
                             = Ticket._id ticket) created)
  /\ (forall j, Ticket._id ticket <> j -> tickets w' !! j = tickets w !! j).
Proof.
  intros Ht Hrun. destruct w as [tk ar cf sg al ck]. simpl in Ht.
  run_h Hrun. rewrite Ht in Hrun. cbv beta iota in Hrun.
  repeat branch Hrun.
  framed Hrun.
Qed.

Lemma triage_frame_witness :
  let run := triageTicket Scenario.strict_env 7 Scenario.options Scenario.world in
  articles (snd run) = articles Scenario.world
  /\ configs (snd run) = configs Scenario.world
  /\ (exists new,
         auditLogs (snd run) = auditLogs Scenario.world ++ new
         /\ length new <= 6
         /\ Forall (fun e => AuditLog.traceId e
                             = trace_of (uuid Scenario.strict_env) Scenario.options
                             /\ AuditLog.actor e = "system"
                             /\ AuditLog.ticketId e = Ticket._id Scenario.ticket) new)
  /\ (exists created,
         suggestions (snd run) = suggestions Scenario.world ++ created
         /\ length created <= 1
         /\ Forall (fun s => AgentSuggestion.ticketId (AgentSuggestion.doc s)
                             = Ticket._id Scenario.ticket) created)
  /\ (forall j, Ticket._id Scenario.ticket <> j ->
                tickets (snd run) !! j = tickets Scenario.world !! j).
Proof.
  apply (triage_frame Scenario.strict_env Scenario.world 7 Scenario.options
                      Scenario.ticket
                      (fst (triageTicket Scenario.strict_env 7 Scenario.options
                              Scenario.world))).
  - vm_compute. reflexivity.
  - apply surjective_pairing.
Defined.

(** Under the defaults (X9). With the fallback values of the two flags,
    [true] and [0.78], the test of line 60 on the confidence of [classify]
    gives [auto_close] exactly when the category that [classify] chose has
    three or more of its keywords in the text: the confidences of no hit
    (0.4), of one hit (0.33) and of two (0.67) are below 0.78 and give
    [human].  These are the values the test gets from [getFlag] whenever
    the config collection has neither flag. *)
Theorem defaults_close_on_three_hits (text : LlmProvider.text_arg) :
  let cls := LlmProvider.classify text in
  let hits :=
    LlmProvider.category_hits (toLowerCase (LlmProvider.or_empty text))
                              (LlmProvider.predictedCategory cls) in
  let d := decide (JBool true) (JNum 0.78) (LlmProvider.confidence cls) in
  (d = auto_close <-> 3 <= hits)
  /\ (d = human <-> hits < 3)
  /\ (forall env c,
         c !! "autoCloseEnabled" = None ->
         c !! "confidenceThreshold" = None ->
         decide (resolve env c "autoCloseEnabled" (JBool true))
                (resolve env c "confidenceThreshold" (JNum 0.78))
                (LlmProvider.confidence cls) = d).
Proof.
  cbv zeta.
  assert (H : decide (JBool true) (JNum 0.78)
                     (LlmProvider.confidence (LlmProvider.classify text))
              = auto_close
              <-> 3 <= LlmProvider.category_hits
                         (toLowerCase (LlmProvider.or_empty text))
                         (LlmProvider.predictedCategory
                            (LlmProvider.classify text))).
  { rewrite classify_confidence. unfold LlmProvider.classify.
    simpl LlmProvider.predictedCategory. rewrite <- best_of_score.
    rewrite policy_a_values.
    destruct (LlmProvider.b_score _) as [|[|[|m]]]; simpl;
      (split; [try discriminate; lia | try lia; try reflexivity]). }
  split_and!.
  - exact H.
  - destruct (decide _ _ _) eqn:Hd.
    + split; [discriminate|]. intros Hlt.
      assert (3 <= LlmProvider.category_hits
                     (toLowerCase (LlmProvider.or_empty text))
                     (LlmProvider.predictedCategory (LlmProvider.classify text)))
        by now apply H.
      lia.
    + split; [|reflexivity]. intros _.
      destruct (Nat.lt_ge_cases
                  (LlmProvider.category_hits
                     (toLowerCase (LlmProvider.or_empty text))
                     (LlmProvider.predictedCategory (LlmProvider.classify text)))
                  3) as [Hlt|Hge]; [exact Hlt|].
      apply H in Hge. discriminate Hge.
  - intros env c Ha Hc. now rewrite !resolve_absent.
Qed.

End PipelineFrame.

(** ** Substrings, and the reply of [draft] *)

Section Substrings.
Import Js.

Lemma prefix_spec w t : String.prefix w t = true <-> exists s, t = (w ++ s)%string.
Proof.
  revert w. induction t as [|d t IH]; intros [|c w]; simpl.
  - split; [intros _; now exists "" | reflexivity].
  - split; [discriminate | intros [s Hs]; discriminate].
  - split; [intros _; now exists (String d t) | reflexivity].
  - destruct (ascii_dec c d) as [->|Hn].
    + rewrite IH. split; intros [s Hs]; exists s; [now rewrite Hs | now inversion Hs].
    + split; [discriminate | intros [s Hs]; inversion Hs; congruence].
Qed.

Lemma string_app_cons c (a b : string) : (String c a ++ b = String c (a ++ b))%string.
Proof. reflexivity. Qed.

Lemma string_app_nil_l (b : string) : ("" ++ b = b)%string.
Proof. reflexivity. Qed.

Lemma string_app_nil_r (a : string) : (a ++ "" = a)%string.
Proof. induction a as [|x a IH]; [reflexivity|]. now rewrite string_app_cons, IH. Qed.

Lemma string_app_assoc (a b c : string) : ((a ++ b) ++ c = a ++ (b ++ c))%string.
Proof.
  induction a as [|x a IH]; [reflexivity|].
  now rewrite !string_app_cons, IH.
Qed.

Lemma includes_spec t w :
  includes t w = true <-> exists p s, t = (p ++ w ++ s)%string.
Proof.
  induction t as [|c t IH].
  - change (includes "" w) with (String.prefix w "" || false).
    rewrite orb_false_r, prefix_spec. split.
    + intros [s Hs]. now exists "", s.
    + intros (p & s & H). destruct p; [|discriminate]. now exists s.
  - change (includes (String c t) w)
      with (String.prefix w (String c t) || includes t w).
    rewrite orb_true_iff, prefix_spec, IH. split.
    + intros [[s Hs] | (p & s & H)].
      * now exists "", s.
      * exists (String c p), s. now rewrite string_app_cons, H.
    + intros (p & s & H). destruct p as [|d p].
      * left. now exists s.
      * right. rewrite string_app_cons in H. inversion H. now exists p, s.
Qed.

Lemma includes_refl t : includes t t = true.
Proof.
  apply includes_spec. exists "", "". now rewrite string_app_nil_l, string_app_nil_r.
Qed.

Lemma includes_trans a b c :
  includes a b = true -> includes b c = true -> includes a c = true.
Proof.
  rewrite !includes_spec. intros (p & s & ->) (p' & s' & ->).
  exists (p ++ p')%string, (s' ++ s)%string.
  now rewrite !string_app_assoc.
Qed.

Lemma includes_app_l a b w : includes a w = true -> includes (a ++ b) w = true.
Proof.
  rewrite !includes_spec. intros (p & s & ->). exists p, (s ++ b)%string.
  now rewrite !string_app_assoc.
Qed.

Lemma includes_app_r a b w : includes b w = true -> includes (a ++ b) w = true.
Proof.
  rewrite !includes_spec. intros (p & s & ->). exists (a ++ p)%string, s.
  now rewrite !string_app_assoc.
Qed.

Lemma join_includes sep l x : x ∈ l -> includes (join sep l) x = true.
Proof.
  induction l as [|y l IH]; intros Hx; [inversion Hx|].
  apply elem_of_cons in Hx.
  destruct l as [|z l].
  - destruct Hx as [->|Hx]; [apply includes_refl | inversion Hx].
  - change (join sep (y :: z :: l)) with (y ++ sep ++ join sep (z :: l))%string.
    destruct Hx as [->|Hx].
    + apply includes_app_l, includes_refl.
    + apply includes_app_r, includes_app_r. auto.
Qed.

Lemma join_prefix sep x l : String.prefix x (join sep (x :: l)) = true.
Proof.
  apply prefix_spec. destruct l as [|y l].
  - exists "". simpl. now rewrite string_app_nil_r.
  - change (join sep (x :: y :: l)) with (x ++ sep ++ join sep (y :: l))%string. eauto.
Qed.

End Substrings.

Section DraftFacts.
Import Js LlmProvider.

(** The reply of [draft] (X11). Every article passed to [draft] is
    listed in the reply: the line [`${i+1}. ${a.title}`] of the article at
    index [i] occurs in the reply, and so does its title; the citations
    are the identifiers of the articles, in their order; and the reply
    starts with the greeting, whatever the articles are. *)
Theorem draft_lists_every_article (text : string) (articles : list Article.t)
        (i : nat) (a : Article.t) :
  articles !! i = Some a ->
  let d := draft text articles in
  includes (draftReply d) (showNat (i + 1) ++ ". " ++ Article.title a) = true
  /\ includes (draftReply d) (Article.title a) = true
  /\ citations d !! i = Some (Article._id a)
  /\ length (citations d) = length articles
  /\ String.prefix "Thanks for reaching out. Here's what might help:" (draftReply d) = true.
Proof.
  intros Hi. cbv zeta. unfold draft. simpl draftReply. simpl citations.
  assert (Hline : includes
            (join nl
               (["Thanks for reaching out. Here's what might help:"] ++
                imap (fun i a => (showNat (i + 1) ++ ". " ++ Article.title a)%string)
                     articles ++
                [(nl ++ "If this doesn’t resolve it, reply and a human agent will assist.")%string]))
            (showNat (i + 1) ++ ". " ++ Article.title a) = true).
  { apply join_includes. apply elem_of_app. right. apply elem_of_app. left.
    apply list_elem_of_lookup. exists i. rewrite list_lookup_imap, Hi. reflexivity. }
  split_and!.
  - exact Hline.
  - eapply includes_trans; [exact Hline|].
    apply includes_app_r, includes_app_r, includes_refl.
  - now rewrite list_lookup_fmap, Hi.
  - apply length_map.
  - apply join_prefix.
Qed.

Lemma draft_lists_every_article_witness :
  let d := LlmProvider.draft "refund" Scenario.kb in
  includes (LlmProvider.draftReply d) "2. Refund policy" = true
  /\ includes (LlmProvider.draftReply d) "Refund policy" = true
  /\ LlmProvider.citations d !! 1 = Some 2
  /\ length (LlmProvider.citations d) = 4
  /\ String.prefix "Thanks for reaching out. Here's what might help:"
                   (LlmProvider.draftReply d) = true.
Proof.
  apply (draft_lists_every_article
           "refund" Scenario.kb 1
           (Scenario.article 2 "Refund policy" "Refunds take five days" ["refund"])).
  reflexivity.
Defined.

End DraftFacts.

(** ** The article ranker: what it returns, and how many *)

Section RankerMore.
Import Js KbSearch.

Lemma truthy_trim query :
  truthy_string (trim query) = true -> truthy_string query = true.
Proof. destruct query; [discriminate | reflexivity]. Qed.

Lemma searchTop_ranked coll query limit :
  truthy_string (trim query) = true ->
  searchTop coll query limit
  = slice0 (sort (desc (article_score (trim query))) (results coll (trim query))) limit.
Proof.
  intros H. rewrite searchTop_unfold, H, (truthy_trim _ H). reflexivity.
Qed.

Lemma find_filter_score q a :
  find_filter q a = true -> (1 # 2 <= article_score q a)%Q.
Proof.
  unfold find_filter, article_score, score_of. simpl.
  destruct (is_published a); [|discriminate]. simpl.
  destruct (Article.body a) as [b|], (Article.tags a) as [ts|]; simpl;
    destruct (regs_test q (Article.title a));
    try destruct (regs_test q b); try destruct (tag_match q ts);
    try destruct (regs_test q ""); simpl;
    try discriminate; intros _; unfold Qle; simpl; lia.
Qed.

(** What the ranker returns (X12). Every article [searchTop] returns is
    a document of the collection, is published, matches the trimmed query
    (without regard to case) in its title, in its body or in one of its
    tags, and has a score of at least 0.5; and the trimmed query is not
    empty. *)
Theorem searchTop_published_matches coll query limit a :
  a ∈ searchTop coll query limit ->
  let q := trim query in
  a ∈ coll
  /\ Article.status a = Article.published
  /\ (regs_test q (Article.title a) = true
      \/ (exists b, Article.body a = Some b /\ regs_test q b = true)
      \/ (exists ts t, Article.tags a = Some ts /\ t ∈ ts /\ regs_test q t = true))
  /\ (1 # 2 <= article_score q a)%Q
  /\ q <> "".
Proof.
  intros Ha. cbv zeta.
  rewrite searchTop_unfold in Ha.
  destruct (truthy_string query) eqn:Hq; [|inversion Ha].
  destruct (truthy_string (trim query)) eqn:Ht; [|inversion Ha].
  simpl in Ha.
  destruct (slice0_take (sort (desc (article_score (trim query)))
                              (results coll (trim query))) limit) as [k Hk].
  rewrite Hk in Ha. apply elem_of_take in Ha as (i & Hi & _).
  apply list_elem_of_lookup_2 in Hi.
  rewrite (sort_perm (article_score (trim query))) in Hi.
  unfold results in Hi. apply list_elem_of_In, filter_In in Hi as [Hin Hf].
  split_and!.
  - now apply list_elem_of_In.
  - unfold find_filter, is_published in Hf.
    destruct (Article.status a); try discriminate. reflexivity.
  - unfold find_filter in Hf. apply andb_true_iff in Hf as [_ Hf].
    apply orb_true_iff in Hf as [Hf|Hf]; [apply orb_true_iff in Hf as [Hf|Hf]|].
    + now left.
    + right. left. destruct (Article.body a) as [b|]; [|discriminate]. eauto.
    + right. right. destruct (Article.tags a) as [ts|]; [|discriminate].
      unfold tag_match in Hf. apply existsb_exists in Hf as (t & Hin' & Ht').
      exists ts, t. split_and!; auto. now apply list_elem_of_In.
  - now apply find_filter_score.
  - intros Hnil. rewrite Hnil in Ht. discriminate.
Qed.

Lemma searchTop_published_matches_witness :
  let a := Scenario.article 2 "Refund policy" "Refunds take five days" ["refund"] in
  a ∈ Scenario.kb
  /\ Article.status a = Article.published
  /\ (KbSearch.regs_test "refund" (Article.title a) = true
      \/ (exists b, Article.body a = Some b /\ KbSearch.regs_test "refund" b = true)
      \/ (exists ts t, Article.tags a = Some ts /\ t ∈ ts
                       /\ KbSearch.regs_test "refund" t = true))
  /\ (1 # 2 <= KbSearch.article_score "refund" a)%Q
  /\ "refund" <> "".
Proof.
  apply (searchTop_published_matches Scenario.kb "refund" 3).
  vm_compute. constructor.
Defined.

Lemma StronglySorted_app_cross {A} (R : A -> A -> Prop) (l1 l2 : list A) :
  StronglySorted R (l1 ++ l2) -> forall a b, a ∈ l1 -> b ∈ l2 -> R a b.
Proof.
  induction l1 as [|x l1 IH]; simpl; intros Hs a b Ha Hb; [inversion Ha|].
  apply StronglySorted_inv in Hs as [Hs Hx].
  apply elem_of_cons in Ha as [->|Ha].
  - rewrite Forall_forall in Hx. apply Hx. apply elem_of_app. now right.
  - now apply IH.
Qed.

(** The top of the ranking (X13). For a query that is not blank,
    [searchTop] returns exactly [min(limit, candidates)] articles when
    [0 <= limit], and all but the last [-limit] of the ranking when the
    limit is negative; no candidate that is left out scores higher than
    one that is returned; and with a limit at or above the number of
    candidates every candidate is returned. *)
Theorem searchTop_top_n coll query (n : Z) :
  truthy_string (trim query) = true ->
  let q := trim query in
  let out := searchTop coll query n in
  let len := Z.of_nat (length (results coll q)) in
  Z.of_nat (length out)
  = (if (n <? 0)%Z then Z.max (len + n) 0 else Z.min n len)
  /\ (exists rest,
         out ++ rest ≡ₚ results coll q
         /\ forall a b, a ∈ out -> b ∈ rest ->
                        (article_score q b <= article_score q a)%Q)
  /\ ((len <= n)%Z -> out ≡ₚ results coll q).
Proof.
  intros Hq. cbv zeta. rewrite (searchTop_ranked _ _ _ Hq).
  set (q := trim query).
  set (sorted := sort (desc (article_score q)) (results coll q)).
  assert (Hlen : length sorted = length (results coll q)).
  { apply Permutation_length, sort_perm. }
  unfold slice0. rewrite Hlen.
  set (k := Z.to_nat _).
  split_and!.
  - rewrite length_take, Hlen. subst k.
    destruct (n <? 0)%Z eqn:Hn; lia.
  - exists (drop k sorted). split.
    + rewrite take_drop. apply sort_perm.
    + intros a b Ha Hb.
      apply (StronglySorted_app_cross (descending (article_score q))
                                      (take k sorted) (drop k sorted)); auto.
      rewrite take_drop. apply sort_sorted.
  - intros Hle. rewrite take_ge.
    + apply sort_perm.
    + rewrite Hlen. subst k. destruct (n <? 0)%Z eqn:Hn; lia.
Qed.

Lemma searchTop_top_n_witness :
  let out := KbSearch.searchTop Scenario.kb "refund" 2 in
  let len := Z.of_nat (length (KbSearch.results Scenario.kb "refund")) in
  Z.of_nat (length out) = Z.min 2 len
  /\ (exists rest,
         out ++ rest ≡ₚ KbSearch.results Scenario.kb "refund"
         /\ forall a b, a ∈ out -> b ∈ rest ->
                        (KbSearch.article_score "refund" b
                         <= KbSearch.article_score "refund" a)%Q)
  /\ ((len <= 2)%Z -> out ≡ₚ KbSearch.results Scenario.kb "refund").
Proof.
  apply (searchTop_top_n Scenario.kb "refund" 2). reflexivity.
Defined.

End RankerMore.

(** ** The classifier of AgentService *)

Section StubClassifier.
Import Js AgentService.

Lemma gt_lt x y : gt x y = true <-> (y < x)%Q.
Proof.
  unfold gt. rewrite Qgt_alt. destruct (Qcompare x y); split; congruence.
Qed.

Lemma gt_le x y : gt x y = false <-> (x <= y)%Q.
Proof.
  split; intros H.
  - apply Qnot_lt_le. intros Hlt. apply gt_lt in Hlt. congruence.
  - apply not_true_is_false. intros Hn. apply gt_lt in Hn.
    now apply Qlt_not_le in Hn.
Qed.

Lemma normalizedScore_nonneg text ks : (0 <= normalizedScore text ks)%Q.
Proof.
  unfold normalizedScore.
  destruct ks as [|k ks].
  - simpl. unfold Qdiv, Qinv. simpl. unfold Qle. simpl. lia.
  - apply Qle_shift_div_l.
    + unfold Qlt. simpl. lia.
    + rewrite Qmult_0_l. unfold Qle. simpl. lia.
Qed.

Lemma normalizedScore_pos text ks :
  (0 < normalizedScore text ks)%Q <-> exists k, k ∈ ks /\ includes text k = true.
Proof.
  unfold normalizedScore. split.
  - intros H.
    destruct (List.filter (includes text) ks) as [|k l] eqn:Hf.
    + exfalso. simpl in H. unfold Qdiv in H. rewrite Qmult_0_l in H.
      now apply Qlt_irrefl in H.
    + exists k. assert (Hin : In k (List.filter (includes text) ks)) by (rewrite Hf; now left).
      apply filter_In in Hin as [Hin Hk]. split; [now apply list_elem_of_In|exact Hk].
  - intros (k & Hin & Hk).
    assert (Hin' : In k (List.filter (includes text) ks)).
    { apply filter_In. split; [now apply list_elem_of_In|exact Hk]. }
    destruct ks as [|k0 ks]; [inversion Hin|].
    apply Qlt_shift_div_l.
    + unfold Qlt. simpl. lia.
    + rewrite Qmult_0_l.
      destruct (List.filter (includes text) (k0 :: ks)); [inversion Hin'|].
      unfold Qlt. simpl. lia.
Qed.

(** The loop of [stubClassify]. *)
Lemma stub_fold_spec text ps best :
  let r := fold_left (stub_step text) ps best in
  (r = best /\ forall p, p ∈ ps -> (normalizedScore text (snd p) <= snd best)%Q)
  \/ (exists i p,
        ps !! i = Some p
        /\ r = (fst p, normalizedScore text (snd p))
        /\ (snd best < normalizedScore text (snd p))%Q
        /\ (forall p', p' ∈ ps ->
                       (normalizedScore text (snd p') <= normalizedScore text (snd p))%Q)
        /\ (forall j p', j < i -> ps !! j = Some p' ->
                         (normalizedScore text (snd p') < normalizedScore text (snd p))%Q)).
Proof.
  cbv zeta. revert best. induction ps as [|p0 ps IH]; intros best.
  - left. split; [reflexivity|]. intros p Hp. inversion Hp.
  - simpl fold_left.
    destruct (gt (normalizedScore text (snd p0)) (snd best)) eqn:Hgt.
    + assert (Hstep : stub_step text best p0
                      = (fst p0, normalizedScore text (snd p0))).
      { unfold stub_step. cbv zeta. now rewrite Hgt. }
      rewrite Hstep. apply gt_lt in Hgt.
      destruct (IH (fst p0, normalizedScore text (snd p0)))
        as [[Heq Hall]|(i & p & Hi & Heq & Hlt & Hmax & Hfirst)]; simpl in *.
      * right. exists 0, p0. split_and!.
        -- reflexivity.
        -- exact Heq.
        -- exact Hgt.
        -- intros p' Hp'. apply elem_of_cons in Hp' as [->|Hp']; [apply Qle_refl|auto].
        -- intros j p' Hj. lia.
      * right. exists (S i), p. split_and!.
        -- exact Hi.
        -- exact Heq.
        -- eapply Qlt_trans; eauto.
        -- intros p' Hp'. apply elem_of_cons in Hp' as [->|Hp']; [|auto].
           now apply Qlt_le_weak.
        -- intros [|j] p' Hj Hl; simpl in Hl.
           ++ inversion Hl; subst. exact Hlt.
           ++ apply (Hfirst j); [lia|exact Hl].
    + assert (Hstep : stub_step text best p0 = best).
      { unfold stub_step. cbv zeta. now rewrite Hgt. }
      rewrite Hstep. apply gt_le in Hgt.
      destruct (IH best) as [[Heq Hall]|(i & p & Hi & Heq & Hlt & Hmax & Hfirst)].
      * left. split; [exact Heq|].
        intros p' Hp'. apply elem_of_cons in Hp' as [->|Hp']; auto.
      * right. exists (S i), p. split_and!.
        -- exact Hi.
        -- exact Heq.
        -- exact Hlt.
        -- intros p' Hp'. apply elem_of_cons in Hp' as [->|Hp']; [|auto].
           eapply Qle_trans; [exact Hgt|]. now apply Qlt_le_weak.
        -- intros [|j] p' Hj Hl; simpl in Hl.
           ++ inversion Hl; subst. eapply Qle_lt_trans; eauto.
           ++ apply (Hfirst j); [lia|exact Hl].
Qed.

Lemma patterns_cat_not_other i p : patterns !! i = Some p -> fst p <> other.
Proof.
  destruct i as [|[|[|i]]]; simpl; intros H; inversion H; subst; discriminate.
Qed.

Lemma clamp_range x : (0.6 <= Qmax 0.6 (Qmin 0.95 x))%Q /\ (Qmax 0.6 (Qmin 0.95 x) <= 0.95)%Q.
Proof.
  split.
  - apply Q.le_max_l.
  - apply Q.max_lub; [unfold Qle; simpl; lia | apply Q.le_min_l].
Qed.

(** [AgentService.stubClassify] (X14). The confidence lies in
    [0.6, 0.95]; the category is [other] exactly when no keyword of any
    pattern occurs in the lower-cased title and description, and the
    confidence is then 0.6; otherwise the category is that of the first
    pattern, in the order of declaration, with the greatest share of its
    keywords in the text. *)
Theorem stubClassify_range_and_other (title description : string) :
  let text := toLowerCase (title ++ " " ++ description) in
  let r := stubClassify title description in
  (0.6 <= snd r)%Q /\ (snd r <= 0.95)%Q
  /\ (fst r = other
      <-> forall p k, p ∈ patterns -> k ∈ snd p -> includes text k = false)
  /\ (fst r = other -> (snd r == 0.6)%Q)
  /\ (fst r <> other ->
      exists i p,
        patterns !! i = Some p /\ fst r = fst p
        /\ (forall p', p' ∈ patterns ->
              (normalizedScore text (snd p') <= normalizedScore text (snd p))%Q)
        /\ (forall j p', j < i -> patterns !! j = Some p' ->
              (normalizedScore text (snd p') < normalizedScore text (snd p))%Q)).
Proof.
  cbv zeta. unfold stubClassify.
  set (text := toLowerCase (title ++ " " ++ description)).
  cbv zeta.
  destruct (stub_fold_spec text patterns (other, 0%Q))
    as [[Heq Hall]|(i & p & Hi & Heq & Hlt & Hmax & Hfirst)]; cbv zeta in *;
    rewrite Heq; cbn [fst snd].
  - split_and!; try apply clamp_range.
    + split; [|reflexivity]. intros _ p k Hp Hk.
      apply not_true_is_false. intros Hin.
      specialize (Hall p Hp). simpl in Hall.
      assert (Hpos : (0 < normalizedScore text (snd p))%Q).
      { apply normalizedScore_pos. eauto. }
      now apply Qlt_not_le in Hpos.
    + intros _. reflexivity.
    + intros H. now contradiction H.
  - simpl in Hlt. split_and!; try apply clamp_range.
    + split.
      * intros Ho. exfalso. now apply (patterns_cat_not_other i p Hi).
      * intros Hno. exfalso.
        apply normalizedScore_pos in Hlt as (k & Hk & Hin).
        rewrite (Hno p k) in Hin; [discriminate| |exact Hk].
        apply list_elem_of_lookup. eauto.
    + intros Ho. exfalso. now apply (patterns_cat_not_other i p Hi).
    + intros _. exists i, p. split_and!; auto.
Qed.

(** [stubClassify], then [makeDecision] (X15). For the confidence
    [stubClassify] gives a ticket: with a stored threshold above 0.95
    [makeDecision] never closes, whatever the flag is; with a stored
    threshold in (0, 0.6] it closes every ticket as soon as the flag it
    reads is truthy. *)
Theorem stubClassify_makeDecision (config : gmap string Js.value)
        (title description : string) (t : Q) :
  config !! "confidenceThreshold" = Some (JNum t) ->
  let c := snd (stubClassify title description) in
  ((0.95 < t)%Q -> makeDecision config c = false)
  /\ ((0 < t)%Q -> (t <= 0.6)%Q ->
      makeDecision config c = truthy (autoCloseEnabled_of config)).
Proof.
  intros Ht. cbv zeta.
  assert (Hlo : (0.6 <= snd (stubClassify title description))%Q)
    by apply clamp_range.
  assert (Hhi : (snd (stubClassify title description) <= 0.95)%Q)
    by apply clamp_range.
  set (c := snd (stubClassify title description)) in *.
  unfold makeDecision, shouldAutoClose, confidenceThreshold_of. rewrite Ht.
  split.
  - intros Hgt. simpl truthy.
    replace (Qeq_bool t 0) with false.
    + simpl. unfold ge. simpl toNumber.
      replace (Qle_bool t c) with false; [apply andb_false_r|].
      symmetry. apply not_true_is_false. intros H. apply Qle_bool_iff in H. lra.
    + symmetry. apply not_true_is_false. intros H. apply Qeq_bool_eq in H. lra.
  - intros Hpos Hle. simpl truthy.
    replace (Qeq_bool t 0) with false.
    + simpl. unfold ge. simpl toNumber.
      replace (Qle_bool t c) with true; [apply andb_true_r|].
      symmetry. apply Qle_bool_iff. lra.
    + symmetry. apply not_true_is_false. intros H. apply Qeq_bool_eq in H. lra.
Qed.

Lemma stubClassify_makeDecision_witness :
  let c := snd (AgentService.stubClassify "Hello" "I have a general question") in
  ((0.95 < 0.5)%Q ->
   AgentService.makeDecision (AgentService.config_of true 0.5) c = false)
  /\ ((0 < 0.5)%Q -> (0.5 <= 0.6)%Q ->
      AgentService.makeDecision (AgentService.config_of true 0.5) c
      = truthy (AgentService.autoCloseEnabled_of (AgentService.config_of true 0.5))).
Proof.
  apply (stubClassify_makeDecision
           (AgentService.config_of true 0.5) "Hello" "I have a general question" 0.5).
  reflexivity.
Defined.

End StubClassifier.

(** ** The suggestion against its schema *)

Section SuggestionSchema.
Import Js TriageService.

Lemma draft_reply_not_empty q articles :
  truthy_string (LlmProvider.draftReply (LlmProvider.draft q articles)) = true.
Proof.
  unfold LlmProvider.draft. simpl LlmProvider.draftReply.
  destruct (imap _ articles ++ _) eqn:Hl; [now destruct (imap _ articles)|].
  reflexivity.
Qed.

(** The suggestion against its schema (X16). The object that
    [triageTicket] hands to [AgentSuggestion.create] (lines 64 to 73)
    passes the validators of [agentSuggestionSchema], whatever the ticket,
    its text, the articles found and the decision are: the reply of
    [draft] is never empty, and the confidence of [classify] lies in
    [0,1]. *)
Theorem suggestion_fields_pass_schema
        (id : ObjectId) (text : LlmProvider.text_arg) (query : string)
        (found : list Article.t) (d : Decision) (latency : Z) (isStub : bool) :
  let cls := LlmProvider.classify text in
  let drafted := LlmProvider.draft query found in
  AgentSuggestionSchema.schema_valid
    {| AgentSuggestion.ticketId := id;
       AgentSuggestion.predictedCategory := LlmProvider.predictedCategory cls;
       AgentSuggestion.articleIds := map Article._id found;
       AgentSuggestion.draftReply := LlmProvider.draftReply drafted;
       AgentSuggestion.citations := LlmProvider.citations drafted;
       AgentSuggestion.confidence := LlmProvider.confidence cls;
       AgentSuggestion.autoClosed := is_auto_close d;
       AgentSuggestion.modelInfo :=
         {| AgentSuggestion.provider := "stub";
            AgentSuggestion.model := "heuristic-1";
            AgentSuggestion.promptVersion := "v1";
            AgentSuggestion.latencyMs := latency;
            AgentSuggestion.stub := isStub |} |} = true
  /\ LlmProvider.draftReply drafted <> ""
  /\ (0 <= LlmProvider.confidence cls)%Q
  /\ (LlmProvider.confidence cls <= 1)%Q.
Proof.
  cbv zeta.
  pose proof (draft_reply_not_empty query found) as Hreply.
  destruct (classify_confidence_range text) as [H0 H1].
  split_and!.
  - unfold AgentSuggestionSchema.schema_valid.
    cbn [AgentSuggestion.draftReply AgentSuggestion.confidence].
    rewrite Hreply. cbn [andb].
    apply andb_true_iff. split; now apply Qle_bool_iff.
  - intros Hnil. rewrite Hnil in Hreply. discriminate Hreply.
  - exact H0.
  - exact H1.
Qed.

End SuggestionSchema.

(** ** The rate limiter *)

Section RateLimiter.
Import RateLimit.

Lemma rateLimit_other_keys o now ip B k :
  k <> key_of ip -> snd (rateLimit o now ip B) !! k = B !! k.
Proof.
  intros Hk. unfold rateLimit. cbv zeta.
  destruct (max o <? _)%Z; simpl; now rewrite lookup_insert_ne.
Qed.

Lemma rateLimit_key o now ip B :
  snd (rateLimit o now ip B) !! key_of ip
  = Some (List.filter (fun t => (now - t <? windowMs o)%Z)
                      (default [] (B !! key_of ip)) ++ [now]).
Proof.
  unfold rateLimit. cbv zeta.
  destruct (max o <? _)%Z; simpl; now rewrite lookup_insert_eq.
Qed.

Lemma rateLimit_outcome o now ip B :
  fst (rateLimit o now ip B)
  = if (max o <? Z.of_nat
                   (length (List.filter (fun t => (now - t <? windowMs o)%Z)
                                        (default [] (B !! key_of ip)) ++ [now])))%Z
    then too_many else next.
Proof. unfold rateLimit. cbv zeta. now destruct (max o <? _)%Z. Qed.

Lemma serve_cons o now ip rest B :
  serve o ((now, ip) :: rest) B
  = (fst (rateLimit o now ip B) :: fst (serve o rest (snd (rateLimit o now ip B))),
     snd (serve o rest (snd (rateLimit o now ip B)))).
Proof.
  simpl. destruct (rateLimit o now ip B) as [r B1]. simpl.
  now destruct (serve o rest B1).
Qed.

Lemma filter_all {A} (P : A -> bool) l :
  (forall x, x ∈ l -> P x = true) -> List.filter P l = l.
Proof.
  induction l as [|x l IH]; intros H; [reflexivity|]. simpl.
  rewrite (H x) by constructor. f_equal. apply IH.
  intros y Hy. apply H. now constructor.
Qed.

Lemma filter_none {A} (P : A -> bool) l :
  (forall x, x ∈ l -> P x = false) -> List.filter P l = [].
Proof.
  induction l as [|x l IH]; intros H; [reflexivity|]. simpl.
  rewrite (H x) by constructor. apply IH.
  intros y Hy. apply H. now constructor.
Qed.

(** A burst, from the hits [prev] the key has. *)
Lemma serve_burst o ip times : forall B prev,
  default [] (B !! key_of ip) = prev ->
  (forall t t', t ∈ prev -> t' ∈ times -> (t' - t < windowMs o)%Z) ->
  (forall i j ti tj, times !! i = Some ti -> times !! j = Some tj -> j <= i ->
                     (ti - tj < windowMs o)%Z) ->
  fst (serve o (map (fun t => (t, ip)) times) B)
  = imap (fun i _ => if (max o <? Z.of_nat (length prev + i + 1))%Z
                     then too_many else next) times
  /\ (times <> [] ->
      snd (serve o (map (fun t => (t, ip)) times) B) !! key_of ip
      = Some (prev ++ times)).
Proof.
  induction times as [|t times IH]; intros B prev Hprev Hold Hnew.
  - split; [reflexivity|]. intros H. now contradiction H.
  - simpl map. rewrite serve_cons. simpl fst. simpl snd.
    assert (Hkeep : List.filter (fun t0 => (t - t0 <? windowMs o)%Z) prev = prev).
    { apply filter_all. intros x Hx. apply Z.ltb_lt. apply Hold; [exact Hx|constructor]. }
    assert (Hkey : default [] (snd (rateLimit o t ip B) !! key_of ip) = prev ++ [t]).
    { rewrite rateLimit_key, Hprev, Hkeep. reflexivity. }
    destruct (IH (snd (rateLimit o t ip B)) (prev ++ [t]) Hkey) as [IH1 IH2].
    + intros x x' Hx Hx'. apply elem_of_app in Hx as [Hx|Hx].
      * apply Hold; [exact Hx|now constructor].
      * apply list_elem_of_singleton in Hx. subst x.
        apply list_elem_of_lookup in Hx' as [i Hi].
        apply (Hnew (S i) 0); [exact Hi|reflexivity|lia].
    + intros i j ti tj Hi Hj Hij. apply (Hnew (S i) (S j)); [exact Hi|exact Hj|lia].
    + split.
      * rewrite IH1, rateLimit_outcome, Hprev, Hkeep. simpl. f_equal.
        -- rewrite length_app. simpl. now rewrite Nat.add_0_r.
        -- apply imap_ext. intros i x Hx. simpl.
           rewrite length_app. simpl.
           now replace (length prev + 1 + i + 1) with (length prev + S i + 1) by lia.
      * intros _. destruct times as [|t' times].
        -- simpl. rewrite rateLimit_key, Hprev, Hkeep. reflexivity.
        -- rewrite IH2 by discriminate. now rewrite <- (assoc_L (++)).
Qed.

(** A burst is cut at [max] (X17). For a key that has no hits,
    requests that arrive within one window (each less than [windowMs]
    after every earlier one) get [next()] up to the [max]-th and the
    answer 429 from then on; the requests that are refused are recorded
    as hits like the others. *)
Theorem rateLimit_burst o ip times B :
  B !! key_of ip = None ->
  (forall i j ti tj, times !! i = Some ti -> times !! j = Some tj -> j <= i ->
                     (ti - tj < windowMs o)%Z) ->
  let run := serve o (map (fun t => (t, ip)) times) B in
  fst run = imap (fun i _ => if (max o <? Z.of_nat (i + 1))%Z
                             then too_many else next) times
  /\ (forall i, i < length times ->
                (fst run !! i = Some next <-> (Z.of_nat (i + 1) <= max o)%Z))
  /\ (times <> [] -> snd run !! key_of ip = Some times).
Proof.
  intros HB Hnew. cbv zeta.
  destruct (serve_burst o ip times B []) as [H1 H2].
  - now rewrite HB.
  - intros t t' Ht. inversion Ht.
  - exact Hnew.
  - split_and!.
    + exact H1.
    + intros i Hi. rewrite H1. rewrite list_lookup_imap.
      destruct (times !! i) as [t|] eqn:Hti.
      * simpl. destruct (Z.ltb_spec (max o) (Z.of_nat (i + 1))); split;
          intros H'; try discriminate; try reflexivity; try lia.
      * apply lookup_ge_None in Hti. lia.
    + exact H2.
Qed.

Lemma rateLimit_burst_witness :
  let o := {| RateLimit.opt_windowMs := Some 1000%Z; RateLimit.opt_max := Some 2%Z |} in
  let run := RateLimit.serve
               o (map (fun t => (t, Some "10.0.0.1")) [0; 10; 20]%Z) ∅ in
  fst run = imap (fun i _ => if (RateLimit.max o <? Z.of_nat (i + 1))%Z
                             then RateLimit.too_many else RateLimit.next)
                 [0; 10; 20]%Z
  /\ (forall i, i < length [0; 10; 20]%Z ->
                (fst run !! i = Some RateLimit.next
                 <-> (Z.of_nat (i + 1) <= RateLimit.max o)%Z))
  /\ ([0; 10; 20]%Z <> [] ->
      snd run !! RateLimit.key_of (Some "10.0.0.1") = Some [0; 10; 20]%Z).
Proof.
  apply (rateLimit_burst
           {| RateLimit.opt_windowMs := Some 1000%Z; RateLimit.opt_max := Some 2%Z |}
           (Some "10.0.0.1") [0; 10; 20]%Z ∅).
  - reflexivity.
  - intros i j ti tj Hi Hj Hle.
    destruct i as [|[|[|i]]], j as [|[|[|j]]]; simpl in Hi, Hj;
      inversion Hi; inversion Hj; subst; vm_compute; reflexivity.
Defined.

(** Requests of other keys do not count (X18). The answers to the
    requests of one key, in their order, and the hits the map keeps for
    that key are those the handler gives when the requests of all other
    keys are left out; they depend on the map through the hits of that
    key only. *)
Theorem rateLimit_per_key o k requests : forall B1 B2,
  B1 !! k = B2 !! k ->
  let mine := List.filter (fun r => bool_decide (key_of (snd r) = k)) requests in
  map snd (List.filter (fun p => bool_decide (key_of (snd (fst p)) = k))
                       (zip requests (fst (serve o requests B1))))
  = fst (serve o mine B2)
  /\ snd (serve o requests B1) !! k = snd (serve o mine B2) !! k.
Proof.
  cbv zeta. induction requests as [|[now ip] rest IH]; intros B1 B2 HB.
  - simpl. auto.
  - rewrite serve_cons. simpl fst. simpl snd. simpl zip. simpl List.filter.
    destruct (bool_decide (key_of ip = k)) eqn:Hk.
    + apply bool_decide_eq_true in Hk.
      rewrite serve_cons. simpl fst. simpl snd. simpl map.
      assert (Hsame : snd (rateLimit o now ip B1) !! k = snd (rateLimit o now ip B2) !! k).
      { subst k. rewrite !rateLimit_key. now rewrite HB. }
      destruct (IH _ _ Hsame) as [IH1 IH2]. split.
      * rewrite IH1. f_equal. rewrite !rateLimit_outcome. subst k. now rewrite HB.
      * exact IH2.
    + apply bool_decide_eq_false in Hk.
      assert (Hsame : snd (rateLimit o now ip B1) !! k = B2 !! k).
      { rewrite rateLimit_other_keys by congruence. exact HB. }
      apply (IH _ _ Hsame).
Qed.

Lemma rateLimit_per_key_witness :
  let o := {| RateLimit.opt_windowMs := None; RateLimit.opt_max := Some 1%Z |} in
  let requests := [(0%Z, Some "a"); (1%Z, Some "b"); (2%Z, Some "a")] in
  let mine :=
    List.filter (fun r => bool_decide (RateLimit.key_of (snd r) = "a")) requests in
  map snd (List.filter
             (fun p => bool_decide (RateLimit.key_of (snd (fst p)) = "a"))
             (zip requests (fst (RateLimit.serve o requests ∅))))
  = fst (RateLimit.serve o mine ∅)
  /\ snd (RateLimit.serve o requests ∅) !! "a"
     = snd (RateLimit.serve o mine ∅) !! "a".
Proof.
  apply (rateLimit_per_key
           {| RateLimit.opt_windowMs := None; RateLimit.opt_max := Some 1%Z |}
           "a" [(0%Z, Some "a"); (1%Z, Some "b"); (2%Z, Some "a")] ∅ ∅).
  reflexivity.
Defined.

End RateLimiter.

(** ** Roles and the access to a ticket *)

Section Roles.
Import User Auth.

Lemma roleHierarchy_lookup r :
  roleHierarchy !! r
  = if String.eqb r "user" then Some 1
    else if String.eqb r "agent" then Some 2
    else if String.eqb r "admin" then Some 3
    else None.
Proof.
  unfold roleHierarchy.
  destruct (String.eqb_spec r "user") as [->|H1]; [reflexivity|].
  rewrite lookup_insert_ne by congruence.
  destruct (String.eqb_spec r "agent") as [->|H2]; [reflexivity|].
  rewrite lookup_insert_ne by congruence.
  destruct (String.eqb_spec r "admin") as [->|H3]; [reflexivity|].
  now rewrite lookup_singleton_ne by congruence.
Qed.

Lemma roleHierarchy_some r n :
  roleHierarchy !! r = Some n ->
  (r = "user" /\ n = 1) \/ (r = "agent" /\ n = 2) \/ (r = "admin" /\ n = 3).
Proof.
  rewrite roleHierarchy_lookup.
  destruct (String.eqb_spec r "user") as [->|_]; [intros [= <-]; auto|].
  destruct (String.eqb_spec r "agent") as [->|_]; [intros [= <-]; auto|].
  destruct (String.eqb_spec r "admin") as [->|_]; [intros [= <-]; auto|].
  discriminate.
Qed.

Lemma roleHierarchy_schema r : r ∈ schema_roles <-> is_Some (roleHierarchy !! r).
Proof.
  split.
  - intros H. unfold schema_roles in H.
    repeat (apply elem_of_cons in H as [->|H]; [now eexists|]). inversion H.
  - intros [n Hn]. apply roleHierarchy_some in Hn as [[-> _]|[[-> _]|[-> _]]];
      unfold schema_roles; repeat constructor.
Qed.

(** The read of a role: a rank for a role of the schema, and otherwise
    a member of [Object.prototype] or [undefined]. *)
Lemma get_role r :
  (exists n, JsObject.get roleHierarchy r = JsObject.Own n
             /\ roleHierarchy !! r = Some n)
  \/ ((r ∉ schema_roles)
      /\ (JsObject.get roleHierarchy r = JsObject.Undefined
          \/ (r ∈ JsObject.prototype_keys
              /\ JsObject.get roleHierarchy r = JsObject.Inherited r))).
Proof.
  unfold JsObject.get. destruct (roleHierarchy !! r) as [n|] eqn:Hr.
  - left. eauto.
  - right. split.
    + intros H. apply roleHierarchy_schema in H as [n Hn]. congruence.
    + destruct (bool_decide_reflect (r ∈ JsObject.prototype_keys)); auto.
Qed.

Lemma string_ltb_irrefl s : String.ltb s s = false.
Proof.
  unfold String.ltb.
  pose proof (String.compare_antisym s s) as H.
  destruct (String.compare s s); try reflexivity; discriminate H.
Qed.

Lemma hasPermission_ranks (u : User.t) (required : string) n m :
  roleHierarchy !! role u = Some n -> roleHierarchy !! required = Some m ->
  hasPermission u required = (m <=? n).
Proof.
  intros Hn Hm. unfold hasPermission, JsObject.get. now rewrite Hn, Hm.
Qed.

Lemma hasPermission_own (u : User.t) (required : string) :
  hasPermission u required = true ->
  (role u ∈ schema_roles <-> required ∈ schema_roles).
Proof.
  unfold hasPermission. intros H.
  destruct (get_role (role u)) as [(n & Hg & Hn)|(Hns & [Hg|[_ Hg]])],
           (get_role required) as [(m & Hg' & Hm)|(Hns' & [Hg'|[_ Hg']])];
    rewrite Hg, Hg' in H; simpl in H; try discriminate H.
  - split; intros _; apply roleHierarchy_schema; eauto.
  - split; intros; contradiction.
Qed.

(** The order of the roles (X19). For a user whose role is one of the
    schema's, [hasPermission] holds exactly for the required roles of the
    schema that rank no higher: [user] for everybody, [agent] for agents
    and admins, [admin] for admins, and for no other string.  On the roles
    of the schema it is reflexive, total and transitive, and [admin] has
    the permission of every role; a request that passes [requireAdmin]
    passes [requireAgent]; and a [user] gets 403 wherever another role is
    required.  The table is a plain object: outside the schema the method
    holds between two keys of [Object.prototype] only, and a document
    whose role is such a key (["constructor"]) has the permission of that
    key. *)
Theorem hasPermission_order (u : User.t) (required : string) :
  (role u ∈ schema_roles ->
   (hasPermission u required = true
    <-> required = "user"
        \/ (required = "agent" /\ role u <> "user")
        \/ (required = "admin" /\ role u = "admin")))
  /\ (hasPermission u required = true ->
      (role u ∈ schema_roles /\ required ∈ schema_roles)
      \/ (role u ∈ JsObject.prototype_keys /\ required ∈ JsObject.prototype_keys))
  /\ (role u ∈ JsObject.prototype_keys -> hasPermission u (role u) = true)
  /\ (role u ∈ schema_roles -> hasPermission u (role u) = true)
  /\ (role u = "admin" -> required ∈ schema_roles -> hasPermission u required = true)
  /\ (required ∈ schema_roles -> role u ∈ schema_roles ->
      hasPermission u required = true
      \/ hasPermission {| _id := _id u; role := required; isActive := isActive u |}
                       (role u) = true)
  /\ (forall lower,
         role u ∈ schema_roles ->
         hasPermission u required = true ->
         hasPermission {| _id := _id u; role := required; isActive := isActive u |}
                       lower = true ->
         hasPermission u lower = true)
  /\ (forall req_user, requireAdmin req_user = next -> requireAgent req_user = next)
  /\ (role u = "user" -> required <> "user" -> requireRole required (Some u) = status 403).
Proof.
  split_and!.
  - intros Hr. apply roleHierarchy_schema in Hr as [n Hn].
    destruct (roleHierarchy !! required) as [m|] eqn:Hm.
    + rewrite (hasPermission_ranks u required n m Hn Hm).
      destruct u as [i r a]. simpl in *.
      apply roleHierarchy_some in Hn as [[-> ->]|[[-> ->]|[-> ->]]];
        apply roleHierarchy_some in Hm as [[-> ->]|[[-> ->]|[-> ->]]]; simpl;
        (split;
         [ intros H;
           first [ discriminate H
                 | left; reflexivity
                 | right; left; split; [reflexivity|discriminate]
                 | right; right; split; reflexivity ]
         | intros [H|[[H1 H2]|[H1 H2]]];
           first [ reflexivity | discriminate H | discriminate H1
                 | discriminate H2 | exfalso; apply H2; reflexivity ] ]).
    + split.
      * unfold hasPermission, JsObject.get. rewrite Hn, Hm.
        destruct (bool_decide _); discriminate.
      * intros [->|[[-> _]|[-> _]]]; discriminate Hm.
  - unfold hasPermission. intros H.
    destruct (get_role (role u)) as [(n & Hg & Hn)|(Hns & [Hg|[Hk Hg]])],
             (get_role required) as [(m & Hg' & Hm)|(Hns' & [Hg'|[Hk' Hg']])];
      rewrite Hg, Hg' in H; simpl in H; try discriminate H.
    + left. split; apply roleHierarchy_schema; eauto.
    + right. auto.
  - intros Hk. unfold hasPermission.
    destruct (get_role (role u)) as [(n & Hg & Hn)|(Hns & [Hg|[_ Hg]])];
      rewrite Hg; simpl.
    + apply Nat.leb_refl.
    + unfold JsObject.get in Hg. destruct (roleHierarchy !! role u); [discriminate|].
      now rewrite (bool_decide_eq_true_2 _ Hk) in Hg.
    + now rewrite string_ltb_irrefl.
  - intros H. apply roleHierarchy_schema in H as [n Hn].
    rewrite (hasPermission_ranks u (role u) n n Hn Hn). apply Nat.leb_refl.
  - intros Hr H. apply roleHierarchy_schema in H as [n Hn].
    rewrite (hasPermission_ranks u required 3 n); [|now rewrite Hr|exact Hn].
    apply roleHierarchy_some in Hn as [[_ ->]|[[_ ->]|[_ ->]]]; reflexivity.
  - intros H1 H2. apply roleHierarchy_schema in H1 as [n Hn], H2 as [m Hm].
    rewrite (hasPermission_ranks u required m n Hm Hn).
    rewrite (hasPermission_ranks
               {| _id := _id u; role := required; isActive := isActive u |}
               (role u) n m Hn Hm).
    destruct (Nat.leb_spec n m); [now left|right]. apply Nat.leb_le. lia.
  - intros lower Hr H1 H2.
    pose proof (proj1 (hasPermission_own _ _ H1) Hr) as Hq.
    pose proof (proj1 (hasPermission_own _ _ H2) Hq) as Hl.
    apply roleHierarchy_schema in Hr as [n Hn], Hq as [m Hm], Hl as [l Hl].
    rewrite (hasPermission_ranks u required n m Hn Hm) in H1.
    rewrite (hasPermission_ranks
               {| _id := _id u; role := required; isActive := isActive u |}
               lower m l Hm Hl) in H2.
    rewrite (hasPermission_ranks u lower n l Hn Hl).
    apply Nat.leb_le. apply Nat.leb_le in H1, H2. lia.
  - intros [v|]; [|discriminate]. unfold requireAdmin, requireAgent, requireRole.
    destruct (hasPermission v "admin") eqn:Ha; [|discriminate]. intros _.
    assert (Hv : role v ∈ schema_roles).
    { apply (hasPermission_own _ _ Ha). unfold schema_roles. repeat constructor. }
    apply roleHierarchy_schema in Hv as [n Hn].
    rewrite (hasPermission_ranks v "admin" n 3 Hn eq_refl) in Ha.
    rewrite (hasPermission_ranks v "agent" n 2 Hn eq_refl).
    apply Nat.leb_le in Ha. replace (2 <=? n) with true; [reflexivity|].
    symmetry. apply Nat.leb_le. lia.
  - intros Hr Hne. unfold requireRole.
    destruct (hasPermission u required) eqn:Hp; [|reflexivity]. exfalso.
    assert (Hq : required ∈ schema_roles).
    { apply (hasPermission_own _ _ Hp). rewrite Hr. unfold schema_roles.
      repeat constructor. }
    apply roleHierarchy_schema in Hq as [m Hm].
    rewrite (hasPermission_ranks u required 1 m) in Hp; [|now rewrite Hr|exact Hm].
    apply roleHierarchy_some in Hm as [[-> _]|[[_ ->]|[_ ->]]];
      [now contradiction Hne|discriminate Hp|discriminate Hp].
Qed.

Lemma hasPermission_agent (u : User.t) :
  hasPermission u "agent" = true <-> role u = "agent" \/ role u = "admin".
Proof.
  split.
  - intros H.
    assert (Hr : role u ∈ schema_roles).
    { apply (hasPermission_own _ _ H). unfold schema_roles. repeat constructor. }
    apply roleHierarchy_schema in Hr as [n Hn].
    rewrite (hasPermission_ranks u "agent" n 2 Hn eq_refl) in H.
    apply roleHierarchy_some in Hn as [[_ ->]|[[-> _]|[-> _]]]; auto. discriminate.
  - intros [H | H]; unfold hasPermission; rewrite H; reflexivity.
Qed.

(** Roles outside the schema: two keys of [Object.prototype] compare as
    the texts of two functions, a key against a rank and an unknown role
    against anything give [false]. *)
Example inherited_role :
  hasPermission {| _id := 1; role := "constructor"; isActive := true |} "constructor" = true
  /\ hasPermission {| _id := 1; role := "constructor"; isActive := true |} "user" = false
  /\ hasPermission {| _id := 1; role := "admin"; isActive := true |} "constructor" = false
  /\ hasPermission {| _id := 1; role := "toString"; isActive := true |} "constructor" = true
  /\ hasPermission {| _id := 1; role := "manager"; isActive := true |} "manager" = false.
Proof. split_and!; vm_compute; reflexivity. Qed.

(** Who reads a ticket (X20). For a ticket that exists,
    [requireTicketAccess] lets through exactly the agents, the admins and
    the creator of the ticket, and answers 403 to anybody else; a [user]
    who did not create the ticket gets 403 from the middleware and from
    [GET /api/tickets/:id]; for the roles of the schema the middleware and
    the route agree; and whoever passes the middleware is served by the
    route. *)
Theorem ticket_access (u : User.t) (id : string) (findById : string -> Lookup)
        (createdBy : ObjectId) :
  findById id = Found createdBy ->
  Js.truthy_string id = true ->
  let mw := requireTicketAccess (Some u) (Some id) None findById in
  let route := getTicketById u id true findById in
  (mw = next <-> role u = "agent" \/ role u = "admin" \/ createdBy = _id u)
  /\ (mw = next \/ mw = status 403)
  /\ (role u = "user" -> createdBy <> _id u -> mw = status 403 /\ route = Some 403)
  /\ (role u ∈ schema_roles -> (mw = next <-> route = Some 200))
  /\ (mw = next -> route = Some 200).
Proof.
  intros Hf Hid. cbv zeta.
  unfold requireTicketAccess, getTicketById.
  rewrite Hid. cbv beta iota. rewrite ?Hid, Hf. cbn [negb].
  pose proof (hasPermission_agent u) as Hp.
  destruct (hasPermission u "agent") eqn:Hperm.
  - assert (Hstaff : role u = "agent" \/ role u = "admin") by now apply Hp.
    assert (Hnu : String.eqb (role u) "user" = false).
    { destruct Hstaff as [-> | ->]; reflexivity. }
    rewrite Hnu. cbn [andb]. split_and!.
    + split; [intros _; tauto|reflexivity].
    + now left.
    + intros Hr. rewrite Hr in Hnu. discriminate.
    + intros _. split; reflexivity.
    + reflexivity.
  - assert (Hnstaff : ~ (role u = "agent" \/ role u = "admin")).
    { intros H. apply Hp in H. discriminate. }
    destruct (Nat.eqb_spec createdBy (_id u)) as [Ho|Ho]; cbn [negb].
    + rewrite andb_false_r. split_and!.
      * split; [intros _; tauto|reflexivity].
      * now left.
      * intros _ H. now contradiction H.
      * intros _. split; reflexivity.
      * reflexivity.
    + rewrite andb_true_r. split_and!.
      * split; [discriminate|]. intros [H|[H|H]]; [| |contradiction];
          exfalso; apply Hnstaff; auto.
      * now right.
      * intros Hr _. rewrite Hr. split; reflexivity.
      * intros Hr. unfold schema_roles in Hr.
        apply elem_of_cons in Hr as [Hr|Hr]; [exfalso; apply Hnstaff; auto|].
        apply elem_of_cons in Hr as [Hr|Hr]; [exfalso; apply Hnstaff; auto|].
        apply list_elem_of_singleton in Hr. rewrite Hr.
        split; discriminate.
      * discriminate.
Qed.

Lemma ticket_access_witness :
  let mw := Auth.requireTicketAccess (Some Samples.customer) (Some "t1") None
                                     Samples.findById in
  let route := Auth.getTicketById Samples.customer "t1" true Samples.findById in
  (mw = Auth.next
   <-> User.role Samples.customer = "agent" \/ User.role Samples.customer = "admin"
       \/ 40 = User._id Samples.customer)
  /\ (mw = Auth.next \/ mw = Auth.status 403)
  /\ (User.role Samples.customer = "user" -> 40 <> User._id Samples.customer ->
      mw = Auth.status 403 /\ route = Some 403)
  /\ (User.role Samples.customer ∈ User.schema_roles ->
      (mw = Auth.next <-> route = Some 200))
  /\ (mw = Auth.next -> route = Some 200).
Proof.
  apply (ticket_access Samples.customer "t1" Samples.findById 40); reflexivity.
Defined.

End Roles.

(** ** The config collection *)

Section ConfigReads.
Import Js Config.

Lemma findOne_from_spec coll k : forall base i c,
  findOne_from base coll k = Some (i, c) ->
  exists j, i = base + j /\ coll !! j = Some c /\ key c = k
            /\ forall j' c', j' < j -> coll !! j' = Some c' -> key c' <> k.
Proof.
  induction coll as [|d coll IH]; intros base i c; simpl; [discriminate|].
  destruct (String.eqb_spec (key d) k) as [Hk|Hk].
  - intros [= <- <-]. exists 0. split_and!.
    + lia.
    + reflexivity.
    + exact Hk.
    + intros j' c' Hj. lia.
  - intros H. destruct (IH _ _ _ H) as (j & -> & Hj & Hkey & Hfirst).
    exists (S j). split_and!.
    + lia.
    + exact Hj.
    + exact Hkey.
    + intros [|j'] c' Hlt Hc'; simpl in Hc'.
      * now inversion Hc'; subst.
      * apply (Hfirst j'); [lia|exact Hc'].
Qed.

Lemma findOne_from_none coll k : forall base,
  findOne_from base coll k = None -> forall c, c ∈ coll -> key c <> k.
Proof.
  induction coll as [|d coll IH]; intros base; simpl; intros H c Hc; [inversion Hc|].
  destruct (String.eqb_spec (key d) k) as [Hk|Hk]; [discriminate|].
  apply elem_of_cons in Hc as [->|Hc]; [exact Hk|eauto].
Qed.

Lemma findOne_spec coll k i c :
  findOne coll k = Some (i, c) ->
  coll !! i = Some c /\ key c = k
  /\ forall j c', j < i -> coll !! j = Some c' -> key c' <> k.
Proof.
  intros H. apply findOne_from_spec in H as (j & -> & H). exact H.
Qed.

Lemma findOne_from_shift coll k : forall base,
  snd <$> findOne_from base coll k = snd <$> findOne_from 0 coll k.
Proof.
  induction coll as [|d coll IH]; intros base; simpl; [reflexivity|].
  destruct (String.eqb (key d) k); [reflexivity|].
  rewrite (IH (S base)), (IH 1). reflexivity.
Qed.

Lemma getByKey_cons d coll k :
  getByKey (d :: coll) k = if String.eqb (key d) k then Some d else getByKey coll k.
Proof.
  unfold getByKey, findOne. simpl.
  destruct (String.eqb (key d) k); [reflexivity|]. apply findOne_from_shift.
Qed.

Lemma getByKey_none coll k :
  getByKey coll k = None <-> k ∉ map key coll.
Proof.
  induction coll as [|d coll IH]; [split; [intros _ H; inversion H|reflexivity]|].
  rewrite getByKey_cons. simpl. rewrite not_elem_of_cons.
  destruct (String.eqb_spec (key d) k) as [Hk|Hk].
  - split; [discriminate|]. intros [H _]. now contradiction H.
  - rewrite IH. split; [intros H; split; [congruence|exact H]|tauto].
Qed.

Lemma getByKey_some coll k d :
  getByKey coll k = Some d -> d ∈ coll /\ key d = k.
Proof.
  induction coll as [|c coll IH]; [discriminate|].
  rewrite getByKey_cons. destruct (String.eqb_spec (key c) k) as [Hk|Hk].
  - intros [= <-]. split; [constructor|exact Hk].
  - intros H. destruct (IH H). split; [now constructor|assumption].
Qed.

Lemma getAll_fold coll : forall (acc : gmap string Js.value) k,
  NoDup (map key coll) -> k <> "__proto__" ->
  fold_left (fun acc cfg =>
               if String.eqb (key cfg) "__proto__" then acc
               else <[key cfg := value cfg]> acc) coll acc !! k
  = match getByKey coll k with
    | Some d => Some (value d)
    | None => acc !! k
    end.
Proof.
  induction coll as [|d coll IH]; intros acc k Hnd Hk; [reflexivity|].
  simpl fold_left. simpl in Hnd. apply NoDup_cons in Hnd as [Hd Hnd].
  rewrite (IH _ k Hnd Hk), getByKey_cons.
  destruct (String.eqb_spec (key d) k) as [Heq|Hne].
  - subst k. apply getByKey_none in Hd. rewrite Hd.
    destruct (String.eqb_spec (key d) "__proto__"); [contradiction|].
    apply lookup_insert_eq.
  - destruct (getByKey coll k); [reflexivity|].
    destruct (String.eqb (key d) "__proto__"); [reflexivity|].
    now apply lookup_insert_ne.
Qed.

Lemma getAll_fold_proto coll : forall acc : gmap string Js.value,
  fold_left (fun acc cfg =>
               if String.eqb (key cfg) "__proto__" then acc
               else <[key cfg := value cfg]> acc) coll acc !! "__proto__"
  = acc !! "__proto__".
Proof.
  induction coll as [|d coll IH]; intros acc; [reflexivity|].
  simpl fold_left. rewrite IH.
  destruct (String.eqb_spec (key d) "__proto__"); [reflexivity|].
  now apply lookup_insert_ne.
Qed.

Lemma getAllAsObject_lookup coll k :
  NoDup (map key coll) -> k <> "__proto__" ->
  getAllAsObject coll !! k = value <$> getByKey coll k.
Proof.
  intros Hnd Hk. unfold getAllAsObject. rewrite (getAll_fold coll ∅ k Hnd Hk).
  destruct (getByKey coll k); reflexivity.
Qed.

Lemma getAllAsObject_proto coll : getAllAsObject coll !! "__proto__" = None.
Proof. unfold getAllAsObject. now rewrite getAll_fold_proto. Qed.



(** The reads of the sample collection: the flag, a key without entry,
    and a key that [Object.prototype] defines. *)
Example getAllAsObject_reads :
  JsObject.get (Config.getAllAsObject Samples.configs) "autoCloseEnabled"
  = JsObject.Own (JBool true)
  /\ JsObject.get (Config.getAllAsObject Samples.configs) "maxRetries"
     = JsObject.Undefined
  /\ JsObject.get (Config.getAllAsObject Samples.configs) "constructor"
     = JsObject.Inherited "constructor"
  /\ Config.getByKey Samples.configs "constructor" = None.
Proof. split_and!; vm_compute; reflexivity. Qed.

(** The first entry of a key, replaced. *)
Lemma getByKey_insert_first coll k i c c' :
  findOne coll k = Some (i, c) -> key c' = k ->
  getByKey (<[i := c']> coll) k = Some c'
  /\ forall k', k' <> k -> getByKey (<[i := c']> coll) k' = getByKey coll k'.
Proof.
  unfold findOne. intros H Hk.
  assert (Hgen : forall base, findOne_from base coll k = Some (base + i, c) ->
             getByKey (<[i := c']> coll) k = Some c'
             /\ forall k', k' <> k -> getByKey (<[i := c']> coll) k' = getByKey coll k').
  { clear H. revert i. induction coll as [|d coll IH]; intros i base; simpl; [discriminate|].
    destruct (String.eqb_spec (key d) k) as [Hd|Hd].
    - intros [= Hi]. assert (i = 0) by lia. subst i. simpl. split.
      + rewrite getByKey_cons, Hk, String.eqb_refl. reflexivity.
      + intros k' Hk'. rewrite !getByKey_cons, Hk, Hd.
        destruct (String.eqb_spec k k'); [congruence|reflexivity].
    - intros H. destruct i as [|i].
      + exfalso. apply findOne_from_spec in H as (j & Hj & _). lia.
      + simpl. replace (base + S i) with (S base + i) in H by lia.
        destruct (IH i (S base) H) as [IH1 IH2]. split.
        * rewrite getByKey_cons. destruct (String.eqb_spec (key d) k); [contradiction|].
          exact IH1.
        * intros k' Hk'. rewrite !getByKey_cons. now rewrite IH2. }
  apply (Hgen 0). exact H.
Qed.

End ConfigReads.

Section ConfigWrites.
Import Js Config.
Variable RegExp_test : string -> Js.value -> option bool.
Variable incrementVersion : option string -> option string.
Variable storeAccepts : Config.t -> bool.


(** A successful [setValue], in the terms of its helpers. *)
Lemma setValue_returned coll k v userId reason config old coll' :
  Config.setValue RegExp_test incrementVersion storeAccepts coll k v userId reason
  = (inr (config, old), coll') ->
  exists i c,
    findOne coll k = Some (i, c)
    /\ Config.check RegExp_test (type c) (validation c) v = None
    /\ old = value c
    /\ config = {| key := key c; value := v; type := type c;
                   validation := validation c;
                   metadata :=
                     {| lastModifiedBy := userId; changeReason := reason;
                        version := incrementVersion (version (metadata c)) |} |}
    /\ coll' = <[i := config]> coll.
Proof.
  unfold Config.setValue.
  destruct (findOne coll k) as [[i c]|] eqn:Hf; [|discriminate].
  unfold Config.validateValue.
  destruct (Config.check RegExp_test (type c) (validation c) v) eqn:Hc; [discriminate|].
  unfold Config.preSave. cbn [type validation value]. rewrite Hc.
  destruct (storeAccepts _); [|discriminate].
  intros [= <- <- <-]. exists i, c. split_and!; try reflexivity. exact Hc.
Qed.

Lemma setValue_thrown coll k v userId reason e coll' :
  Config.setValue RegExp_test incrementVersion storeAccepts coll k v userId reason
  = (inl e, coll') -> coll' = coll.
Proof.
  unfold Config.setValue.
  destruct (findOne coll k) as [[i c]|]; [|now intros [= _ <-]].
  destruct (Config.validateValue _ _ _); [now intros [= _ <-]|].
  destruct (Config.preSave _ _); [now intros [= _ <-]|].
  destruct (storeAccepts _); [discriminate|now intros [= _ <-]].
Qed.

Lemma setValue_reads coll k v userId reason config old coll' :
  Config.setValue RegExp_test incrementVersion storeAccepts coll k v userId reason
  = (inr (config, old), coll') ->
  getByKey coll' k = Some config
  /\ value config = v
  /\ (value <$> getByKey coll k) = Some old
  /\ (forall k', k' <> k -> getByKey coll' k' = getByKey coll k')
  /\ map key coll' = map key coll.
Proof.
  intros H. apply setValue_returned in H as (i & c & Hf & Hc & -> & Hcfg & ->).
  destruct (findOne_spec _ _ _ _ Hf) as (Hi & Hk & _).
  assert (Hkey : key config = k) by (rewrite Hcfg; exact Hk).
  destruct (getByKey_insert_first coll k i c config Hf Hkey) as [Hget Hother].
  split_and!.
  - exact Hget.
  - now rewrite Hcfg.
  - unfold getByKey. now rewrite Hf.
  - exact Hother.
  - rewrite list_fmap_insert. apply list_insert_id.
    rewrite list_lookup_fmap, Hi. simpl. now rewrite Hkey, Hk.
Qed.

Lemma setValue_object coll k v userId reason config old coll' :
  Config.setValue RegExp_test incrementVersion storeAccepts coll k v userId reason
  = (inr (config, old), coll') ->
  NoDup (map key coll) -> k <> "__proto__" ->
  getAllAsObject coll' = <[k := v]> (getAllAsObject coll).
Proof.
  intros H Hnd Hproto.
  destruct (setValue_reads _ _ _ _ _ _ _ _ H) as (Hget & Hv & _ & Hother & Hkeys).
  apply map_eq. intros k'.
  assert (Hnd' : NoDup (map key coll')) by now rewrite Hkeys.
  destruct (decide (k' = "__proto__")) as [->|Hp].
  - rewrite lookup_insert_ne by auto. now rewrite !getAllAsObject_proto.
  - rewrite (getAllAsObject_lookup _ k' Hnd' Hp).
    destruct (decide (k' = k)) as [->|Hne].
    + rewrite lookup_insert_eq, Hget. simpl. now rewrite Hv.
    + rewrite lookup_insert_ne by auto. rewrite (Hother k' Hne).
      now rewrite (getAllAsObject_lookup _ k' Hnd Hp).
Qed.

(** Write, then read (X21). After a [setValue] that returned,
    [getByKey] on the key finds the entry that was returned, holding the
    new value; the old value returned is the one [getByKey] found before;
    the entries of all other keys read as before, and the keys of the
    collection are the same; with unique keys [getAllAsObject] is the
    object it was, with the key set to the new value. *)
Theorem setValue_round_trip (coll : list Config.t) (k : string) (v : Js.value)
        (userId : option ObjectId) (reason : option string)
        (config : Config.t) (old : Js.value) (coll' : list Config.t) :
  Config.setValue RegExp_test incrementVersion storeAccepts coll k v userId reason
  = (inr (config, old), coll') ->
  getByKey coll' k = Some config
  /\ value config = v
  /\ (value <$> getByKey coll k) = Some old
  /\ (forall k', k' <> k -> getByKey coll' k' = getByKey coll k')
  /\ map key coll' = map key coll
  /\ (NoDup (map key coll) -> k <> "__proto__" ->
      getAllAsObject coll' = <[k := v]> (getAllAsObject coll)).
Proof.
  intros H.
  destruct (setValue_reads _ _ _ _ _ _ _ _ H) as (H1 & H2 & H3 & H4 & H5).
  split_and!; auto. now apply (setValue_object _ _ _ _ _ _ _ _ H).
Qed.


Lemma bulk_fold (updates : list Update) userId reason :
  forall results failed coll,
  let st := fold_left (Config.bulk_step RegExp_test incrementVersion storeAccepts
                                        userId reason)
                      updates (results, failed, coll) in
  length (fst (fst st)) + length (snd (fst st))
  = length results + length failed + length updates
  /\ map key (snd st) = map key coll
  /\ map type (snd st) = map type coll
  /\ map validation (snd st) = map validation coll
  /\ (Forall (fun d => Config.preSave RegExp_test d = None) coll ->
      Forall (fun d => Config.preSave RegExp_test d = None) (snd st))
  /\ results `prefix_of` fst (fst st)
  /\ failed `prefix_of` snd (fst st).
Proof.
  induction updates as [|u updates IH]; intros results failed coll; cbv zeta.
  - simpl. split_and!; auto; lia.
  - cbn [fold_left].
    destruct (Config.setValue RegExp_test incrementVersion storeAccepts coll
                (u_key u) (u_value u) userId
                (Some (match reason with
                       | Some r => if truthy_string r then r else "Bulk update"
                       | None => "Bulk update"
                       end)))
      as [[e|[config old]] coll1] eqn:Hset.
    + assert (Hstep : Config.bulk_step RegExp_test incrementVersion storeAccepts
                        userId reason (results, failed, coll) u
                      = (results, failed ++ [{| f_key := u_key u; error := e |}], coll1)).
      { unfold Config.bulk_step. now rewrite Hset. }
      rewrite Hstep.
      apply setValue_thrown in Hset. subst coll1.
      destruct (IH results (failed ++ [{| f_key := u_key u; error := e |}]) coll)
        as (H1 & H2 & H3 & H4 & H5 & H6 & H7).
      split_and!; auto.
      * rewrite H1, length_app. simpl. lia.
      * etransitivity; [|exact H7]. now apply prefix_app_r.
    + assert (Hstep : Config.bulk_step RegExp_test incrementVersion storeAccepts
                        userId reason (results, failed, coll) u
                      = (results ++ [{| d_key := u_key u; oldValue := old;
                                        newValue := value config |}],
                         failed, coll1)).
      { unfold Config.bulk_step. now rewrite Hset. }
      rewrite Hstep.
      apply setValue_returned in Hset as (i & c & Hf & Hc & -> & Hcfg & ->).
      destruct (findOne_spec _ _ _ _ Hf) as (Hi & Hk & _).
      destruct (IH (results ++ [{| d_key := u_key u; oldValue := value c;
                                   newValue := value config |}])
                   failed (<[i := config]> coll))
        as (H1 & H2 & H3 & H4 & H5 & H6 & H7).
      split_and!.
      * rewrite H1, length_app. simpl. lia.
      * rewrite H2, list_fmap_insert. apply list_insert_id.
        rewrite list_lookup_fmap, Hi. simpl. now rewrite Hcfg.
      * rewrite H3, list_fmap_insert. apply list_insert_id.
        rewrite list_lookup_fmap, Hi. simpl. now rewrite Hcfg.
      * rewrite H4, list_fmap_insert. apply list_insert_id.
        rewrite list_lookup_fmap, Hi. simpl. now rewrite Hcfg.
      * intros Hall. apply H5. apply Forall_insert; [exact Hall|].
        unfold Config.preSave. rewrite Hcfg. exact Hc.
      * etransitivity; [|exact H6]. now apply prefix_app_r.
      * exact H7.
Qed.

(** The bulk update (X24). Every update is tried: the results and the
    failures add up to the number of updates; the keys, the types and the
    validations of the collection are as before, in their order; and if
    every entry passed the checks of the save hook before, every entry
    passes them after. *)
Theorem bulkUpdate_invariants (coll : list Config.t) (updates : list Update)
        (userId : option ObjectId) (reason : option string) :
  let '(results, failed, coll') :=
    Config.bulkUpdate RegExp_test incrementVersion storeAccepts
                      coll updates userId reason in
  length results + length failed = length updates
  /\ map key coll' = map key coll
  /\ map type coll' = map type coll
  /\ map validation coll' = map validation coll
  /\ (Forall (fun d => Config.preSave RegExp_test d = None) coll ->
      Forall (fun d => Config.preSave RegExp_test d = None) coll').
Proof.
  unfold Config.bulkUpdate.
  destruct (bulk_fold updates userId reason [] [] coll)
    as (H1 & H2 & H3 & H4 & H5 & _).
  destruct (fold_left _ updates ([], [], coll)) as [[results failed] coll'].
  simpl in *. split_and!; auto.
Qed.

End ConfigWrites.

Section ConfigExamples.
Import Js TriageService.

Lemma setValue_round_trip_witness :
  let run := Config.setValue Samples.RegExp_test Samples.incrementVersion
                             Samples.storeAccepts Samples.configs
                             "confidenceThreshold" (JNum 0.5) (Some 1) None in
  exists config,
    fst run = inr (config, JNum 0.78)
    /\ Config.getByKey (snd run) "confidenceThreshold" = Some config
    /\ Config.value config = JNum 0.5
    /\ (Config.value <$> Config.getByKey Samples.configs "confidenceThreshold")
       = Some (JNum 0.78)
    /\ (forall k', k' <> "confidenceThreshold" ->
                   Config.getByKey (snd run) k' = Config.getByKey Samples.configs k')
    /\ map Config.key (snd run) = map Config.key Samples.configs
    /\ (NoDup (map Config.key Samples.configs) -> "confidenceThreshold" <> "__proto__" ->
        Config.getAllAsObject (snd run)
        = <["confidenceThreshold" := JNum 0.5]> (Config.getAllAsObject Samples.configs)).
Proof.
  eexists. split; [vm_compute; reflexivity|].
  apply (setValue_round_trip
           Samples.RegExp_test Samples.incrementVersion Samples.storeAccepts
           Samples.configs "confidenceThreshold" (JNum 0.5) (Some 1) None _ (JNum 0.78)).
  vm_compute. reflexivity.
Defined.


End ConfigExamples.

(** ** The retrieval helpers of AgentService *)

Section Snippets.
Import Js AgentRetrieval.

Lemma string_length_app (a b : string) :
  String.length (a ++ b) = String.length a + String.length b.
Proof.
  induction a as [|c a IH]; [reflexivity|].
  rewrite string_app_cons. simpl. now rewrite IH.
Qed.

Lemma substring_length s : forall n m,
  n + m <= String.length s -> String.length (substring n m s) = m.
Proof.
  induction s as [|c s IH]; intros n m H; simpl in H.
  - assert (n = 0) by lia. assert (m = 0) by lia. subst. reflexivity.
  - destruct n as [|n]; simpl.
    + destruct m as [|m]; [reflexivity|]. simpl. rewrite IH; [reflexivity|lia].
    + apply IH. lia.
Qed.

Lemma substring_prefix s : forall m, String.prefix (substring 0 m s) s = true.
Proof.
  induction s as [|c s IH]; intros [|m]; simpl; try reflexivity.
  destruct (ascii_dec c c); [apply IH|congruence].
Qed.

Lemma includes_prefix t w : String.prefix w t = true -> includes t w = true.
Proof.
  intros H. destruct t as [|c t];
    [ change (includes "" w) with (String.prefix w "" || false)
    | change (includes (String c t) w)
        with (String.prefix w (String c t) || includes t w) ];
    now rewrite H.
Qed.

Lemma substring_includes s : forall n m, includes s (substring n m s) = true.
Proof.
  induction s as [|c s IH]; intros n m.
  - now destruct n, m.
  - destruct n as [|n].
    + apply includes_prefix, substring_prefix.
    + change (includes (String c s) (substring (S n) m (String c s)))
        with (String.prefix (substring n m s) (String c s)
              || includes s (substring n m s)).
      rewrite IH. apply orb_true_r.
Qed.

Lemma starts_spec n i :
  i ∈ starts n <-> i < n /\ i mod 10 = 0.
Proof.
  unfold starts. rewrite list_elem_of_fmap. split.
  - intros (k & -> & Hk). apply elem_of_seq in Hk.
    split.
    + assert (k < (n + 9) / 10) by lia.
      assert (Hd : 10 * ((n + 9) / 10) <= n + 9) by (apply Nat.Div0.mul_div_le).
      lia.
    + rewrite Nat.mul_comm. apply Nat.Div0.mod_mul.
  - intros [Hlt Hmod]. exists (i / 10). split.
    + pose proof (Nat.div_mod_eq i 10). lia.
    + assert (Hi : 10 * (i / 10) = i) by (pose proof (Nat.div_mod_eq i 10); lia).
      assert (Hq : S (i / 10) <= (n + 9) / 10)
        by (apply Nat.div_le_lower_bound; lia).
      apply elem_of_seq. lia.
Qed.

Lemma starts_lookup n k i : starts n !! k = Some i -> i = 10 * k.
Proof.
  unfold starts. rewrite list_lookup_fmap.
  destruct (seq 0 ((n + 9) / 10) !! k) as [j|] eqn:Hj; [|discriminate].
  apply lookup_seq in Hj as [-> _]. simpl. now intros [= <-].
Qed.

Lemma starts_lookup_inv n i :
  i < n -> i mod 10 = 0 -> starts n !! (i / 10) = Some i.
Proof.
  intros Hlt Hmod.
  assert (Hin : i ∈ starts n) by now apply starts_spec.
  apply list_elem_of_lookup in Hin as [k Hk].
  pose proof (starts_lookup _ _ _ Hk) as ->.
  replace (10 * k / 10) with k; [exact Hk|].
  rewrite Nat.mul_comm. symmetry. apply Nat.div_mul. lia.
Qed.

(** The loop of [generateSnippet]. *)
Lemma snippet_fold_spec words body (l : list nat) : forall best,
  let r := fold_left (snippet_step words body) l best in
  (r = best /\ forall i, i ∈ l -> window_score words body i <= snd best)
  \/ (exists k i,
        l !! k = Some i
        /\ r = (i, window_score words body i)
        /\ snd best < window_score words body i
        /\ (forall j, j ∈ l -> window_score words body j <= window_score words body i)
        /\ (forall k' j, k' < k -> l !! k' = Some j ->
                         window_score words body j < window_score words body i)).
Proof.
  cbv zeta. induction l as [|i0 l IH]; intros best.
  - left. split; [reflexivity|]. intros i Hi. inversion Hi.
  - cbn [fold_left].
    destruct (snd best <? window_score words body i0) eqn:Hlt.
    + assert (Hstep : snippet_step words body best i0
                      = (i0, window_score words body i0)).
      { unfold snippet_step. cbv zeta. now rewrite Hlt. }
      rewrite Hstep. apply Nat.ltb_lt in Hlt.
      destruct (IH (i0, window_score words body i0))
        as [[Heq Hall]|(k & i & Hk & Heq & Hgt & Hmax & Hfirst)]; cbn [snd] in *.
      * right. exists 0, i0. split_and!.
        -- reflexivity.
        -- exact Heq.
        -- exact Hlt.
        -- intros j Hj. apply elem_of_cons in Hj as [->|Hj]; [lia|auto].
        -- intros k' j Hk'. lia.
      * right. exists (S k), i. split_and!.
        -- exact Hk.
        -- exact Heq.
        -- lia.
        -- intros j Hj. apply elem_of_cons in Hj as [->|Hj]; [lia|auto].
        -- intros [|k'] j Hk' Hj; simpl in Hj.
           ++ inversion Hj; subst. exact Hgt.
           ++ apply (Hfirst k'); [lia|exact Hj].
    + assert (Hstep : snippet_step words body best i0 = best).
      { unfold snippet_step. cbv zeta. now rewrite Hlt. }
      rewrite Hstep. apply Nat.ltb_ge in Hlt.
      destruct (IH best) as [[Heq Hall]|(k & i & Hk & Heq & Hgt & Hmax & Hfirst)].
      * left. split; [exact Heq|].
        intros j Hj. apply elem_of_cons in Hj as [->|Hj]; auto.
      * right. exists (S k), i. split_and!.
        -- exact Hk.
        -- exact Heq.
        -- exact Hgt.
        -- intros j Hj. apply elem_of_cons in Hj as [->|Hj]; [lia|auto].
        -- intros [|k'] j Hk' Hj; simpl in Hj.
           ++ inversion Hj; subst. lia.
           ++ apply (Hfirst k'); [lia|exact Hj].
Qed.

(** [generateSnippet] (X25). A body of at most 150 characters is
    returned as it is. A longer one gives 153 characters: the 150
    characters of the body from a start that is a multiple of 10 and
    leaves the window inside the body, followed by ["..."]; no other such
    window contains more of the search words (the words of the search
    text longer than 3 characters), and no earlier one contains as many.
    Without such a word the snippet is the [excerpt] of the article. *)
Theorem generateSnippet_window (body searchText : string) :
  let words :=
    List.filter (fun word => 3 <? String.length word)
                (split_ws (toLowerCase searchText)) in
  (String.length body <= 150 -> generateSnippet body searchText = body)
  /\ (150 < String.length body ->
      exists start,
        generateSnippet body searchText = (substring start 150 body ++ "...")%string
        /\ start mod 10 = 0
        /\ start + 150 < String.length body
        /\ String.length (generateSnippet body searchText) = 153
        /\ includes body (substring start 150 body) = true
        /\ (forall i, i mod 10 = 0 -> i + 150 < String.length body ->
                      window_score words body i <= window_score words body start)
        /\ (forall i, i mod 10 = 0 -> i < start ->
                      window_score words body i < window_score words body start))
  /\ (words = [] -> generateSnippet body searchText = excerpt body).
Proof.
  cbv zeta. unfold generateSnippet, excerpt.
  set (words := List.filter (fun word => 3 <? String.length word)
                            (split_ws (toLowerCase searchText))).
  cbv zeta.
  destruct (Nat.leb_spec (String.length body) 150) as [Hle|Hgt].
  - split_and!; [reflexivity|lia|reflexivity].
  - assert (Hshape : forall start, start + 150 < String.length body ->
              String.length (substring start 150 body ++ "...") = 153).
    { intros start Hs. rewrite string_length_app, substring_length by lia. reflexivity. }
    destruct (snippet_fold_spec words body (starts (String.length body - 150)) (0, 0))
      as [[Heq Hall]|(k & i & Hk & Heq & Hlt & Hmax & Hfirst)]; cbv zeta in *;
      rewrite Heq; cbn [fst snd] in *.
    + split_and!; [lia| |reflexivity]. intros _. exists 0. split_and!.
      * reflexivity.
      * reflexivity.
      * lia.
      * apply Hshape. lia.
      * apply substring_includes.
      * intros i Hi Hr. assert (Hin : i ∈ starts (String.length body - 150)).
        { apply starts_spec. split; [lia|exact Hi]. }
        specialize (Hall i Hin). lia.
      * intros i _ Hi. lia.
    + assert (Hin : i ∈ starts (String.length body - 150)).
      { apply list_elem_of_lookup. eauto. }
      apply starts_spec in Hin as [Hr Hm].
      split_and!; [lia| |].
      * intros _. exists i. split_and!.
        -- reflexivity.
        -- exact Hm.
        -- lia.
        -- apply Hshape. lia.
        -- apply substring_includes.
        -- intros j Hj Hjr. apply Hmax. apply starts_spec. split; [lia|exact Hj].
        -- intros j Hj Hji.
           pose proof (starts_lookup _ _ _ Hk) as Hik.
           apply (Hfirst (j / 10)).
           ++ subst i. apply Nat.Div0.div_lt_upper_bound. lia.
           ++ apply starts_lookup_inv; [lia|exact Hj].
      * intros Hnil. exfalso. unfold window_score in Hlt. rewrite Hnil in Hlt.
        simpl in Hlt. lia.
Qed.

Lemma toLowerCase_app (a b : string) :
  toLowerCase (a ++ b) = (toLowerCase a ++ toLowerCase b)%string.
Proof.
  induction a as [|c a IH]; [reflexivity|].
  rewrite string_app_cons. simpl. now rewrite IH, string_app_cons.
Qed.

Lemma toLowerCase_join sep l :
  toLowerCase (join sep l) = join (toLowerCase sep) (map toLowerCase l).
Proof.
  induction l as [|x l IH]; [reflexivity|].
  destruct l as [|y l]; [reflexivity|].
  change (join sep (x :: y :: l)) with (x ++ sep ++ join sep (y :: l))%string.
  rewrite !toLowerCase_app, IH. reflexivity.
Qed.

Lemma split_go_length s : forall cur sep, 1 <= length (split_go s cur sep).
Proof.
  induction s as [|c s IH]; intros cur sep; simpl; [lia|].
  destruct (is_ws c); [destruct sep; simpl|]; auto.
Qed.

Lemma word_score_nonneg text title tags w : (0 <= word_score text title tags w)%Q.
Proof.
  unfold word_score.
  destruct (String.length w <? 3); [apply Qle_refl|].
  destruct (includes text w), (includes (toLowerCase title) w),
    (existsb _ tags); unfold Qle; simpl; lia.
Qed.

Lemma word_score_pos text title tags w :
  (0 < word_score text title tags w)%Q
  <-> 3 <= String.length w
      /\ (includes text w = true
          \/ includes (toLowerCase title) w = true
          \/ existsb (fun tag => includes (toLowerCase tag) w) tags = true).
Proof.
  unfold word_score.
  destruct (Nat.ltb_spec (String.length w) 3) as [Hs|Hl].
  - split; [intros H; now apply Qlt_irrefl in H|lia].
  - destruct (includes text w), (includes (toLowerCase title) w),
      (existsb _ tags); split; try (intros _; split; [exact Hl|tauto]);
      try (intros _; unfold Qlt; simpl; lia);
      try (intros H; exfalso; unfold Qlt in H; simpl in H; lia).
Qed.

Lemma relevance_fold_ge text title tags l : forall acc,
  (acc <= fold_left (fun score word => (score + word_score text title tags word)%Q)
                    l acc)%Q.
Proof.
  induction l as [|w l IH]; intros acc; simpl; [apply Qle_refl|].
  eapply Qle_trans; [|apply IH].
  pose proof (word_score_nonneg text title tags w). lra.
Qed.

Lemma relevance_fold_pos text title tags l : forall acc,
  (0 <= acc)%Q ->
  ((0 < fold_left (fun score word => (score + word_score text title tags word)%Q)
                  l acc)%Q
   <-> (0 < acc)%Q \/ exists w, w ∈ l /\ (0 < word_score text title tags w)%Q).
Proof.
  induction l as [|w l IH]; intros acc Hacc; simpl.
  - split; [now left|]. intros [H|(w & Hw & _)]; [exact H|inversion Hw].
  - pose proof (word_score_nonneg text title tags w) as Hw.
    rewrite IH by lra. split.
    + intros [H|(w' & Hin & Hpos)].
      * destruct (Qlt_le_dec 0 acc) as [Ha|Ha]; [now left|].
        right. exists w. split; [constructor|]. lra.
      * right. exists w'. split; [now constructor|exact Hpos].
    + intros [H|(w' & Hin & Hpos)].
      * left. lra.
      * apply elem_of_cons in Hin as [->|Hin]; [left; lra|right; eauto].
Qed.

(** [calculateRelevance] (X26). The relevance lies in [0, 1]; it is
    positive exactly when some word of the search text of at least 3
    characters occurs in the lower-cased text of the article (its title,
    body and tags): a hit in the title or in a tag alone is a hit in that
    text. *)
Theorem calculateRelevance_bounds (searchText title body : string)
        (tags : list string) :
  let r := calculateRelevance searchText title body tags in
  let articleText := toLowerCase (title ++ " " ++ body ++ " " ++ join " " tags) in
  (0 <= r)%Q /\ (r <= 1)%Q
  /\ ((0 < r)%Q
      <-> exists word,
            word ∈ split_ws (toLowerCase searchText)
            /\ 3 <= String.length word
            /\ includes articleText word = true).
Proof.
  cbv zeta. unfold calculateRelevance. cbv zeta.
  set (text := toLowerCase (title ++ " " ++ body ++ " " ++ join " " tags)).
  set (words := split_ws (toLowerCase searchText)).
  set (score := fold_left _ words 0%Q).
  assert (Hn : (0 < inject_Z (Z.of_nat (length words)))%Q).
  { pose proof (split_go_length (toLowerCase searchText) "" false) as H.
    fold (split_ws (toLowerCase searchText)) in H. fold words in H.
    unfold Qlt. simpl. lia. }
  assert (Hs : (0 <= score)%Q) by apply relevance_fold_ge.
  assert (Hdiv : (0 <= score / inject_Z (Z.of_nat (length words)))%Q).
  { apply Qle_shift_div_l; [exact Hn|]. lra. }
  assert (Hhit : forall w,
             (0 < word_score text title tags w)%Q
             <-> 3 <= String.length w /\ includes text w = true).
  { intros w. rewrite word_score_pos. split; [|tauto].
    intros [Hl [H|[H|H]]]; split; auto.
    - unfold text. rewrite toLowerCase_app. now apply includes_app_l.
    - apply existsb_exists in H as (tag & Hin & Htag).
      unfold text. rewrite !toLowerCase_app, toLowerCase_join.
      do 4 apply includes_app_r.
      eapply includes_trans; [|exact Htag].
      apply join_includes. apply list_elem_of_fmap. exists tag.
      split; [reflexivity|now apply list_elem_of_In]. }
  split_and!.
  - apply Q.min_glb; [unfold Qle; simpl; lia|exact Hdiv].
  - apply Q.le_min_l.
  - split.
    + intros Hr.
      assert (Hpos : (0 < score)%Q).
      { destruct (Qlt_le_dec 0 score) as [H|H]; [exact H|exfalso].
        assert (Hz : (score / inject_Z (Z.of_nat (length words)) <= 0)%Q).
        { apply Qle_shift_div_r; [exact Hn|]. lra. }
        pose proof (Q.le_min_r 1 (score / inject_Z (Z.of_nat (length words)))).
        lra. }
      apply relevance_fold_pos in Hpos as [H|(w & Hw & Hp)]; [lra| |apply Qle_refl].
      apply Hhit in Hp as [Hl Hin]. eauto.
    + intros (w & Hw & Hl & Hin).
      assert (Hpos : (0 < score)%Q).
      { apply relevance_fold_pos; [apply Qle_refl|]. right. exists w.
        split; [exact Hw|]. apply Hhit. auto. }
      apply Q.min_glb_lt; [reflexivity|].
      apply Qlt_shift_div_l; [exact Hn|]. lra.
Qed.

End Snippets.

(** ** The SLA of a ticket *)

Section SlaViews.
Import TicketSla.

(** The views of the SLA (X27). [isSLABreached] holds exactly when
    [slaStatus] is one of the two breached values; [within_sla] means
    that both deadlines are set and neither has passed, [not_set] that a
    deadline is missing.  A ticket that is breached and neither resolved
    nor closed is found by [findSLABreached]; a ticket it finds is
    breached unless a deadline is missing; and a ticket that waits for a
    human with both deadlines set needs attention only when it is
    breached. *)
Theorem sla_views_agree (status : Ticket.Status) (sla : Sla) (now : Z) :
  (isSLABreached sla now = true
   <-> slaStatus sla now = resolution_breached
       \/ slaStatus sla now = response_breached)
  /\ (slaStatus sla now = within_sla
      <-> exists response resolution,
            responseDeadline sla = Some response
            /\ resolutionDeadline sla = Some resolution
            /\ (now <= response)%Z /\ (now <= resolution)%Z)
  /\ (slaStatus sla now = not_set
      <-> responseDeadline sla = None \/ resolutionDeadline sla = None)
  /\ (status <> Ticket.resolved -> status <> Ticket.closed ->
      isSLABreached sla now = true -> findSLABreached status sla now = true)
  /\ (findSLABreached status sla now = true ->
      slaStatus sla now <> not_set ->
      isSLABreached sla now = true
      /\ status <> Ticket.resolved /\ status <> Ticket.closed)
  /\ (status = Ticket.waiting_human ->
      slaStatus sla now <> not_set ->
      (findNeedingAttention status sla now = true ->
       isSLABreached sla now = true)).
Proof.
  unfold isSLABreached, slaStatus, findSLABreached, findNeedingAttention, lt_now.
  destruct (responseDeadline sla) as [response|],
           (resolutionDeadline sla) as [resolution|]; simpl.
  - destruct (Z.ltb_spec resolution now), (Z.ltb_spec response now); simpl;
      split_and!; try (split; intros; intuition (try discriminate; try congruence));
      try (intros; destruct status; simpl in *; intuition congruence);
      try (eexists _, _; split_and!; try reflexivity; lia);
      try (destruct H1 as (a & b & [= <-] & [= <-] & ? & ?); lia).
  - split_and!; try (split; intros; intuition (try discriminate; try congruence));
      try (intros; intuition congruence);
      try (destruct H as (a & b & _ & ? & _); discriminate).
  - split_and!; try (split; intros; intuition (try discriminate; try congruence));
      try (intros; intuition congruence);
      try (destruct H as (a & b & ? & _); discriminate).
  - split_and!; try (split; intros; intuition (try discriminate; try congruence));
      try (intros; intuition congruence);
      try (destruct H as (a & b & ? & _); discriminate).
Qed.

End SlaViews.

(** ** The slug of an article *)

Section Slug.
Import Js ArticleSlug.

Lemma slug_char_kept c : slug_char c = true -> kept c = true.
Proof.
  unfold slug_char, kept. cbv zeta.
  destruct ((97 <=? nat_of_ascii c) && (nat_of_ascii c <=? 122)),
    ((48 <=? nat_of_ascii c) && (nat_of_ascii c <=? 57)),
    (nat_of_ascii c =? 45); simpl; try discriminate; try reflexivity;
    intros _; now rewrite ?orb_true_r.
Qed.

Lemma slug_char_not_ws c : slug_char c = true -> is_ws c = false.
Proof.
  unfold slug_char, is_ws. cbv zeta. intros H.
  repeat (apply orb_true_iff in H as [H|H]);
    rewrite ?andb_true_iff, ?Nat.leb_le, ?Nat.eqb_eq in H;
    repeat (apply orb_false_iff; split); apply Nat.eqb_neq; lia.
Qed.

Lemma slug_char_lower c : slug_char c = true -> lower_ascii c = c.
Proof.
  unfold slug_char, lower_ascii. cbv zeta. intros H.
  replace ((65 <=? nat_of_ascii c) && (nat_of_ascii c <=? 90)) with false;
    [reflexivity|].
  symmetry. apply andb_false_iff.
  repeat (apply orb_true_iff in H as [H|H]);
    rewrite ?andb_true_iff, ?Nat.leb_le, ?Nat.eqb_eq in H;
    rewrite !Nat.leb_gt; lia.
Qed.

Lemma kept_not_ws c : kept c = true -> is_ws c = false -> slug_char c = true.
Proof.
  unfold kept, is_ws, slug_char. cbv zeta. intros Hk Hw.
  apply orb_false_iff in Hw as [_ Hw].
  apply orb_true_iff in Hk as [Hk|Hk]; [|now rewrite Hk, orb_true_r].
  apply orb_true_iff in Hk as [Hk|Hk]; [|congruence].
  now rewrite Hk.
Qed.

Lemma hyphen_slug_char : slug_char hyphen = true.
Proof. reflexivity. Qed.

Lemma is_hyphen_eq c : is_hyphen c = true -> c = hyphen.
Proof.
  unfold is_hyphen, hyphen. intros H. apply Nat.eqb_eq in H.
  rewrite <- H. symmetry. apply ascii_nat_embedding.
Qed.

Lemma every_remove_others s : every kept (remove_others s) = true.
Proof.
  induction s as [|c s IH]; [reflexivity|]. simpl.
  destruct (kept c) eqn:Hc; [simpl; now rewrite Hc|exact IH].
Qed.

Lemma every_replace_ws s : forall run,
  every kept s = true -> every slug_char (replace_runs is_ws s run) = true.
Proof.
  induction s as [|c s IH]; intros run; [reflexivity|]. simpl.
  intros H. apply andb_true_iff in H as [Hc Hs].
  destruct (is_ws c) eqn:Hw.
  - destruct run; [now apply IH|]. simpl. now apply IH.
  - simpl. rewrite (kept_not_ws c Hc Hw). now apply IH.
Qed.

Lemma every_replace_hyphens s : forall run,
  every slug_char s = true ->
  every slug_char (replace_runs is_hyphen s run) = true.
Proof.
  induction s as [|c s IH]; intros run; [reflexivity|]. simpl.
  intros H. apply andb_true_iff in H as [Hc Hs].
  destruct (is_hyphen c).
  - destruct run; [now apply IH|]. simpl. now apply IH.
  - simpl. rewrite Hc. now apply IH.
Qed.

Lemma single_replace_hyphens s : forall run,
  single_hyphens (replace_runs is_hyphen s run) run = true.
Proof.
  induction s as [|c s IH]; intros run; [reflexivity|]. simpl.
  destruct (is_hyphen c) eqn:Hc.
  - destruct run; [apply IH|]. simpl. apply IH.
  - simpl. rewrite Hc. apply IH.
Qed.

Lemma trimStart_id s : every slug_char s = true -> trimStart s = s.
Proof.
  destruct s as [|c s]; [reflexivity|]. simpl. intros H.
  apply andb_true_iff in H as [Hc _]. now rewrite (slug_char_not_ws c Hc).
Qed.

Lemma trimEnd_id s : every slug_char s = true -> trimEnd s = s.
Proof.
  induction s as [|c s IH]; [reflexivity|]. simpl. intros H.
  apply andb_true_iff in H as [Hc Hs]. rewrite (IH Hs).
  destruct s; [now rewrite (slug_char_not_ws c Hc)|reflexivity].
Qed.

Lemma trim_id s : every slug_char s = true -> trim s = s.
Proof. intros H. unfold trim. rewrite (trimStart_id s H). now apply trimEnd_id. Qed.

Lemma toLowerCase_id s : every slug_char s = true -> toLowerCase s = s.
Proof.
  induction s as [|c s IH]; [reflexivity|]. simpl. intros H.
  apply andb_true_iff in H as [Hc Hs]. now rewrite (slug_char_lower c Hc), IH.
Qed.

Lemma remove_others_id s : every slug_char s = true -> remove_others s = s.
Proof.
  induction s as [|c s IH]; [reflexivity|]. simpl. intros H.
  apply andb_true_iff in H as [Hc Hs]. now rewrite (slug_char_kept c Hc), IH.
Qed.

Lemma replace_ws_id s : forall run,
  every slug_char s = true -> replace_runs is_ws s run = s.
Proof.
  induction s as [|c s IH]; intros run; [reflexivity|]. simpl. intros H.
  apply andb_true_iff in H as [Hc Hs]. now rewrite (slug_char_not_ws c Hc), IH.
Qed.

Lemma replace_hyphens_id s : forall run,
  single_hyphens s run = true -> replace_runs is_hyphen s run = s.
Proof.
  induction s as [|c s IH]; intros run; [reflexivity|]. simpl.
  destruct (is_hyphen c) eqn:Hc.
  - intros H. apply andb_true_iff in H as [Hr Hs].
    destruct run; [discriminate|]. rewrite (IH true Hs).
    now rewrite (is_hyphen_eq c Hc).
  - intros H. now rewrite (IH false H).
Qed.

Lemma single_hyphens_weaken s run :
  single_hyphens s run = true -> single_hyphens s false = true.
Proof.
  destruct s as [|c s]; [reflexivity|]. simpl.
  destruct (is_hyphen c); [|auto]. intros H.
  apply andb_true_iff in H as [_ H]. exact H.
Qed.

Lemma single_hyphens_no_double s : forall run,
  single_hyphens s run = true -> includes s "--" = false.
Proof.
  induction s as [|c s IH]; intros run H; [reflexivity|].
  change (includes (String c s) "--")
    with (String.prefix "--" (String c s) || includes s "--").
  assert (Hp : String.prefix "--" (String c s) = false).
  { apply not_true_is_false. intros Hp. apply prefix_spec in Hp as [r Hr].
    rewrite !string_app_cons, string_app_nil_l in Hr. inversion Hr; subst.
    destruct run; simpl in H; discriminate. }
  rewrite Hp. simpl in H. destruct (is_hyphen c).
  - apply andb_true_iff in H as [_ H]. now rewrite (IH true H).
  - now rewrite (IH false H).
Qed.

Lemma every_no_space s : every slug_char s = true -> includes s " " = false.
Proof.
  induction s as [|c s IH]; intros H; [reflexivity|].
  change (includes (String c s) " ")
    with (String.prefix " " (String c s) || includes s " ").
  simpl in H. apply andb_true_iff in H as [Hc Hs]. rewrite (IH Hs), orb_false_r.
  apply not_true_is_false. intros Hp. apply prefix_spec in Hp as [r Hr].
  rewrite string_app_cons in Hr. inversion Hr; subst. discriminate.
Qed.

Lemma length_toLowerCase s : String.length (toLowerCase s) = String.length s.
Proof. induction s as [|c s IH]; simpl; congruence. Qed.

Lemma length_remove_others s : String.length (remove_others s) <= String.length s.
Proof.
  induction s as [|c s IH]; simpl; [lia|]. destruct (kept c); simpl; lia.
Qed.

Lemma length_replace_runs X s : forall run,
  String.length (replace_runs X s run) <= String.length s.
Proof.
  induction s as [|c s IH]; intros run; simpl; [lia|].
  pose proof (IH true). pose proof (IH false).
  destruct (X c); [destruct run|]; simpl; lia.
Qed.

(** The slug of a title, before the final [trim]. *)
Lemma slug_untrimmed title :
  let s := replace_runs is_hyphen
             (replace_runs is_ws (remove_others (toLowerCase title)) false) false in
  slug title = s /\ every slug_char s = true /\ single_hyphens s false = true.
Proof.
  cbv zeta.
  assert (He : every slug_char
                 (replace_runs is_hyphen
                    (replace_runs is_ws (remove_others (toLowerCase title)) false)
                    false) = true).
  { apply every_replace_hyphens, every_replace_ws, every_remove_others. }
  split_and!.
  - unfold slug. now apply trim_id.
  - exact He.
  - apply single_replace_hyphens.
Qed.

(** The slug (X28). The slug of a title holds lower-case letters,
    digits and hyphens only, never two hyphens in a row and no space; it
    is not longer than the title; the slug of a slug is the slug itself,
    and a string of such characters without a double hyphen is its own
    slug (hyphens at its ends included: the final [trim] removes
    nothing). *)
Theorem slug_shape (title : string) :
  every slug_char (slug title) = true
  /\ includes (slug title) "--" = false
  /\ includes (slug title) " " = false
  /\ slug (slug title) = slug title
  /\ String.length (slug title) <= String.length title
  /\ (every slug_char title = true -> single_hyphens title false = true ->
      slug title = title).
Proof.
  destruct (slug_untrimmed title) as (Heq & He & Hs). cbv zeta in *.
  assert (Hid : forall s, every slug_char s = true -> single_hyphens s false = true ->
                          slug s = s).
  { intros s Hes Hss. unfold slug.
    rewrite (toLowerCase_id s Hes), (remove_others_id s Hes),
      (replace_ws_id s false Hes), (replace_hyphens_id s false Hss).
    now apply trim_id. }
  rewrite Heq. split_and!.
  - exact He.
  - now apply (single_hyphens_no_double _ false).
  - now apply every_no_space.
  - now apply Hid.
  - pose proof (length_replace_runs is_hyphen
                  (replace_runs is_ws (remove_others (toLowerCase title)) false) false).
    pose proof (length_replace_runs is_ws (remove_others (toLowerCase title)) false).
    pose proof (length_remove_others (toLowerCase title)).
    pose proof (length_toLowerCase title). lia.
  - intros H1 H2. rewrite <- Heq. now apply Hid.
Qed.

End Slug.

(** ** The search of the knowledge-base route *)

Section KbRouteFacts.
Import Js KbSearch KbRoute.
Variable sortByUpdatedAt : list Article.t -> list Article.t.
Hypothesis sort_permutes : forall l, sortByUpdatedAt l ≡ₚ l.

Lemma is_published_status a : is_published a = true <-> Article.status a = Article.published.
Proof. unfold is_published. destruct (Article.status a); split; congruence. Qed.

(** The search of the route and the ranker (X29). [GET /api/kb]
    lists at most 20 articles, all of them published documents of the
    collection.  For a query that is not blank they are the first 20
    candidates of [searchTop], in the order of the store: with at most 20
    candidates every article [searchTop] returns is listed, and a limit at
    or above their number makes [searchTop] return the same articles.  For
    a blank query the route lists published articles where [searchTop]
    returns none. *)
Theorem kb_route_items (coll : list Article.t) (query : string) :
  let listed := items sortByUpdatedAt coll (Some query) in
  length listed <= 20
  /\ (forall a, a ∈ listed -> a ∈ coll /\ Article.status a = Article.published)
  /\ (truthy_string (trim query) = true ->
      listed = take 20 (results coll (trim query))
      /\ (forall limit a,
             length (results coll (trim query)) <= 20 ->
             a ∈ searchTop coll query limit -> a ∈ listed)
      /\ (forall limit,
             length (results coll (trim query)) <= 20 ->
             (Z.of_nat (length (results coll (trim query))) <= limit)%Z ->
             searchTop coll query limit ≡ₚ listed))
  /\ (truthy_string (trim query) = false ->
      listed = take 20 (sortByUpdatedAt (List.filter is_published coll))
      /\ forall limit, searchTop coll query limit = []).
Proof.
  cbv zeta. unfold items. cbv zeta.
  assert (Hq : trim (if truthy_string query then query else "") = trim query).
  { now destruct query. }
  rewrite Hq.
  destruct (truthy_string (trim query)) eqn:Ht; cbn [negb].
  - split_and!.
    + rewrite length_take. lia.
    + intros a Ha. apply elem_of_take in Ha as (i & Hi & _).
      apply list_elem_of_lookup_2, list_elem_of_In, filter_In in Hi as [Hin Hf].
      split; [now apply list_elem_of_In|].
      unfold find_filter in Hf. apply andb_true_iff in Hf as [Hp _].
      now apply is_published_status.
    + intros _. split_and!.
      * reflexivity.
      * intros limit a Hlen Ha. rewrite take_ge by exact Hlen.
        rewrite (searchTop_ranked _ _ _ Ht) in Ha.
        destruct (slice0_take (sort (desc (article_score (trim query)))
                                    (results coll (trim query))) limit) as [k Hk].
        rewrite Hk in Ha. apply elem_of_take in Ha as (i & Hi & _).
        apply list_elem_of_lookup_2 in Hi.
        now rewrite (sort_perm (article_score (trim query))) in Hi.
      * intros limit Hlen Hlim. rewrite take_ge by exact Hlen.
        rewrite (searchTop_ranked _ _ _ Ht). unfold slice0.
        assert (Hl : length (sort (desc (article_score (trim query)))
                                  (results coll (trim query)))
                     = length (results coll (trim query))).
        { apply Permutation_length, sort_perm. }
        rewrite take_ge.
        -- apply sort_perm.
        -- rewrite Hl. destruct (limit <? 0)%Z eqn:Hneg; lia.
    + discriminate.
  - split_and!.
    + rewrite length_take. lia.
    + intros a Ha. apply elem_of_take in Ha as (i & Hi & _).
      apply list_elem_of_lookup_2 in Hi. rewrite sort_permutes in Hi.
      apply list_elem_of_In, filter_In in Hi as [Hin Hf].
      split; [now apply list_elem_of_In|now apply is_published_status].
    + discriminate.
    + intros _. split; [reflexivity|].
      intros limit. rewrite searchTop_unfold, Ht. simpl.
      now rewrite orb_true_r.
Qed.

End KbRouteFacts.

Section KbRouteExamples.
Import Js.

Lemma kb_route_items_witness :
  let listed := KbRoute.items (fun l => l) Scenario.kb (Some "refund") in
  length listed <= 20
  /\ (forall a, a ∈ listed -> a ∈ Scenario.kb /\ Article.status a = Article.published)
  /\ (truthy_string (trim "refund") = true ->
      listed = take 20 (KbSearch.results Scenario.kb (trim "refund"))
      /\ (forall limit a,
             length (KbSearch.results Scenario.kb (trim "refund")) <= 20 ->
             a ∈ KbSearch.searchTop Scenario.kb "refund" limit -> a ∈ listed)
      /\ (forall limit,
             length (KbSearch.results Scenario.kb (trim "refund")) <= 20 ->
             (Z.of_nat (length (KbSearch.results Scenario.kb (trim "refund")))
              <= limit)%Z ->
             KbSearch.searchTop Scenario.kb "refund" limit ≡ₚ listed))
  /\ (truthy_string (trim "refund") = false ->
      listed = take 20 (List.filter KbSearch.is_published Scenario.kb)
      /\ forall limit, KbSearch.searchTop Scenario.kb "refund" limit = []).
Proof.
  apply (kb_route_items (fun l => l)). intros l. reflexivity.
Defined.


End KbRouteExamples.

(** ** The creation of a ticket *)

Section TicketCreateFacts.
Import Js TicketCreate.

Lemma trimStart_no_ws_head s c r : trimStart s = String c r -> is_ws c = false.
Proof.
  induction s as [|d s IH]; simpl; [discriminate|].
  destruct (is_ws d) eqn:Hd; [exact IH|]. now intros [= <- <-].
Qed.

Lemma trimStart_trimStart s : trimStart (trimStart s) = trimStart s.
Proof.
  induction s as [|d s IH]; simpl; [reflexivity|].
  destruct (is_ws d) eqn:Hd; [exact IH|]. simpl. now rewrite Hd.
Qed.

Lemma trimEnd_trimEnd s : trimEnd (trimEnd s) = trimEnd s.
Proof.
  induction s as [|d s IH]; simpl; [reflexivity|].
  destruct (trimEnd s) as [|e r] eqn:He.
  - destruct (is_ws d) eqn:Hd; [reflexivity|]. simpl. now rewrite Hd.
  - remember (String e r) as u eqn:Hu. simpl. rewrite IH. now subst u.
Qed.

Lemma trimStart_trimEnd s : trimStart (trimEnd (trimStart s)) = trimEnd (trimStart s).
Proof.
  destruct (trimStart s) as [|c r] eqn:Hs; [reflexivity|].
  pose proof (trimStart_no_ws_head s c r Hs) as Hc.
  simpl. destruct (trimEnd r) as [|e r'].
  - rewrite Hc. simpl. now rewrite Hc.
  - simpl. now rewrite Hc.
Qed.

Lemma trim_trim s : trim (trim s) = trim s.
Proof.
  unfold trim. rewrite trimStart_trimEnd. apply trimEnd_trimEnd.
Qed.

(** The validation of the route and of the schema (X30).
    [POST /api/tickets] answers 400 exactly when its own validators fail.
    A body they let through is created only with a trimmed title of 5 to
    200 characters and a trimmed description of 10 to 5000, which are the
    bounds of the schema, not those of the route (3 and 5): with a title
    or a description outside the bounds of the schema [Ticket.create]
    rejects, and inside them (attachments valid) the ticket is created
    with the trimmed fields and a category of the schema. *)
Theorem create_validation_gap (b : Body) (attachments_valid : bool) :
  let t := sanitized (title b) in
  let d := sanitized (description b) in
  (create b attachments_valid = bad_request <-> validation_passes b = false)
  /\ (forall t' d' c',
         create b attachments_valid = created t' d' c' ->
         t' = t /\ d' = d /\ c' ∈ categories
         /\ 5 <= String.length t' <= 200
         /\ 10 <= String.length d' <= 5000)
  /\ (validation_passes b = true ->
      String.length t < 5 \/ 200 < String.length t
      \/ String.length d < 10 \/ 5000 < String.length d ->
      create b attachments_valid = create_rejects)
  /\ (validation_passes b = true -> attachments_valid = true ->
      5 <= String.length t <= 200 -> 10 <= String.length d <= 5000 ->
      exists c', create b attachments_valid = created t d c').
Proof.
  cbv zeta. unfold create. cbv zeta.
  assert (Htt : trim (sanitized (title b)) = sanitized (title b)).
  { unfold sanitized. apply trim_trim. }
  unfold schema_accepts. rewrite Htt.
  generalize (sanitized (title b)) as t, (sanitized (description b)) as d.
  intros t d.
  destruct (validation_passes b) eqn:Hv; cbn [negb].
  - assert (Hc : match category b with
                 | Some c => if truthy_string c then c else "other"
                 | None => "other"
                 end ∈ categories).
    { unfold validation_passes in Hv. apply andb_true_iff in Hv as [_ Hv].
      destruct (category b) as [c|]; [|unfold categories; repeat constructor].
      apply bool_decide_eq_true in Hv. destruct c; [|exact Hv].
      unfold categories; repeat constructor. }
    generalize dependent (match category b with
                          | Some c => if truthy_string c then c else "other"
                          | None => "other"
                          end).
    intros c Hc. clear Hv Htt.
    rewrite (bool_decide_eq_true_2 _ Hc), andb_true_r.
    destruct ((5 <=? String.length t) && (String.length t <=? 200)
              && (10 <=? String.length d) && (String.length d <=? 5000)
              && attachments_valid) eqn:Hok.
    + repeat (apply andb_true_iff in Hok as [Hok ?]).
      apply Nat.leb_le in Hok.
      repeat match goal with H : (_ <=? _) = true |- _ => apply Nat.leb_le in H end.
      split_and!.
      * split; discriminate.
      * intros t' d' c' [= <- <- <-]. split_and!; auto; lia.
      * intros _ Hbad. lia.
      * intros _ _ _ _. eauto.
    + split_and!.
      * split; discriminate.
      * discriminate.
      * reflexivity.
      * intros _ -> [Hn1 Hn2] [Hm1 Hm2]. exfalso.
        apply Nat.leb_le in Hn1, Hn2, Hm1, Hm2.
        rewrite Hn1, Hn2, Hm1, Hm2 in Hok. discriminate.
  - split_and!.
    + split; reflexivity.
    + discriminate.
    + discriminate.
    + discriminate.
Qed.

End TicketCreateFacts.
